(** * The solver of [src/caffe/solver.cpp]: update rules, training loop,
      evaluation pass and checkpoints.

    Conventions of the embedding.

    - [Dtype] (the template parameter, [float] or [double]) is idealised as
      the real numbers: every statement below is a statement in exact
      arithmetic, the order of the operations is the source's.
    - The real numbers have no [inf] and no [NaN].  Where a floating-point
      operation of the source gives one of them (a division by zero, the
      square root or a non-integer power of a negative number, zero to a
      negative power) the operations below still give a number, which
      means nothing; the theorems that state the values which the schedule
      and the update rules compute exclude these inputs by a hypothesis,
      and state, where it is not plain, that their divisors are not zero
      and their radicands not negative.
    - C++ [int] is [Z]; [/] and [%] on [int] are [Z.quot] and [Z.rem]
      (truncation towards zero).  No arithmetic on [int] in this file can
      leave the 32-bit range ([++iter_] runs under [iter_ < max_iter]).
    - [LOG(FATAL)] and a failed [CHECK_*] end the process: [Fatal].
    - A [vector] is a list, read with [!!] and written with [<[i:=x]>]. *)

From Stdlib Require Import Reals Lra Lia ZArith String List DecimalString.
From Stdlib Require DecimalPos DecimalZ.
From stdpp Require Import base option list strings gmap.

Local Open Scope Z_scope.

(** ** Fatal errors *)

Inductive Result (A : Type) : Type :=
| Ok (a : A)
| Fatal (msg : string).
Arguments Ok {A} a.
Arguments Fatal {A} msg.

Definition bind {A B : Type} (r : Result A) (k : A -> Result B) : Result B :=
  match r with
  | Ok a => k a
  | Fatal msg => Fatal msg
  end.

Notation "'do' x <- r ; k" := (bind r (fun x => k))
  (at level 10, x name, r at level 100, k at level 200).

Definition is_Fatal {A : Type} (r : Result A) : Prop :=
  match r with
  | Ok _ => False
  | Fatal _ => True
  end.

(** ** Numbers *)

Abbreviation Dtype := R (only parsing).

(** [Dtype(n)] for an [int] n. *)
Definition Dtype_of_int (n : Z) : Dtype := IZR n.

(** [if (x)] on a [Dtype]: true when x is not zero. *)
Definition Dtype_nonzero (x : Dtype) : bool :=
  if Req_dec_T x 0%R then false else true.

(** [pow(x, n)] with an [int] exponent (zero to a negative exponent is
    [inf] in C). *)
Definition pow_int (x : Dtype) (n : Z) : Dtype := powerRZ x n.

(** The [int] that a [Dtype] is equal to, if there is one. *)
Definition Dtype_int (y : Dtype) : option Z :=
  if Req_dec_T y (IZR (up y - 1)) then Some (up y - 1) else None.

(** [pow(x, y)] with a [Dtype] exponent, as the C function defines it
    wherever its result is a real number: [exp (y * ln x)] on a positive
    base; on a zero or negative base the integer power for an integer
    exponent ([pow(-2, -2) = 0.25], [pow(0, 0) = 1]), and [pow(0, y) = 0]
    for a positive exponent.  Zero to a negative exponent is [inf] and a
    negative base to a non-integer exponent is [NaN] in C. *)
Definition pow_real (x y : Dtype) : Dtype :=
  if Rlt_dec 0 x then Rpower x y
  else match Dtype_int y with
       | Some n => powerRZ x n
       | None => if Req_dec_T x 0%R then 0%R else Rpower x y
       end.

(** ** SolverParameter: the fields the solver reads.

    The message type is generated from [caffe.proto]; a getter of an unset
    optional field returns the default declared there, so the record holds
    what the getter returns, and [has_update_interval], [has_learned_net]
    are kept where the source asks for them. *)

Inductive SolverMode : Type := CPU | GPU.

Record SolverParameter : Type := {
  lr_policy : string;
  base_lr : Dtype;
  gamma : Dtype;
  power : Dtype;
  stepsize : Z;
  momentum : Dtype;
  weight_decay : Dtype;
  regularization_type : string;
  delta : Dtype;
  rms_decay : Dtype;
  max_iter : Z;
  snapshot : Z;
  snapshot_prefix : string;
  snapshot_diff : bool;
  snapshot_after_train : bool;
  test_interval : Z;
  test_initialization : bool;
  test_compute_loss : bool;
  test_iter : list Z;
  display : Z;
  debug_info : bool;
  average_loss : Z;
  has_update_interval : bool;
  update_interval : Z;
  solver_mode : SolverMode
}.

(** ** SGDSolver::GetLearningRate

    [iter_ / stepsize] is an integer division; on a zero divisor the source
    has no defined result (the process is killed by the division), which is
    written out here as a fatal error. *)

Definition GetLearningRate (param_ : SolverParameter) (iter_ : Z) : Result Dtype :=
  if String.eqb (lr_policy param_) "fixed" then
    Ok (base_lr param_)
  else if String.eqb (lr_policy param_) "step" then
    if Z.eqb (stepsize param_) 0 then Fatal "integer division by zero"
    else
      let current_step := Z.quot iter_ (stepsize param_) in
      Ok (base_lr param_ * pow_int (gamma param_) current_step)%R
  else if String.eqb (lr_policy param_) "exp" then
    Ok (base_lr param_ * pow_int (gamma param_) iter_)%R
  else if String.eqb (lr_policy param_) "inv" then
    Ok (base_lr param_ *
        pow_real (1 + gamma param_ * Dtype_of_int iter_) (- power param_))%R
  else
    Fatal ("Unknown learning rate policy: " ++ lr_policy param_).

(** ** Blobs, the net's learnable parameters and the solver's buffers *)

Record Blob : Type := {
  cpu_data : list Dtype;
  cpu_diff : list Dtype
}.

Definition count (b : Blob) : nat := length (cpu_data b).

(** [new Blob(num, channels, height, width)]: both arrays zero, as many
    elements as the parameter has. *)
Definition new_Blob (n : nat) : Blob :=
  {| cpu_data := replicate n 0%R; cpu_diff := replicate n 0%R |}.

Record Net : Type := {
  params : list Blob;
  params_lr : list Dtype;
  params_weight_decay : list Dtype
}.

Inductive SolverType : Type := SGD | Nesterov | AdaGrad | AdaDelta | RMSprop.

Record SGDSolver : Type := {
  param_ : SolverParameter;
  iter_ : Z;
  net_ : Net;
  history_ : list Blob;
  update_ : list Blob;
  temp_ : list Blob
}.

(** [v[i]]: reading past the end has no defined result in the source. *)
Definition at_ {A : Type} (v : list A) (i : nat) : Result A :=
  match v !! i with
  | Some a => Ok a
  | None => Fatal "vector index out of range"
  end.

(** The arrays the kernels read and write. *)
Inductive Buf : Type :=
| ParamData (i : nat)
| ParamDiff (i : nat)
| HistoryData (i : nat)
| UpdateData (i : nat)
| TempData (i : nat).

Definition read (s : SGDSolver) (b : Buf) : Result (list Dtype) :=
  match b with
  | ParamData i => do p <- at_ (params (net_ s)) i; Ok (cpu_data p)
  | ParamDiff i => do p <- at_ (params (net_ s)) i; Ok (cpu_diff p)
  | HistoryData i => do p <- at_ (history_ s) i; Ok (cpu_data p)
  | UpdateData i => do p <- at_ (update_ s) i; Ok (cpu_data p)
  | TempData i => do p <- at_ (temp_ s) i; Ok (cpu_data p)
  end.

Definition set_data (v : list Dtype) (b : Blob) : Blob :=
  {| cpu_data := v; cpu_diff := cpu_diff b |}.

Definition set_diff (v : list Dtype) (b : Blob) : Blob :=
  {| cpu_data := cpu_data b; cpu_diff := v |}.

Definition set_params (s : SGDSolver) (ps : list Blob) : SGDSolver :=
  {| param_ := param_ s; iter_ := iter_ s;
     net_ := {| params := ps; params_lr := params_lr (net_ s);
                params_weight_decay := params_weight_decay (net_ s) |};
     history_ := history_ s; update_ := update_ s; temp_ := temp_ s |}.

Definition set_history (s : SGDSolver) (hs : list Blob) : SGDSolver :=
  {| param_ := param_ s; iter_ := iter_ s; net_ := net_ s;
     history_ := hs; update_ := update_ s; temp_ := temp_ s |}.

Definition set_update (s : SGDSolver) (us : list Blob) : SGDSolver :=
  {| param_ := param_ s; iter_ := iter_ s; net_ := net_ s;
     history_ := history_ s; update_ := us; temp_ := temp_ s |}.

Definition set_temp (s : SGDSolver) (ts : list Blob) : SGDSolver :=
  {| param_ := param_ s; iter_ := iter_ s; net_ := net_ s;
     history_ := history_ s; update_ := update_ s; temp_ := ts |}.

Definition write (s : SGDSolver) (b : Buf) (v : list Dtype) : SGDSolver :=
  match b with
  | ParamData i => set_params s (alter (set_data v) i (params (net_ s)))
  | ParamDiff i => set_params s (alter (set_diff v) i (params (net_ s)))
  | HistoryData i => set_history s (alter (set_data v) i (history_ s))
  | UpdateData i => set_update s (alter (set_data v) i (update_ s))
  | TempData i => set_temp s (alter (set_data v) i (temp_ s))
  end.

(** ** The math kernels

    The element-wise kernel primitives of [caffe/util/math_functions.hpp]
    are declared outside [solver.cpp].  Each of them writes the first [N]
    elements of its output array and leaves the rest. *)

(** Modelled from the spec: the sign of an element, for [caffe_cpu_sign]. *)
Definition Dtype_sign (x : Dtype) : Dtype :=
  if Rlt_dec 0 x then 1%R else if Rlt_dec x 0 then (-1)%R else 0%R.

(** Modelled from the spec: the element-wise power of [caffe_powx], as the
    solver calls it: the square for [Dtype(2)], the square root for
    [Dtype(0.5)] (of a negative number it is [NaN] in C, so the theorems
    on the rules that take a square root have the radicand non-negative). *)
Definition powx (a b : Dtype) : Dtype :=
  if Req_dec_T b 2%R then (a * a)%R
  else if Req_dec_T b (1 / 2)%R then sqrt a
  else pow_real a b.

(** The first [N] elements of [new], then the rest of [old]. *)
Definition into (N : nat) (new old : list Dtype) : list Dtype :=
  take N new ++ drop N old.

(** Modelled from the spec: [caffe_axpy], [Y = alpha * X + Y]. *)
Definition caffe_axpy (N : nat) (alpha : Dtype) (X Y : list Dtype) : list Dtype :=
  into N (zip_with (fun x y => alpha * x + y)%R X Y) Y.

(** Modelled from the spec: [caffe_cpu_axpby], [Y = alpha * X + beta * Y]. *)
Definition caffe_cpu_axpby (N : nat) (alpha : Dtype) (X : list Dtype)
    (beta : Dtype) (Y : list Dtype) : list Dtype :=
  into N (zip_with (fun x y => alpha * x + beta * y)%R X Y) Y.

(** Modelled from the spec: [caffe_cpu_sign], [Y = sign X]. *)
Definition caffe_cpu_sign (N : nat) (X Y : list Dtype) : list Dtype :=
  into N (map Dtype_sign X) Y.

(** Modelled from the spec: [caffe_copy], [Y = X]. *)
Definition caffe_copy (N : nat) (X Y : list Dtype) : list Dtype :=
  into N X Y.

(** Modelled from the spec: [caffe_powx], [y = a ^ b] element by element. *)
Definition caffe_powx (N : nat) (a : list Dtype) (b : Dtype) (y : list Dtype)
    : list Dtype :=
  into N (map (fun x => powx x b) a) y.

(** Modelled from the spec: [caffe_add], [y = a + b]. *)
Definition caffe_add (N : nat) (a b y : list Dtype) : list Dtype :=
  into N (zip_with Rplus a b) y.

(** Modelled from the spec: [caffe_mul], [y = a * b] element by element. *)
Definition caffe_mul (N : nat) (a b y : list Dtype) : list Dtype :=
  into N (zip_with Rmult a b) y.

(** Modelled from the spec: [caffe_div], [y = a / b] element by element
    (by a zero divisor it is [inf] or [NaN] in C, so the theorems on the
    rules that divide have the divisor nonzero). *)
Definition caffe_div (N : nat) (a b y : list Dtype) : list Dtype :=
  into N (zip_with Rdiv a b) y.

(** Modelled from the spec: [caffe_add_scalar], [Y = Y + alpha]. *)
Definition caffe_add_scalar (N : nat) (alpha : Dtype) (Y : list Dtype)
    : list Dtype :=
  into N (map (fun y => y + alpha)%R Y) Y.

(** Modelled from the spec: [caffe_set], [Y = alpha]. *)
Definition caffe_set (N : nat) (alpha : Dtype) (Y : list Dtype) : list Dtype :=
  into N (replicate N alpha) Y.

(** A kernel call on the solver's arrays: read the inputs, write the
    output.  The output may be one of the inputs, as in the source. *)
Definition call1 (f : list Dtype -> list Dtype) (Y : Buf) (s : SGDSolver)
    : Result SGDSolver :=
  do y <- read s Y; Ok (write s Y (f y)).

Definition call2 (f : list Dtype -> list Dtype -> list Dtype) (X Y : Buf)
    (s : SGDSolver) : Result SGDSolver :=
  do x <- read s X; do y <- read s Y; Ok (write s Y (f x y)).

Definition call3 (f : list Dtype -> list Dtype -> list Dtype -> list Dtype)
    (A B Y : Buf) (s : SGDSolver) : Result SGDSolver :=
  do a <- read s A; do b <- read s B; do y <- read s Y;
  Ok (write s Y (f a b y)).

(** [for (int param_id = 0; param_id < net_params.size(); ++param_id)] *)
Fixpoint for_params (body : nat -> SGDSolver -> Result SGDSolver)
    (n : nat) (param_id : nat) (s : SGDSolver) : Result SGDSolver :=
  match n with
  | O => Ok s
  | S n' => do s' <- body param_id s; for_params body n' (S param_id) s'
  end.

(** [switch (Caffe::mode())]: the GPU branch is the same sequence of calls
    on the device copies of the arrays, and is compiled out ([NO_GPU], a
    fatal error) under [CPU_ONLY]. *)
Definition switch_mode (CPU_ONLY : bool) (mode : SolverMode)
    (body : nat -> SGDSolver -> Result SGDSolver) (s : SGDSolver)
    : Result SGDSolver :=
  match mode with
  | CPU => for_params body (length (params (net_ s))) 0%nat s
  | GPU =>
      if CPU_ONLY then Fatal "Cannot use GPU in CPU-only Caffe"
      else for_params body (length (params (net_ s))) 0%nat s
  end.

(** The weight-decay block, the same text in all five rules. *)
Definition Regularize (regularization_type : string) (N : nat)
    (local_decay : Dtype) (param_id : nat) (s : SGDSolver)
    : Result SGDSolver :=
  if Dtype_nonzero local_decay then
    if String.eqb regularization_type "L2" then
      call2 (caffe_axpy N local_decay) (ParamData param_id) (ParamDiff param_id) s
    else if String.eqb regularization_type "L1" then
      do s <- call2 (caffe_cpu_sign N) (ParamData param_id) (TempData param_id) s;
      call2 (caffe_axpy N local_decay) (TempData param_id) (ParamDiff param_id) s
    else
      Fatal ("Unknown regularization type: " ++ regularization_type)
  else Ok s.

Definition param_count (s : SGDSolver) (param_id : nat) : Result nat :=
  do p <- at_ (params (net_ s)) param_id; Ok (count p).

(** ** SGDSolver::PreSolve and AdaDeltaSolver::PreSolve *)

Definition zero_like (ps : list Blob) : list Blob :=
  map (fun net_param => new_Blob (count net_param)) ps.

Definition SGD_PreSolve (s : SGDSolver) : SGDSolver :=
  let net_params := params (net_ s) in
  {| param_ := param_ s; iter_ := iter_ s; net_ := net_ s;
     history_ := zero_like net_params;
     update_ := zero_like net_params;
     temp_ := zero_like net_params |}.

(** The second loop appends one more history blob per parameter: the
    update accumulator of parameter [i] is [history_[n + i]]. *)
Definition AdaDelta_PreSolve (s : SGDSolver) : SGDSolver :=
  let net_params := params (net_ s) in
  {| param_ := param_ s; iter_ := iter_ s; net_ := net_ s;
     history_ := zero_like net_params ++ zero_like net_params;
     update_ := zero_like net_params;
     temp_ := zero_like net_params |}.

(** ** The preamble of ComputeUpdateValue: rate and weight decay

    [SGDSolver] and [NesterovSolver] divide the rate by [update_interval]
    and multiply the decay by it; [AdaGradSolver], [AdaDeltaSolver] and
    [RMSpropSolver] have neither statement.  The division is one of
    [Dtype]: by an [update_interval] of zero the rate is [inf] or [NaN] in
    C, so the theorems on the values that [SGDSolver] and [NesterovSolver]
    write have [update_interval] nonzero. *)

Definition SGD_rate (param_ : SolverParameter) (iter_ : Z) : Result Dtype :=
  do rate <- GetLearningRate param_ iter_;
  Ok (rate / Dtype_of_int (update_interval param_))%R.

Definition SGD_weight_decay (param_ : SolverParameter) : Dtype :=
  (weight_decay param_ * Dtype_of_int (update_interval param_))%R.

Definition AdaGrad_rate (param_ : SolverParameter) (iter_ : Z) : Result Dtype :=
  GetLearningRate param_ iter_.

Definition AdaGrad_weight_decay (param_ : SolverParameter) : Dtype :=
  weight_decay param_.

(** ** The loop bodies, one kernel call per line as in the source *)

Definition SGD_body (rate momentum weight_decay : Dtype)
    (regularization_type : string) (param_id : nat) (s : SGDSolver)
    : Result SGDSolver :=
  do N <- param_count s param_id;
  do lr <- at_ (params_lr (net_ s)) param_id;
  do wd <- at_ (params_weight_decay (net_ s)) param_id;
  let local_rate := (rate * lr)%R in
  let local_decay := (weight_decay * wd)%R in
  do s <- Regularize regularization_type N local_decay param_id s;
  do s <- call2 (fun X Y => caffe_cpu_axpby N local_rate X momentum Y)
            (ParamDiff param_id) (HistoryData param_id) s;
  call2 (caffe_copy N) (HistoryData param_id) (ParamDiff param_id) s.

Definition Nesterov_body (rate momentum weight_decay : Dtype)
    (regularization_type : string) (param_id : nat) (s : SGDSolver)
    : Result SGDSolver :=
  do N <- param_count s param_id;
  do s <- call2 (caffe_copy N) (HistoryData param_id) (UpdateData param_id) s;
  do lr <- at_ (params_lr (net_ s)) param_id;
  do wd <- at_ (params_weight_decay (net_ s)) param_id;
  let local_rate := (rate * lr)%R in
  let local_decay := (weight_decay * wd)%R in
  do s <- Regularize regularization_type N local_decay param_id s;
  do s <- call2 (fun X Y => caffe_cpu_axpby N local_rate X momentum Y)
            (ParamDiff param_id) (HistoryData param_id) s;
  do s <- call2 (fun X Y => caffe_cpu_axpby N (1 + momentum)%R X (- momentum)%R Y)
            (HistoryData param_id) (UpdateData param_id) s;
  call2 (caffe_copy N) (UpdateData param_id) (ParamDiff param_id) s.

Definition AdaGrad_body (rate delta weight_decay : Dtype)
    (regularization_type : string) (param_id : nat) (s : SGDSolver)
    : Result SGDSolver :=
  do N <- param_count s param_id;
  do lr <- at_ (params_lr (net_ s)) param_id;
  do wd <- at_ (params_weight_decay (net_ s)) param_id;
  let local_rate := (rate * lr)%R in
  let local_decay := (weight_decay * wd)%R in
  do s <- Regularize regularization_type N local_decay param_id s;
  do s <- call2 (fun a y => caffe_powx N a 2%R y)
            (ParamDiff param_id) (UpdateData param_id) s;
  do s <- call3 (caffe_add N)
            (UpdateData param_id) (HistoryData param_id) (HistoryData param_id) s;
  do s <- call2 (fun a y => caffe_powx N a (1 / 2)%R y)
            (HistoryData param_id) (UpdateData param_id) s;
  do s <- call1 (caffe_add_scalar N delta) (UpdateData param_id) s;
  do s <- call3 (caffe_div N)
            (ParamDiff param_id) (UpdateData param_id) (UpdateData param_id) s;
  call2 (fun X Y => caffe_cpu_axpby N local_rate X 0%R Y)
    (UpdateData param_id) (ParamDiff param_id) s.

Definition AdaDelta_body (rate delta momentum weight_decay : Dtype)
    (regularization_type : string) (update_history_offset : nat)
    (param_id : nat) (s : SGDSolver) : Result SGDSolver :=
  do N <- param_count s param_id;
  do lr <- at_ (params_lr (net_ s)) param_id;
  do wd <- at_ (params_weight_decay (net_ s)) param_id;
  let local_rate := (rate * lr)%R in
  let local_decay := (weight_decay * wd)%R in
  do s <- Regularize regularization_type N local_decay param_id s;
  do s <- call2 (fun a y => caffe_powx N a 2%R y)
            (ParamDiff param_id) (UpdateData param_id) s;
  do s <- call2 (fun X Y => caffe_cpu_axpby N (1 - momentum)%R X momentum Y)
            (UpdateData param_id) (HistoryData param_id) s;
  do s <- call1 (caffe_set N delta) (TempData param_id) s;
  do s <- call3 (caffe_add N)
            (TempData param_id)
            (HistoryData (update_history_offset + param_id))
            (UpdateData param_id) s;
  do s <- call3 (caffe_add N)
            (TempData param_id) (HistoryData param_id) (TempData param_id) s;
  do s <- call3 (caffe_div N)
            (UpdateData param_id) (TempData param_id) (UpdateData param_id) s;
  do s <- call2 (fun a y => caffe_powx N a (1 / 2)%R y)
            (UpdateData param_id) (UpdateData param_id) s;
  do s <- call3 (caffe_mul N)
            (ParamDiff param_id) (UpdateData param_id) (ParamDiff param_id) s;
  do s <- call2 (fun a y => caffe_powx N a 2%R y)
            (ParamDiff param_id) (UpdateData param_id) s;
  do s <- call2 (fun X Y => caffe_cpu_axpby N (1 - momentum)%R X momentum Y)
            (UpdateData param_id)
            (HistoryData (update_history_offset + param_id)) s;
  do s <- call2 (fun X Y => caffe_cpu_axpby N local_rate X 0%R Y)
            (ParamDiff param_id) (TempData param_id) s;
  call2 (caffe_copy N) (TempData param_id) (ParamDiff param_id) s.

Definition RMSprop_body (rate delta rms_decay weight_decay : Dtype)
    (regularization_type : string) (param_id : nat) (s : SGDSolver)
    : Result SGDSolver :=
  do N <- param_count s param_id;
  do lr <- at_ (params_lr (net_ s)) param_id;
  do wd <- at_ (params_weight_decay (net_ s)) param_id;
  let local_rate := (rate * lr)%R in
  let local_decay := (weight_decay * wd)%R in
  do s <- Regularize regularization_type N local_decay param_id s;
  do s <- call2 (fun a y => caffe_powx N a 2%R y)
            (ParamDiff param_id) (UpdateData param_id) s;
  do s <- call2 (fun X Y => caffe_cpu_axpby N (1 - rms_decay)%R X rms_decay Y)
            (UpdateData param_id) (HistoryData param_id) s;
  do s <- call2 (fun a y => caffe_powx N a (1 / 2)%R y)
            (HistoryData param_id) (UpdateData param_id) s;
  do s <- call1 (caffe_add_scalar N delta) (UpdateData param_id) s;
  do s <- call3 (caffe_div N)
            (ParamDiff param_id) (UpdateData param_id) (UpdateData param_id) s;
  call2 (fun X Y => caffe_cpu_axpby N local_rate X 0%R Y)
    (UpdateData param_id) (ParamDiff param_id) s.

(** ** ComputeUpdateValue of the five solvers *)

Definition SGD_ComputeUpdateValue (CPU_ONLY : bool) (mode : SolverMode)
    (s : SGDSolver) : Result SGDSolver :=
  do rate <- SGD_rate (param_ s) (iter_ s);
  let momentum := momentum (param_ s) in
  let weight_decay := SGD_weight_decay (param_ s) in
  let regularization_type := regularization_type (param_ s) in
  switch_mode CPU_ONLY mode
    (SGD_body rate momentum weight_decay regularization_type) s.

Definition Nesterov_ComputeUpdateValue (CPU_ONLY : bool) (mode : SolverMode)
    (s : SGDSolver) : Result SGDSolver :=
  do rate <- SGD_rate (param_ s) (iter_ s);
  let momentum := momentum (param_ s) in
  let weight_decay := SGD_weight_decay (param_ s) in
  let regularization_type := regularization_type (param_ s) in
  switch_mode CPU_ONLY mode
    (Nesterov_body rate momentum weight_decay regularization_type) s.

Definition AdaGrad_ComputeUpdateValue (CPU_ONLY : bool) (mode : SolverMode)
    (s : SGDSolver) : Result SGDSolver :=
  do rate <- AdaGrad_rate (param_ s) (iter_ s);
  let delta := delta (param_ s) in
  let weight_decay := AdaGrad_weight_decay (param_ s) in
  let regularization_type := regularization_type (param_ s) in
  switch_mode CPU_ONLY mode
    (AdaGrad_body rate delta weight_decay regularization_type) s.

Definition AdaDelta_ComputeUpdateValue (CPU_ONLY : bool) (mode : SolverMode)
    (s : SGDSolver) : Result SGDSolver :=
  do rate <- AdaGrad_rate (param_ s) (iter_ s);
  let delta := delta (param_ s) in
  let momentum := momentum (param_ s) in
  let weight_decay := AdaGrad_weight_decay (param_ s) in
  let regularization_type := regularization_type (param_ s) in
  let update_history_offset := length (params (net_ s)) in
  switch_mode CPU_ONLY mode
    (AdaDelta_body rate delta momentum weight_decay regularization_type
       update_history_offset) s.

Definition RMSprop_ComputeUpdateValue (CPU_ONLY : bool) (mode : SolverMode)
    (s : SGDSolver) : Result SGDSolver :=
  do rate <- AdaGrad_rate (param_ s) (iter_ s);
  let delta := delta (param_ s) in
  let rms_decay := rms_decay (param_ s) in
  let weight_decay := AdaGrad_weight_decay (param_ s) in
  let regularization_type := regularization_type (param_ s) in
  switch_mode CPU_ONLY mode
    (RMSprop_body rate delta rms_decay weight_decay regularization_type) s.

(** The virtual calls [PreSolve()] and [ComputeUpdateValue()]. *)
Definition PreSolve (ty : SolverType) (s : SGDSolver) : SGDSolver :=
  match ty with
  | AdaDelta => AdaDelta_PreSolve s
  | _ => SGD_PreSolve s
  end.

Definition ComputeUpdateValue (ty : SolverType) (CPU_ONLY : bool)
    (mode : SolverMode) (s : SGDSolver) : Result SGDSolver :=
  match ty with
  | SGD => SGD_ComputeUpdateValue CPU_ONLY mode s
  | Nesterov => Nesterov_ComputeUpdateValue CPU_ONLY mode s
  | AdaGrad => AdaGrad_ComputeUpdateValue CPU_ONLY mode s
  | AdaDelta => AdaDelta_ComputeUpdateValue CPU_ONLY mode s
  | RMSprop => RMSprop_ComputeUpdateValue CPU_ONLY mode s
  end.

(** ** Solver::Init: the accumulation flag (lines 44-47) *)

Definition Init_accumulate (param_ : SolverParameter) : bool :=
  if negb (has_update_interval param_) || Z.eqb (update_interval param_) 1
  then false else true.

(** ** Solver::Solve: the training loop

    The calls into the net, into the update rule and into Snapshot and
    TestAll are recorded as events, in the order the loop makes them.  The
    loss returned by the [n]-th call of [ForwardBackward] in a run is
    [loss_of n]. *)

Inductive Event : Type :=
| EvSnapshot (iter : Z)
| EvTestAll (iter : Z)
| EvSetDebugInfo (on : bool)
| EvForwardBackward (call : nat)
| EvAccumulateDiff
| EvUpdateDiff
| EvDisplay (iter : Z) (smoothed_loss : Dtype)
| EvComputeUpdateValue (iter : Z)
| EvNetUpdate
| EvForward (iter : Z).

(** Lines 211-214: the accumulate-only passes. *)
Fixpoint accumulate_loop (loss_of : nat -> Dtype) (n : nat) (loss : Dtype)
    (calls : nat) : Dtype * nat * list Event :=
  match n with
  | O => (loss, calls, [])
  | S n' =>
      let loss := (loss + loss_of calls)%R in
      let '(loss', calls', evs) := accumulate_loop loss_of n' loss (S calls) in
      (loss', calls', EvForwardBackward calls :: EvAccumulateDiff :: evs)
  end.

(** Lines 207-218: one training step; returns the loss of the pass, the
    number of ForwardBackward calls made so far and the calls made. *)
Definition train_step (param_ : SolverParameter) (accumulate : bool)
    (loss_of : nat -> Dtype) (calls : nat) : Dtype * nat * list Event :=
  let loss := 0%R in
  if negb accumulate then
    (loss_of calls, S calls, [EvForwardBackward calls])
  else
    let '(loss, calls, evs) :=
      accumulate_loop loss_of (Z.to_nat (update_interval param_ - 1)) loss calls in
    let loss := (loss + loss_of calls)%R in
    let loss := (loss / Dtype_of_int (update_interval param_))%R in
    (loss, S calls, evs ++ [EvForwardBackward calls; EvUpdateDiff]).

(** Lines 220-228: the smoothed loss. *)
Definition update_smoothed_loss (average_loss start_iter iter_ : Z)
    (loss : Dtype) (losses : list Dtype) (smoothed_loss : Dtype)
    : Result (list Dtype * Dtype) :=
  if Z.ltb (Z.of_nat (length losses)) average_loss then
    let losses := losses ++ [loss] in
    let size := Z.of_nat (length losses) in
    Ok (losses,
        ((smoothed_loss * Dtype_of_int (size - 1) + loss) / Dtype_of_int size)%R)
  else
    let idx := Z.to_nat (Z.rem (iter_ - start_iter) average_loss) in
    do old <- at_ losses idx;
    Ok (<[idx := loss]> losses,
        (smoothed_loss + (loss - old) / Dtype_of_int average_loss)%R).

Record LoopState : Type := {
  loop_iter : Z;
  losses : list Dtype;
  smoothed_loss : Dtype;
  fb_calls : nat;
  trace : list Event
}.

Definition snapshot_due (param_ : SolverParameter) (start_iter iter_ : Z) : bool :=
  negb (Z.eqb (snapshot param_) 0) && Z.ltb start_iter iter_ &&
  Z.eqb (Z.rem iter_ (snapshot param_)) 0.

Definition test_due (param_ : SolverParameter) (iter_ : Z) : bool :=
  negb (Z.eqb (test_interval param_) 0) &&
  Z.eqb (Z.rem iter_ (test_interval param_)) 0 &&
  (Z.ltb 0 iter_ || test_initialization param_).

Definition display_due (param_ : SolverParameter) (iter_ : Z) : bool :=
  negb (Z.eqb (display param_) 0) && Z.eqb (Z.rem iter_ (display param_)) 0.

(** The events of the head of a pass (lines 193-205). *)
Definition pass_head (param_ : SolverParameter) (start_iter iter_ : Z)
    : list Event :=
  (if snapshot_due param_ start_iter iter_ then [EvSnapshot iter_] else []) ++
  (if test_due param_ iter_ then [EvTestAll iter_] else []) ++
  [EvSetDebugInfo (display_due param_ iter_ && debug_info param_)].

(** One pass of the loop (lines 192-255). *)
Definition Solve_pass (param_ : SolverParameter) (accumulate : bool)
    (loss_of : nat -> Dtype) (start_iter : Z) (st : LoopState)
    : Result LoopState :=
  let iter_ := loop_iter st in
  let '(loss, calls, step_events) :=
    train_step param_ accumulate loss_of (fb_calls st) in
  do sm <- update_smoothed_loss (average_loss param_) start_iter iter_ loss
             (losses st) (smoothed_loss st);
  Ok {| loop_iter := iter_ + 1;
        losses := fst sm;
        smoothed_loss := snd sm;
        fb_calls := calls;
        trace := trace st ++ pass_head param_ start_iter iter_ ++ step_events ++
                 (if display_due param_ iter_ then [EvDisplay iter_ (snd sm)] else []) ++
                 [EvComputeUpdateValue iter_; EvNetUpdate] |}.

Fixpoint Solve_loop (param_ : SolverParameter) (accumulate : bool)
    (loss_of : nat -> Dtype) (start_iter : Z) (passes : nat) (st : LoopState)
    : Result LoopState :=
  match passes with
  | O => Ok st
  | S n =>
      do st' <- Solve_pass param_ accumulate loss_of start_iter st;
      Solve_loop param_ accumulate loss_of start_iter n st'
  end.

(** What Solve does after the loop (lines 256-272). *)
Definition Solve_exit (param_ : SolverParameter) (iter_ : Z) : list Event :=
  (if snapshot_after_train param_ then [EvSnapshot iter_] else []) ++
  (if display_due param_ iter_ then [EvForward iter_] else []) ++
  (if negb (Z.eqb (test_interval param_) 0) &&
      Z.eqb (Z.rem iter_ (test_interval param_)) 0
   then [EvTestAll iter_] else []).

Definition loop_entry (start_iter : Z) : LoopState :=
  {| loop_iter := start_iter; losses := []; smoothed_loss := 0%R;
     fb_calls := 0%nat; trace := [] |}.

(** Solve, from the iteration the run starts at: 0, or the iteration of
    the state file that Restore read. *)
Definition Solve (param_ : SolverParameter) (accumulate : bool)
    (loss_of : nat -> Dtype) (resume : option Z) : Result LoopState :=
  let start_iter := match resume with Some i => i | None => 0 end in
  if Z.ltb (average_loss param_) 1 then
    Fatal "Check failed: average_loss >= 1 average_cost should be non-negative."
  else
    do st <- Solve_loop param_ accumulate loss_of start_iter
               (Z.to_nat (max_iter param_ - start_iter)) (loop_entry start_iter);
    Ok {| loop_iter := loop_iter st; losses := losses st;
          smoothed_loss := smoothed_loss st; fb_calls := fb_calls st;
          trace := trace st ++ Solve_exit param_ (loop_iter st) |}.

(** ** Solver::Test: one evaluation pass

    The class [Net] is declared outside [solver.cpp].  Here the parameter
    arrays live in a memory shared by the nets, and a net holds the
    addresses of its parameter arrays. *)

Inductive Phase : Type := TRAIN | TEST.

(** Modelled from the spec: what Test reads of a [Net]: its parameter
    arrays, its blob names and loss weights, the indices of its output
    blobs. *)
Record EvalNet : Type := {
  weights : list nat;
  blob_names : list string;
  blob_loss_weights : list Dtype;
  output_blob_indices : list nat
}.

(** The global phase, the memory of the parameter arrays, the training
    net and the evaluation nets of the solver. *)
Record World : Type := {
  phase : Phase;
  memory : list (list Dtype);
  train_net : EvalNet;
  test_nets_ : list EvalNet
}.

(** The weights of a net, read from the memory. *)
Definition read_weights (w : World) (net : EvalNet) : list (option (list Dtype)) :=
  map (fun a => memory w !! a) (weights net).

(** Modelled from the spec: [Net::ShareTrainedLayersWith], after which the
    evaluation net shares the training net's current parameter values (the
    weights, not the gradients). *)
Definition ShareTrainedLayersWith (test_net other : EvalNet) : EvalNet :=
  {| weights := weights other;
     blob_names := blob_names test_net;
     blob_loss_weights := blob_loss_weights test_net;
     output_blob_indices := output_blob_indices test_net |}.

(** Modelled from the spec: [Net::Forward] on an evaluation net, a pure
    forward pass: from the phase, the weights and the number of the pass,
    the output blobs and the loss. *)
Definition ForwardFn : Type :=
  Phase -> list (option (list Dtype)) -> nat -> list (list Dtype) * Dtype.

(** Lines 306-312: [test_score_output_id] gets [j] once per element of
    output blob [j]. *)
Fixpoint output_ids (j : nat) (result : list (list Dtype)) : list nat :=
  match result with
  | [] => []
  | result_vec :: rest => replicate (length result_vec) j ++ output_ids (S j) rest
  end.

(** Lines 314-320: [test_score[idx++] += result_vec[k]]. *)
Definition add_scores (test_score flat : list Dtype) : list Dtype :=
  zip_with Rplus test_score flat ++ drop (length flat) test_score.

Record Scores : Type := {
  loss_sum : Dtype;
  test_score : list Dtype;
  test_score_output_id : list nat
}.

(** Lines 298-322. *)
Fixpoint Test_loop (iteration : list (list Dtype) * Dtype -> Scores -> nat -> Scores)
    (forward : nat -> list (list Dtype) * Dtype) (n i : nat) (acc : Scores)
    : Scores :=
  match n with
  | O => acc
  | S n' => Test_loop iteration forward n' (S i) (iteration (forward i) acc i)
  end.

Definition Test_iteration (compute_loss : bool)
    (out : list (list Dtype) * Dtype) (acc : Scores) (i : nat) : Scores :=
  let '(result, iter_loss) := out in
  let loss := if compute_loss then (loss_sum acc + iter_loss)%R else loss_sum acc in
  match i with
  | O => {| loss_sum := loss;
            test_score := test_score acc ++ concat result;
            test_score_output_id := test_score_output_id acc ++ output_ids 0 result |}
  | S _ => {| loss_sum := loss;
              test_score := add_scores (test_score acc) (concat result);
              test_score_output_id := test_score_output_id acc |}
  end.

(** One "Test net output" line: what is read for the name and for the
    loss weight ([None]: a read past the end of a vector), and the mean
    score. *)
Record ReportLine : Type := {
  line_index : nat;
  output_name : option string;
  loss_weight : option Dtype;
  line_value : Dtype
}.

(** Lines 328-331. *)
Definition Test_output_name (test_net : EvalNet) (ids : list nat) (i : nat)
    : option string :=
  j ← ids !! i; b ← output_blob_indices test_net !! j; blob_names test_net !! b.

Definition Test_loss_weight (test_net : EvalNet) (i : nat) : option Dtype :=
  b ← output_blob_indices test_net !! i; blob_loss_weights test_net !! b.

Definition Test_lines (test_net : EvalNet) (test_iter_n : Z) (sc : Scores)
    : list ReportLine :=
  imap (fun i score =>
          {| line_index := i;
             output_name := Test_output_name test_net (test_score_output_id sc) i;
             loss_weight := Test_loss_weight test_net i;
             line_value := (score / Dtype_of_int test_iter_n)%R |})
       (test_score sc).

Record TestReport : Type := {
  test_loss : option Dtype;
  test_lines : list ReportLine
}.

Definition set_phase (p : Phase) (w : World) : World :=
  {| phase := p; memory := memory w; train_net := train_net w;
     test_nets_ := test_nets_ w |}.

Definition set_test_net (test_net_id : nat) (n : EvalNet) (w : World) : World :=
  {| phase := phase w; memory := memory w; train_net := train_net w;
     test_nets_ := <[test_net_id := n]> (test_nets_ w) |}.

Definition Test (param_ : SolverParameter) (Forward : ForwardFn)
    (test_net_id : nat) (w : World) : Result (World * TestReport) :=
  let w := set_phase TEST w in
  do tn <- at_ (test_nets_ w) test_net_id;
  let test_net := ShareTrainedLayersWith tn (train_net w) in
  let w := set_test_net test_net_id test_net w in
  do test_iter_n <- at_ (test_iter param_) test_net_id;
  let sc :=
    Test_loop (Test_iteration (test_compute_loss param_))
      (Forward (phase w) (read_weights w test_net))
      (Z.to_nat test_iter_n) 0%nat
      {| loss_sum := 0%R; test_score := []; test_score_output_id := [] |} in
  let report :=
    {| test_loss :=
         if test_compute_loss param_
         then Some (loss_sum sc / Dtype_of_int test_iter_n)%R else None;
       test_lines := Test_lines test_net test_iter_n sc |} in
  Ok (set_phase TRAIN w, report).

(** Solver::TestAll (lines 278-282). *)
Fixpoint TestAll_from (param_ : SolverParameter) (Forward : ForwardFn)
    (n test_net_id : nat) (w : World) : Result (World * list TestReport) :=
  match n with
  | O => Ok (w, [])
  | S n' =>
      do r <- Test param_ Forward test_net_id w;
      do rs <- TestAll_from param_ Forward n' (S test_net_id) (fst r);
      Ok (fst rs, snd r :: snd rs)
  end.

Definition TestAll (param_ : SolverParameter) (Forward : ForwardFn) (w : World)
    : Result (World * list TestReport) :=
  TestAll_from param_ Forward (length (test_nets_ w)) 0%nat w.

(** ** The "Train net output" lines of Solve (lines 232-250): name and
    loss weight are both read at [output_blob_indices[j]], [j] the output
    blob the score belongs to. *)

Definition Solve_loss_weight (net : EvalNet) (j : nat) : option Dtype :=
  b ← output_blob_indices net !! j; blob_loss_weights net !! b.

Definition Solve_output_name (net : EvalNet) (j : nat) : option string :=
  b ← output_blob_indices net !! j; blob_names net !! b.

Fixpoint Solve_lines (net : EvalNet) (j score_index : nat)
    (result : list (list Dtype)) : list ReportLine :=
  match result with
  | [] => []
  | result_vec :: rest =>
      imap (fun k v =>
              {| line_index := score_index + k;
                 output_name := Solve_output_name net j;
                 loss_weight := Solve_loss_weight net j;
                 line_value := v |}) result_vec
      ++ Solve_lines net (S j) (score_index + length result_vec) rest
  end.

(** ** Snapshot and Restore

    The protocol messages, the file helpers of [caffe/util/io.hpp] and the
    serialisation of blobs and nets are declared outside [solver.cpp]. *)

(** Modelled from the spec: a serialised blob, its values and, when they
    were asked for, its gradients. *)
Record BlobProto : Type := {
  proto_data : list Dtype;
  proto_diff : list Dtype
}.

(** Modelled from the spec: the content of a model file, the serialised
    parameter set of the net. *)
Definition NetParameter : Type := list BlobProto.

(** Modelled from the spec: the content of a state file: the iteration,
    the history blobs in parameter order, and the name of the model file. *)
Record SolverState : Type := {
  state_iter : Z;
  has_learned_net : bool;
  learned_net : string;
  history : list BlobProto
}.

(** A file holds one of the two messages. *)
Inductive File : Type :=
| NetFile (net_param : NetParameter)
| StateFile (state : SolverState).

(** Modelled from the spec: [Blob::ToProto(proto, write_diff)], the values
    and, if asked for, the gradients. *)
Definition Blob_ToProto (b : Blob) (write_diff : bool) : BlobProto :=
  {| proto_data := cpu_data b;
     proto_diff := if write_diff then cpu_diff b else [] |}.

(** Modelled from the spec: [Blob::FromProto(proto)], which overwrites the
    values, and the gradients when the message has them. *)
Definition Blob_FromProto (b : Blob) (proto : BlobProto) : Blob :=
  {| cpu_data := proto_data proto;
     cpu_diff := match proto_diff proto with
                 | [] => cpu_diff b
                 | _ :: _ => proto_diff proto
                 end |}.

(** Modelled from the spec: [Net::ToProto(&net_param, write_diff)], the
    full parameter set of the net. *)
Definition Net_ToProto (net : Net) (write_diff : bool) : NetParameter :=
  map (fun b => Blob_ToProto b write_diff) (params net).

(** Modelled from the spec: [Net::CopyTrainedLayersFrom(net_param)], which
    overwrites the parameter weights that the message has and leaves the
    others, the multipliers and the solver's buffers. *)
Definition Net_CopyTrainedLayersFrom (net : Net) (net_param : NetParameter) : Net :=
  {| params := zip_with Blob_FromProto (params net) net_param
               ++ drop (length net_param) (params net);
     params_lr := params_lr net;
     params_weight_decay := params_weight_decay net |}.

(** Modelled from the spec: [WriteProtoToBinaryFile], the file has the
    message afterwards. *)
Definition WriteProtoToBinaryFile (f : File) (filename : string)
    (fs : gmap string File) : gmap string File :=
  <[filename := f]> fs.

(** Modelled from the spec: [ReadProtoFromBinaryFile] into a SolverState
    and into a NetParameter; a file that is not there, or that holds the
    other message, is a fatal error. *)
Definition ReadSolverState (fs : gmap string File) (filename : string)
    : Result SolverState :=
  match fs !! filename with
  | Some (StateFile state) => Ok state
  | Some (NetFile _) => Fatal ("Failed to parse: " ++ filename)
  | None => Fatal ("File not found: " ++ filename)
  end.

(** Modelled from the spec: [ReadProtoFromBinaryFile] into a NetParameter. *)
Definition ReadNetParameter (fs : gmap string File) (filename : string)
    : Result NetParameter :=
  match fs !! filename with
  | Some (NetFile net_param) => Ok net_param
  | Some (StateFile _) => Fatal ("Failed to parse: " ++ filename)
  | None => Fatal ("File not found: " ++ filename)
  end.

(** ["%d"] of an [int]. *)
Definition format_int (n : Z) : string :=
  NilZero.string_of_int (Z.to_int n).

(** SGDSolver::SnapshotSolverState (lines 529-537); the other solvers
    inherit it. *)
Definition SnapshotSolverState (s : SGDSolver) : list BlobProto :=
  map (fun h => Blob_ToProto h false) (history_ s).

(** The name of the model file (lines 350-355). *)
Definition model_filename (s : SGDSolver) : string :=
  (snapshot_prefix (param_ s) ++ "_iter_" ++ format_int (iter_ s)
   ++ ".caffemodel")%string.

(** Solver::Snapshot (lines 345-365). *)
Definition Snapshot (s : SGDSolver) (fs : gmap string File) : gmap string File :=
  let net_param := Net_ToProto (net_ s) (snapshot_diff (param_ s)) in
  let filename := model_filename s in
  let fs := WriteProtoToBinaryFile (NetFile net_param) filename fs in
  let state :=
    {| state_iter := iter_ s; has_learned_net := true; learned_net := filename;
       history := SnapshotSolverState s |} in
  let filename := (filename ++ ".solverstate")%string in
  WriteProtoToBinaryFile (StateFile state) filename fs.

(** SGDSolver::RestoreSolverState (lines 539-547); the other solvers
    inherit it. *)
Definition RestoreSolverState (state : SolverState) (s : SGDSolver)
    : Result SGDSolver :=
  if Nat.eqb (length (history state)) (length (history_ s)) then
    Ok (set_history s (zip_with Blob_FromProto (history_ s) (history state)))
  else Fatal "Check failed: state.history_size() == history_.size() Incorrect length of history blobs.".

Definition set_net (s : SGDSolver) (net : Net) : SGDSolver :=
  {| param_ := param_ s; iter_ := iter_ s; net_ := net;
     history_ := history_ s; update_ := update_ s; temp_ := temp_ s |}.

Definition set_iter (s : SGDSolver) (i : Z) : SGDSolver :=
  {| param_ := param_ s; iter_ := i; net_ := net_ s;
     history_ := history_ s; update_ := update_ s; temp_ := temp_ s |}.

(** Solver::Restore (lines 367-378). *)
Definition Restore (s : SGDSolver) (fs : gmap string File) (state_file : string)
    : Result SGDSolver :=
  do state <- ReadSolverState fs state_file;
  do s <- (if has_learned_net state then
             do net_param <- ReadNetParameter fs (learned_net state);
             Ok (set_net s (Net_CopyTrainedLayersFrom (net_ s) net_param))
           else Ok s);
  let s := set_iter s (state_iter state) in
  RestoreSolverState state s.

(** The head of Solve (lines 169-177): PreSolve, [iter_ = 0], and Restore
    when a resume file is given. *)
Definition Solve_resume (ty : SolverType) (s : SGDSolver)
    (fs : gmap string File) (resume_file : option string) : Result SGDSolver :=
  let s := PreSolve ty s in
  let s := set_iter s 0 in
  match resume_file with
  | Some f => Restore s fs f
  | None => Ok s
  end.

(** ** The spec's words for the effective rate and decay, to compare the
    preambles with. *)
Definition spec_effective_rate (schedule lr_mult : Dtype) (k : Z) : Dtype :=
  (schedule * lr_mult / Dtype_of_int k)%R.

Definition spec_effective_decay (decay decay_mult : Dtype) (k : Z) : Dtype :=
  (decay * decay_mult * Dtype_of_int k)%R.

(** The arithmetic mean and the last [n] elements of a list. *)
Definition Rsum (l : list Dtype) : Dtype := foldr Rplus 0%R l.

Definition mean (l : list Dtype) : Dtype := (Rsum l / INR (length l))%R.

Definition last_n {A : Type} (n : nat) (l : list A) : list A :=
  drop (length l - n) l.

(** The losses of [n] consecutive passes of the loop, the first of which
    starts when [calls] calls of ForwardBackward have been made. *)
Fixpoint pass_losses (param_ : SolverParameter) (accumulate : bool)
    (loss_of : nat -> Dtype) (calls n : nat) : list Dtype :=
  match n with
  | O => []
  | S n' =>
      let '(loss, calls', _) := train_step param_ accumulate loss_of calls in
      loss :: pass_losses param_ accumulate loss_of calls' n'
  end.

(** The calls of [n] accumulate-only passes from call number [calls], and
    the sum of the losses of [n] calls. *)
Definition accumulate_events (calls n : nat) : list Event :=
  flat_map (fun c => [EvForwardBackward c; EvAccumulateDiff]) (seq calls n).

Definition loss_sum_of (loss_of : nat -> Dtype) (calls n : nat) : Dtype :=
  Rsum (map loss_of (seq calls n)).

(** The iterations at which a run took a snapshot, in order. *)
Fixpoint snapshots (evs : list Event) : list Z :=
  match evs with
  | [] => []
  | EvSnapshot i :: evs' => i :: snapshots evs'
  | _ :: evs' => snapshots evs'
  end.

(** The iterations of the passes of a run from [start_iter] at which the
    loop takes a snapshot. *)
Definition snapshot_iterations (param_ : SolverParameter) (start_iter : Z)
    : list Z :=
  filter (fun i => start_iter < i /\ i mod snapshot param_ = 0)
         (seqZ start_iter (max_iter param_ - start_iter)).

(** Evaluation passes over the nets [ids], one after the other. *)
Fixpoint Test_passes (param_ : SolverParameter) (Forward : ForwardFn)
    (ids : list nat) (w : World) : Result World :=
  match ids with
  | [] => Ok w
  | test_net_id :: rest =>
      do r <- Test param_ Forward test_net_id w;
      Test_passes param_ Forward rest (fst r)
  end.

(** Element [j] of an array of the solver. *)
Definition cell (s : SGDSolver) (b : Buf) (j : nat) : option Dtype :=
  match read s b with
  | Ok v => v !! j
  | Fatal _ => None
  end.

#[local] Instance Buf_eq_dec : EqDecision Buf.
Proof. solve_decision. Defined.

(** The parameter an array belongs to, in a solver of [n] parameters
    whose history has the update accumulators at offset [n]. *)
Definition owner (n : nat) (b : Buf) : nat :=
  match b with
  | ParamData i | ParamDiff i | UpdateData i | TempData i => i
  | HistoryData x => if (x <? n)%nat then x else (x - n)%nat
  end.

(** The gradient element after the weight-decay block, from the weight
    [w] and the gradient [d]. *)
Definition decayed_gradient (regularization_type : string)
    (local_decay w d : Dtype) : Dtype :=
  if Dtype_nonzero local_decay then
    if String.eqb regularization_type "L2" then (local_decay * w + d)%R
    else (local_decay * Dtype_sign w + d)%R
  else d.

(** The arrays of parameter [i] are there and have the size of the
    parameter; [n] is the number of parameters. *)
Record param_arrays (n : nat) (s : SGDSolver) (i : nat)
    (w d h1 h2 u t : list Dtype) (lr wd : Dtype) : Prop := {
  arr_data : read s (ParamData i) = Ok w;
  arr_diff : read s (ParamDiff i) = Ok d;
  arr_grad : read s (HistoryData i) = Ok h1;
  arr_upd : read s (HistoryData (n + i)) = Ok h2;
  arr_update : read s (UpdateData i) = Ok u;
  arr_temp : read s (TempData i) = Ok t;
  arr_lr : params_lr (net_ s) !! i = Some lr;
  arr_wd : params_weight_decay (net_ s) !! i = Some wd;
  arr_len_d : length d = length w;
  arr_len_h1 : length h1 = length w;
  arr_len_h2 : length h2 = length w;
  arr_len_u : length u = length w;
  arr_len_t : length t = length w
}.

Definition shaped (n : nat) (s : SGDSolver) : Prop :=
  length (params (net_ s)) = n /\
  forall i : nat, (i < n)%nat ->
    exists (w d h1 h2 u t : list Dtype) (lr wd : Dtype),
      param_arrays n s i w d h1 h2 u t lr wd.

(** An array of [N] elements whose element [j] is [f j], and an array of
    the solver that holds such a list. *)
Definition vec (N : nat) (v : list Dtype) (f : nat -> Dtype) : Prop :=
  length v = N /\ forall j : nat, (j < N)%nat -> v !! j = Some (f j).

Definition models (N : nat) (s : SGDSolver) (b : Buf) (f : nat -> Dtype)
    : Prop :=
  exists v : list Dtype, read s b = Ok v /\ vec N v f.

(** [s] differs from [s0] only in arrays of parameter [i]. *)
Definition framed (n i : nat) (s0 s : SGDSolver) : Prop :=
  params_lr (net_ s) = params_lr (net_ s0) /\
  params_weight_decay (net_ s) = params_weight_decay (net_ s0) /\
  length (params (net_ s)) = length (params (net_ s0)) /\
  forall b : Buf, owner n b <> i -> read s b = read s0 b.

(** The AdaDelta transform of one element in the spec's words: from the
    gradient [g] after decay and the two accumulators. *)
Definition spec_grad_h (momentum g grad_h : Dtype) : Dtype :=
  ((1 - momentum) * (g * g) + momentum * grad_h)%R.

Definition spec_delta_upd (delta g update_h grad_h' : Dtype) : Dtype :=
  (sqrt ((update_h + delta) / (grad_h' + delta)) * g)%R.

Definition spec_update_h (momentum delta_upd update_h : Dtype) : Dtype :=
  ((1 - momentum) * (delta_upd * delta_upd) + momentum * update_h)%R.

(** Element [j] of an array as a number (0 where there is none), and
    the number of elements of parameter [i]. *)
Definition arr (s : SGDSolver) (b : Buf) (j : nat) : Dtype :=
  match read s b with
  | Ok v => nth j v 0%R
  | Fatal _ => 0%R
  end.

Definition psize (s : SGDSolver) (i : nat) : nat :=
  match read s (ParamData i) with
  | Ok v => length v
  | Fatal _ => 0%nat
  end.

(** What AdaDelta leaves in the arrays of parameter [i], from the arrays
    of [s0]. *)
Definition AdaDelta_post (n : nat) (rate delta momentum weight_decay : Dtype)
    (reg : string) (s0 s : SGDSolver) (i : nat) : Prop :=
  forall lr wd : Dtype,
    params_lr (net_ s0) !! i = Some lr ->
    params_weight_decay (net_ s0) !! i = Some wd ->
    let g := fun j => decayed_gradient reg (weight_decay * wd)
                        (arr s0 (ParamData i) j) (arr s0 (ParamDiff i) j) in
    let grad_h' := fun j => spec_grad_h momentum (g j) (arr s0 (HistoryData i) j) in
    let delta_upd := fun j =>
      spec_delta_upd delta (g j) (arr s0 (HistoryData (n + i)) j) (grad_h' j) in
    models (psize s0 i) s (ParamData i) (arr s0 (ParamData i)) /\
    models (psize s0 i) s (HistoryData i) grad_h' /\
    models (psize s0 i) s (HistoryData (n + i))
      (fun j => spec_update_h momentum (delta_upd j)
                  (arr s0 (HistoryData (n + i)) j)) /\
    models (psize s0 i) s (ParamDiff i) (fun j => rate * lr * delta_upd j)%R.

(** The window after [ls]: the buffer has the last [W] losses, the one of
    pass [i] at index [i mod W], and the smoothed loss is their mean. *)
Record window (W : nat) (ls buf : list Dtype) (sm : Dtype) : Prop := {
  window_length : length buf = Nat.min (length ls) W;
  window_slot : forall (i : nat) (x : Dtype),
    ls !! i = Some x -> (length ls <= i + W)%nat ->
    buf !! (i mod W)%nat = Some x;
  window_mean : sm = mean (last_n W ls)
}.

(** The loop after some passes: [ls] are the losses of the passes made. *)
Record loop_inv (W : nat) (start_iter : Z) (ls : list Dtype) (st : LoopState)
    : Prop := {
  inv_iter : loop_iter st = start_iter + Z.of_nat (length ls);
  inv_window : window W ls (losses st) (smoothed_loss st)
}.

(** ** Concrete configurations used by the examples below *)

Definition step_param : SolverParameter :=
  {| lr_policy := "step"; base_lr := (1 / 10)%R; gamma := (1 / 2)%R;
     power := 1%R; stepsize := 2; momentum := (9 / 10)%R; weight_decay := 0%R;
     regularization_type := "L2"; delta := 0%R; rms_decay := 0%R;
     max_iter := 6; snapshot := 2; snapshot_prefix := "lenet";
     snapshot_diff := false; snapshot_after_train := true;
     test_interval := 0; test_initialization := false;
     test_compute_loss := false; test_iter := []; display := 0;
     debug_info := false; average_loss := 2;
     has_update_interval := true; update_interval := 1;
     solver_mode := CPU |}.

(** [step_param] with another learning-rate policy, and with another
    loss-averaging window. *)
Definition with_lr_policy (name : string) (p : SolverParameter)
    : SolverParameter :=
  {| lr_policy := name; base_lr := base_lr p; gamma := gamma p;
     power := power p; stepsize := stepsize p; momentum := momentum p;
     weight_decay := weight_decay p;
     regularization_type := regularization_type p; delta := delta p;
     rms_decay := rms_decay p; max_iter := max_iter p; snapshot := snapshot p;
     snapshot_prefix := snapshot_prefix p; snapshot_diff := snapshot_diff p;
     snapshot_after_train := snapshot_after_train p;
     test_interval := test_interval p;
     test_initialization := test_initialization p;
     test_compute_loss := test_compute_loss p; test_iter := test_iter p;
     display := display p; debug_info := debug_info p;
     average_loss := average_loss p;
     has_update_interval := has_update_interval p;
     update_interval := update_interval p;
     solver_mode := solver_mode p |}.

Definition with_average_loss (W : Z) (p : SolverParameter) : SolverParameter :=
  {| lr_policy := lr_policy p; base_lr := base_lr p; gamma := gamma p;
     power := power p; stepsize := stepsize p; momentum := momentum p;
     weight_decay := weight_decay p;
     regularization_type := regularization_type p; delta := delta p;
     rms_decay := rms_decay p; max_iter := max_iter p; snapshot := snapshot p;
     snapshot_prefix := snapshot_prefix p; snapshot_diff := snapshot_diff p;
     snapshot_after_train := snapshot_after_train p;
     test_interval := test_interval p;
     test_initialization := test_initialization p;
     test_compute_loss := test_compute_loss p; test_iter := test_iter p;
     display := display p; debug_info := debug_info p;
     average_loss := W;
     has_update_interval := has_update_interval p;
     update_interval := update_interval p;
     solver_mode := solver_mode p |}.

(** [step_param] with another accumulation count. *)
Definition with_update_interval (has : bool) (k : Z) (p : SolverParameter)
    : SolverParameter :=
  {| lr_policy := lr_policy p; base_lr := base_lr p; gamma := gamma p;
     power := power p; stepsize := stepsize p; momentum := momentum p;
     weight_decay := weight_decay p;
     regularization_type := regularization_type p; delta := delta p;
     rms_decay := rms_decay p; max_iter := max_iter p; snapshot := snapshot p;
     snapshot_prefix := snapshot_prefix p; snapshot_diff := snapshot_diff p;
     snapshot_after_train := snapshot_after_train p;
     test_interval := test_interval p;
     test_initialization := test_initialization p;
     test_compute_loss := test_compute_loss p; test_iter := test_iter p;
     display := display p; debug_info := debug_info p;
     average_loss := average_loss p;
     has_update_interval := has; update_interval := k;
     solver_mode := solver_mode p |}.

(** A net with one output blob, and an output of two elements. *)
Definition prob_net : EvalNet :=
  {| weights := [0%nat]; blob_names := ["prob"];
     blob_loss_weights := [1%R]; output_blob_indices := [0%nat] |}.

Definition prob_result : list (list Dtype) := [[(3 / 10)%R; (7 / 10)%R]].

Definition no_scores : Scores :=
  {| loss_sum := 0%R; test_score := []; test_score_output_id := [] |}.

(** A world with one evaluation net that has weights of its own, and a
    configuration that evaluates it for two iterations. *)
Definition eval_world : World :=
  {| phase := TRAIN;
     memory := [[(1 / 2)%R; 2%R]; [0%R; 0%R]];
     train_net := prob_net;
     test_nets_ := [ {| weights := [1%nat]; blob_names := ["prob"];
                        blob_loss_weights := [1%R];
                        output_blob_indices := [0%nat] |} ] |}.

Definition eval_param : SolverParameter :=
  {| lr_policy := "fixed"; base_lr := 1%R; gamma := 1%R;
     power := 1%R; stepsize := 1; momentum := 0%R; weight_decay := 0%R;
     regularization_type := "L2"; delta := 0%R; rms_decay := 0%R;
     max_iter := 4; snapshot := 0; snapshot_prefix := "lenet";
     snapshot_diff := false; snapshot_after_train := true;
     test_interval := 2; test_initialization := true;
     test_compute_loss := true; test_iter := [2]; display := 0;
     debug_info := false; average_loss := 1;
     has_update_interval := false; update_interval := 1;
     solver_mode := CPU |}.

(** A forward pass that returns the first weight array as its output. *)
Definition echo_forward : ForwardFn :=
  fun _ ws _ =>
    match ws with
    | Some v :: _ => ([v], 0%R)
    | _ => ([], 0%R)
    end.

(** A net of one two-element parameter, trained for a while with
    AdaDelta, and a freshly built solver of the same configuration. *)
Definition one_param_net (w0 w1 : Dtype) : Net :=
  {| params := [ {| cpu_data := [w0; w1]; cpu_diff := [1%R; 2%R] |} ];
     params_lr := [1%R]; params_weight_decay := [1%R] |}.

Definition trained_solver : SGDSolver :=
  {| param_ := step_param; iter_ := 6;
     net_ := one_param_net (1 / 4)%R (3 / 4)%R;
     history_ := [ {| cpu_data := [1%R; 2%R]; cpu_diff := [0%R; 0%R] |};
                   {| cpu_data := [3%R; 4%R]; cpu_diff := [0%R; 0%R] |} ];
     update_ := [new_Blob 2]; temp_ := [new_Blob 2] |}.

Definition fresh_solver : SGDSolver :=
  {| param_ := step_param; iter_ := 0;
     net_ := one_param_net 0%R 0%R;
     history_ := []; update_ := []; temp_ := [] |}.

(** An AdaGrad solver with an accumulation count of 2: one parameter of
    one element, weight 1, gradient 0, decay 1, rate 1. *)
Definition adagrad_param : SolverParameter :=
  {| lr_policy := "fixed"; base_lr := 1%R; gamma := 1%R;
     power := 1%R; stepsize := 1; momentum := 0%R; weight_decay := 1%R;
     regularization_type := "L2"; delta := 0%R; rms_decay := 0%R;
     max_iter := 4; snapshot := 0; snapshot_prefix := "lenet";
     snapshot_diff := false; snapshot_after_train := true;
     test_interval := 0; test_initialization := false;
     test_compute_loss := false; test_iter := []; display := 0;
     debug_info := false; average_loss := 1;
     has_update_interval := true; update_interval := 2;
     solver_mode := CPU |}.

Definition adagrad_solver : SGDSolver :=
  {| param_ := adagrad_param; iter_ := 0;
     net_ := {| params := [ {| cpu_data := [1%R]; cpu_diff := [0%R] |} ];
                params_lr := [1%R]; params_weight_decay := [1%R] |};
     history_ := [new_Blob 1]; update_ := [new_Blob 1]; temp_ := [new_Blob 1] |}.

(** * Further definitions: the rest of [solver.cpp] *)

(** The arrays of parameter [i] that SGD, Nesterov, AdaGrad and RMSprop
    use: one history blob per parameter. *)
Record rule_arrays (s : SGDSolver) (i : nat)
    (w d h u t : list Dtype) (lr wd : Dtype) : Prop := {
  ra_data : read s (ParamData i) = Ok w;
  ra_diff : read s (ParamDiff i) = Ok d;
  ra_history : read s (HistoryData i) = Ok h;
  ra_update : read s (UpdateData i) = Ok u;
  ra_temp : read s (TempData i) = Ok t;
  ra_lr : params_lr (net_ s) !! i = Some lr;
  ra_wd : params_weight_decay (net_ s) !! i = Some wd;
  ra_len_d : length d = length w;
  ra_len_h : length h = length w;
  ra_len_u : length u = length w;
  ra_len_t : length t = length w
}.

Definition rule_shaped (n : nat) (s : SGDSolver) : Prop :=
  length (params (net_ s)) = n /\
  forall i : nat, (i < n)%nat ->
    exists (w d h u t : list Dtype) (lr wd : Dtype),
      rule_arrays s i w d h u t lr wd.

(** What a rule leaves in the arrays of parameter [i]: the weights of
    [s0], the history [H lr wd] and the update [D lr wd]. *)
Definition rule_post (s0 s : SGDSolver) (i : nat)
    (H D : Dtype -> Dtype -> nat -> Dtype) : Prop :=
  forall lr wd : Dtype,
    params_lr (net_ s0) !! i = Some lr ->
    params_weight_decay (net_ s0) !! i = Some wd ->
    models (psize s0 i) s (ParamData i) (arr s0 (ParamData i)) /\
    models (psize s0 i) s (HistoryData i) (H lr wd) /\
    models (psize s0 i) s (ParamDiff i) (D lr wd).

(** An array other than the weights of a parameter. *)
Definition not_weights (b : Buf) : Prop :=
  match b with
  | ParamData _ => False
  | _ => True
  end.

(** [s'] has the configuration, the iteration, the weights, the
    multipliers and the numbers of blobs of [s]. *)
Record keeps (s s' : SGDSolver) : Prop := {
  keeps_param : param_ s' = param_ s;
  keeps_iter : iter_ s' = iter_ s;
  keeps_weights :
    map cpu_data (params (net_ s')) = map cpu_data (params (net_ s));
  keeps_lr : params_lr (net_ s') = params_lr (net_ s);
  keeps_wd : params_weight_decay (net_ s') = params_weight_decay (net_ s);
  keeps_history : length (history_ s') = length (history_ s);
  keeps_update : length (update_ s') = length (update_ s);
  keeps_temp : length (temp_ s') = length (temp_ s)
}.

(** ** The solver under another configuration *)

Definition with_regularization_type (name : string) (p : SolverParameter)
    : SolverParameter :=
  {| lr_policy := lr_policy p; base_lr := base_lr p; gamma := gamma p;
     power := power p; stepsize := stepsize p; momentum := momentum p;
     weight_decay := weight_decay p;
     regularization_type := name; delta := delta p;
     rms_decay := rms_decay p; max_iter := max_iter p; snapshot := snapshot p;
     snapshot_prefix := snapshot_prefix p; snapshot_diff := snapshot_diff p;
     snapshot_after_train := snapshot_after_train p;
     test_interval := test_interval p;
     test_initialization := test_initialization p;
     test_compute_loss := test_compute_loss p; test_iter := test_iter p;
     display := display p; debug_info := debug_info p;
     average_loss := average_loss p;
     has_update_interval := has_update_interval p;
     update_interval := update_interval p;
     solver_mode := solver_mode p |}.

Definition set_param (s : SGDSolver) (p : SolverParameter) : SGDSolver :=
  {| param_ := p; iter_ := iter_ s; net_ := net_ s;
     history_ := history_ s; update_ := update_ s; temp_ := temp_ s |}.

(** The local decay of parameter [i] as the rule of type [ty] computes
    it. *)
Definition local_decay_of (ty : SolverType) (p : SolverParameter) (wd : Dtype)
    : Dtype :=
  match ty with
  | SGD | Nesterov => (SGD_weight_decay p * wd)%R
  | _ => (AdaGrad_weight_decay p * wd)%R
  end.

Definition Result_map {A B : Type} (f : A -> B) (r : Result A) : Result B :=
  match r with
  | Ok a => Ok (f a)
  | Fatal msg => Fatal msg
  end.

(** [adagrad_solver] under a regularization type the rules do not know. *)
Definition l3_solver : SGDSolver :=
  set_param adagrad_solver (with_regularization_type "L3" adagrad_param).

(** ** The schedule of a run of Solve *)

(** The iterations at which a run called TestAll, and those at which it
    called ComputeUpdateValue, in order. *)
Definition is_TestAll (e : Event) : option Z :=
  match e with EvTestAll i => Some i | _ => None end.

Definition is_ComputeUpdateValue (e : Event) : option Z :=
  match e with EvComputeUpdateValue i => Some i | _ => None end.

Definition tests (evs : list Event) : list Z := omap is_TestAll evs.

Definition updates (evs : list Event) : list Z := omap is_ComputeUpdateValue evs.

(** The iterations of the passes of a run from [start_iter] at which the
    loop evaluates the test nets. *)
Definition test_iterations (param_ : SolverParameter) (start_iter : Z)
    : list Z :=
  filter (fun i => i mod test_interval param_ = 0 /\
                   (0 < i \/ test_initialization param_ = true))
         (seqZ start_iter (max_iter param_ - start_iter)).

(** The ForwardBackward calls of one pass. *)
Definition calls_per_pass (param_ : SolverParameter) (accumulate : bool) : nat :=
  if accumulate then S (Z.to_nat (update_interval param_ - 1)) else 1%nat.

(** * Solver::Init: the train net and the test nets (lines 49-165)

    The fields of SolverParameter that only Init reads are in a record of
    their own, [SolverNets], beside the record of the fields the rest of
    the solver reads.  The message NetParameter is, here, the definition
    of a net: its name, its layers and its state; a net is written as the
    definition its constructor [Net<Dtype>(net_param)] is given. *)

Module Scaffolding.

(** Modelled from the spec: the NetState message of [caffe.proto], an
    optional phase, an optional level and a repeated stage. *)
Record NetState : Type := {
  state_phase : option Phase;
  state_level : option Z;
  stage : list string
}.

Definition default_NetState : NetState :=
  {| state_phase := None; state_level := None; stage := [] |}.

Definition NetState_set_phase (p : Phase) (s : NetState) : NetState :=
  {| state_phase := Some p; state_level := state_level s; stage := stage s |}.

(** Modelled from the spec: [MergeFrom] of a protocol message: a singular
    field that is set in [from] replaces the field, a repeated field of
    [from] is appended. *)
Definition NetState_MergeFrom (to from : NetState) : NetState :=
  {| state_phase := match state_phase from with
                    | Some p => Some p
                    | None => state_phase to
                    end;
     state_level := match state_level from with
                    | Some l => Some l
                    | None => state_level to
                    end;
     stage := stage to ++ stage from |}.

(** Modelled from the spec: the NetParameter message of [caffe.proto] as
    a net definition, the fields that Init reads or hands to the net's
    constructor: the name, the layers and the state. *)
Record NetParameter : Type := {
  name : string;
  layer : list string;
  state : NetState
}.

Definition default_NetParameter : NetParameter :=
  {| name := ""; layer := []; state := default_NetState |}.

(** [net_param.mutable_state()->CopyFrom(net_state)]. *)
Definition mutable_state_CopyFrom (net_param : NetParameter)
    (net_state : NetState) : NetParameter :=
  {| name := name net_param; layer := layer net_param; state := net_state |}.

(** An optional field is [None] when its [has_...] is false. *)
Record SolverNets : Type := {
  net : option string;
  net_param : option NetParameter;
  train_net : option string;
  train_net_param : option NetParameter;
  test_net : list string;
  test_net_param : list NetParameter;
  train_state : NetState;
  test_state : list NetState
}.

Definition has {A : Type} (field : option A) : bool :=
  match field with Some _ => true | None => false end.

(** Modelled from the spec: [ReadNetParamsFromTextFileOrDie], the message
    of the file; a file that cannot be read is a fatal error. *)
Definition ReadNetParamsFromTextFileOrDie (files : gmap string NetParameter)
    (param_file : string) : Result NetParameter :=
  match files !! param_file with
  | Some net_param => Ok net_param
  | None => Fatal ("Failed to parse NetParameter file: " ++ param_file)
  end.

(** Solver::InitTrainNet (lines 54-90). *)
Definition InitTrainNet (files : gmap string NetParameter) (param_ : SolverNets)
    : Result NetParameter :=
  let num_train_nets :=
    Z.b2z (has (net param_)) + Z.b2z (has (net_param param_)) +
    Z.b2z (has (train_net param_)) + Z.b2z (has (train_net_param param_)) in
  if Z.ltb num_train_nets 1 then
    Fatal "Check failed: num_train_nets >= 1 SolverParameter must specify a train net using one of these fields: net, net_param, train_net, train_net_param"
  else if Z.ltb 1 num_train_nets then
    Fatal "Check failed: num_train_nets <= 1 SolverParameter must not contain more than one of these fields specifying a train_net: net, net_param, train_net, train_net_param"
  else
    let net_param := default_NetParameter in
    do net_param <-
      match train_net_param param_ with
      | Some p => Ok p
      | None =>
          match train_net param_ with
          | Some f => ReadNetParamsFromTextFileOrDie files f
          | None => Ok net_param
          end
      end;
    do net_param <-
      match Scaffolding.net_param param_ with
      | Some p => Ok p
      | None => Ok net_param
      end;
    do net_param <-
      match net param_ with
      | Some f => ReadNetParamsFromTextFileOrDie files f
      | None => Ok net_param
      end;
    let net_state := NetState_set_phase TRAIN default_NetState in
    let net_state := NetState_MergeFrom net_state (state net_param) in
    let net_state := NetState_MergeFrom net_state (train_state param_) in
    Ok (mutable_state_CopyFrom net_param net_state).

(** The vectors [sources] and [net_params] of InitTestNets and the index
    [test_net_id] that its four loops advance. *)
Record TestNetTable : Type := {
  test_net_id : nat;
  sources : list string;
  net_params : list NetParameter
}.

(** [sources[test_net_id] = source; net_params[test_net_id] = net_param;
    ++test_net_id]; a write past the end of the vectors has no defined
    result in the source. *)
Definition store (t : TestNetTable) (e : string * NetParameter)
    : Result TestNetTable :=
  if (test_net_id t <? length (sources t))%nat
     && (test_net_id t <? length (net_params t))%nat
  then Ok {| test_net_id := S (test_net_id t);
             sources := <[test_net_id t := fst e]> (sources t);
             net_params := <[test_net_id t := snd e]> (net_params t) |}
  else Fatal "vector index out of range".

(** [for (int i = 0; i < n; ++i, ++test_net_id)] with the source and the
    definition that pass [i] stores. *)
Fixpoint fill (entry : nat -> Result (string * NetParameter)) (n i : nat)
    (t : TestNetTable) : Result TestNetTable :=
  match n with
  | O => Ok t
  | S n' =>
      do e <- entry i;
      do t <- store t e;
      fill entry n' (S i) t
  end.

(** The body of the last loop (lines 150-163). *)
Definition build_test_net (param_ : SolverNets) (t : TestNetTable) (i : nat)
    : Result NetParameter :=
  do net_param <- at_ (net_params t) i;
  let net_state := NetState_set_phase TEST default_NetState in
  let net_state := NetState_MergeFrom net_state (state net_param) in
  do net_state <-
    (if negb (Nat.eqb (length (test_state param_)) 0) then
       do test_state_i <- at_ (test_state param_) i;
       Ok (NetState_MergeFrom net_state test_state_i)
     else Ok net_state);
  Ok (mutable_state_CopyFrom net_param net_state).

Fixpoint build_test_nets (param_ : SolverNets) (t : TestNetTable) (n i : nat)
    : Result (list NetParameter) :=
  match n with
  | O => Ok []
  | S n' =>
      do test_net_i <- build_test_net param_ t i;
      do rest <- build_test_nets param_ t n' (S i);
      Ok (test_net_i :: rest)
  end.

(** Solver::InitTestNets (lines 92-165): the sources that are logged and
    the test nets. *)
Definition InitTestNets (files : gmap string NetParameter)
    (param_ : SolverParameter) (nets : SolverNets)
    : Result (list string * list NetParameter) :=
  let has_net_param := has (net_param nets) in
  let has_net_file := has (net nets) in
  let num_generic_nets := Z.b2z has_net_param + Z.b2z has_net_file in
  if Z.ltb 1 num_generic_nets then
    Fatal "Check failed: num_generic_nets <= 1 Both net_param and net_file may not be specified."
  else
  let num_test_net_params := Z.of_nat (length (test_net_param nets)) in
  let num_test_net_files := Z.of_nat (length (test_net nets)) in
  let num_test_nets := num_test_net_params + num_test_net_files in
  let test_iter_size := Z.of_nat (length (test_iter param_)) in
  if (if negb (Z.eqb num_generic_nets 0)
      then Z.ltb test_iter_size num_test_nets
      else negb (Z.eqb test_iter_size num_test_nets))
  then Fatal "test_iter must be specified for each test network."
  else
  let num_generic_net_instances := test_iter_size - num_test_nets in
  let num_test_net_instances := num_test_nets + num_generic_net_instances in
  let test_state_size := Z.of_nat (length (test_state nets)) in
  if negb (Z.eqb test_state_size 0)
     && negb (Z.eqb test_state_size num_test_net_instances)
  then Fatal "test_state must be unspecified or specified once per test net."
  else if negb (Z.eqb num_test_net_instances 0)
          && negb (Z.ltb 0 (test_interval param_))
  then Fatal "Check failed: param_.test_interval() > 0"
  else
    let t :=
      {| test_net_id := 0;
         sources := replicate (Z.to_nat num_test_net_instances) "";
         net_params :=
           replicate (Z.to_nat num_test_net_instances) default_NetParameter |} in
    do t <- fill (fun i => do p <- at_ (test_net_param nets) i;
                           Ok ("test_net_param", p))
              (length (test_net_param nets)) 0 t;
    do t <- fill (fun i => do f <- at_ (test_net nets) i;
                           do p <- ReadNetParamsFromTextFileOrDie files f;
                           Ok (("test_net file: " ++ f)%string, p))
              (length (test_net nets)) 0 t;
    let remaining_test_nets := test_iter_size - Z.of_nat (test_net_id t) in
    do t <- match net_param nets with
            | Some p =>
                fill (fun _ => Ok ("net_param", p))
                  (Z.to_nat remaining_test_nets) 0 t
            | None => Ok t
            end;
    do t <- match net nets with
            | Some f =>
                fill (fun _ => do p <- ReadNetParamsFromTextFileOrDie files f;
                               Ok (("net file: " ++ f)%string, p))
                  (Z.to_nat remaining_test_nets) 0 t
            | None => Ok t
            end;
    do test_nets_ <-
      build_test_nets nets t (Z.to_nat num_test_net_instances) 0;
    Ok (sources t, test_nets_).

(** The scaffolding of Solver::Init (lines 49-50): the train net and the
    test nets. *)
Definition Init (files : gmap string NetParameter) (param_ : SolverParameter)
    (nets : SolverNets) : Result (NetParameter * list NetParameter) :=
  do net_ <- InitTrainNet files nets;
  do tests <- InitTestNets files param_ nets;
  Ok (net_, snd tests).

(** The state of a net in the words of the comments of lines 80-83 and
    150-153: the solver's default phase has the lowest precedence, then the
    state of the net's definition, then the state the solver configuration
    gives for this net. *)
Definition merged_state (default : Phase) (own : NetState)
    (override : option NetState) : NetState :=
  let override :=
    match override with Some o => o | None => default_NetState end in
  {| state_phase :=
       Some (match state_phase override with
             | Some p => p
             | None => match state_phase own with
                       | Some p => p
                       | None => default
                       end
             end);
     state_level :=
       match state_level override with
       | Some l => Some l
       | None => state_level own
       end;
     stage := stage own ++ stage override |}.

(** The one field, of the four, that gives the train net, and the
    definition it gives. *)
Inductive train_source (files : gmap string NetParameter) (param_ : SolverNets)
    : NetParameter -> Prop :=
| source_net (f : string) (p : NetParameter) :
    net param_ = Some f -> net_param param_ = None ->
    train_net param_ = None -> train_net_param param_ = None ->
    files !! f = Some p -> train_source files param_ p
| source_net_param (p : NetParameter) :
    net param_ = None -> net_param param_ = Some p ->
    train_net param_ = None -> train_net_param param_ = None ->
    train_source files param_ p
| source_train_net (f : string) (p : NetParameter) :
    net param_ = None -> net_param param_ = None ->
    train_net param_ = Some f -> train_net_param param_ = None ->
    files !! f = Some p -> train_source files param_ p
| source_train_net_param (p : NetParameter) :
    net param_ = None -> net_param param_ = None ->
    train_net param_ = None -> train_net_param param_ = Some p ->
    train_source files param_ p.

(** The generic net of the test nets, if there is one: its logged source
    and its definition. *)
Inductive generic_source (files : gmap string NetParameter) (param_ : SolverNets)
    : option (string * NetParameter) -> Prop :=
| generic_none :
    net param_ = None -> net_param param_ = None ->
    generic_source files param_ None
| generic_net_param (p : NetParameter) :
    net param_ = None -> net_param param_ = Some p ->
    generic_source files param_ (Some ("net_param", p))
| generic_net (f : string) (p : NetParameter) :
    net param_ = Some f -> net_param param_ = None ->
    files !! f = Some p ->
    generic_source files param_ (Some (("net file: " ++ f)%string, p)).

(** The table holds the entries [done] and has room for [room] more. *)
Definition holds (t : TestNetTable) (done : list (string * NetParameter))
    (room : nat) : Prop :=
  test_net_id t = length done /\
  sources t = map fst done ++ replicate room ""%string /\
  net_params t = map snd done ++ replicate room default_NetParameter.

(** A net definition with a test phase of its own, a configuration of one
    generic net file and two evaluation runs, and its files. *)
Definition lenet : NetParameter :=
  {| name := "LeNet"; layer := ["data"; "ip"; "loss"];
     state := {| state_phase := None; state_level := Some 1;
                 stage := ["deploy"] |} |}.

Definition lenet_files : gmap string NetParameter :=
  {["lenet.prototxt" := lenet]}.

Definition lenet_nets : SolverNets :=
  {| net := Some "lenet.prototxt"; net_param := None;
     train_net := None; train_net_param := None;
     test_net := []; test_net_param := [];
     train_state := default_NetState; test_state := [] |}.

End Scaffolding.

(** A configuration that evaluates two test nets, every second
    iteration. *)
Definition two_tests_param : SolverParameter :=
  {| lr_policy := "fixed"; base_lr := 1%R; gamma := 1%R;
     power := 1%R; stepsize := 1; momentum := 0%R; weight_decay := 0%R;
     regularization_type := "L2"; delta := 0%R; rms_decay := 0%R;
     max_iter := 4; snapshot := 0; snapshot_prefix := "lenet";
     snapshot_diff := false; snapshot_after_train := true;
     test_interval := 2; test_initialization := true;
     test_compute_loss := true; test_iter := [2; 5]; display := 0;
     debug_info := false; average_loss := 1;
     has_update_interval := false; update_interval := 1;
     solver_mode := CPU |}.

(** ** File names of snapshots *)

(** No character of the string is a dot. *)
Fixpoint no_dot (s : string) : Prop :=
  match s with
  | EmptyString => True
  | String c s' => String c "" <> "."%string /\ no_dot s'
  end.

(** The name of the state file (line 362). *)
Definition state_filename (s : SGDSolver) : string :=
  (model_filename s ++ ".solverstate")%string.

(** The number of history blobs the rule of type [ty] allocates for a net
    of [n] parameters. *)
Definition history_count (ty : SolverType) (n : nat) : nat :=
  match ty with
  | AdaDelta => (2 * n)%nat
  | _ => n
  end.

(** The buffer of line 352 and the text that [sprintf_s] formats into it
    (line 353); the text needs one more character, the terminating zero. *)
Definition kBufferSize : nat := 20.

Definition iter_str_buffer (iter_ : Z) : string :=
  ("_iter_" ++ format_int iter_)%string.

(** [step_param] with another step size, and with another denominator
    constant [delta]. *)
Definition with_stepsize (n : Z) (p : SolverParameter) : SolverParameter :=
  {| lr_policy := lr_policy p; base_lr := base_lr p; gamma := gamma p;
     power := power p; stepsize := n; momentum := momentum p;
     weight_decay := weight_decay p;
     regularization_type := regularization_type p; delta := delta p;
     rms_decay := rms_decay p; max_iter := max_iter p; snapshot := snapshot p;
     snapshot_prefix := snapshot_prefix p; snapshot_diff := snapshot_diff p;
     snapshot_after_train := snapshot_after_train p;
     test_interval := test_interval p;
     test_initialization := test_initialization p;
     test_compute_loss := test_compute_loss p; test_iter := test_iter p;
     display := display p; debug_info := debug_info p;
     average_loss := average_loss p;
     has_update_interval := has_update_interval p;
     update_interval := update_interval p;
     solver_mode := solver_mode p |}.

Definition with_delta (d : Dtype) (p : SolverParameter) : SolverParameter :=
  {| lr_policy := lr_policy p; base_lr := base_lr p; gamma := gamma p;
     power := power p; stepsize := stepsize p; momentum := momentum p;
     weight_decay := weight_decay p;
     regularization_type := regularization_type p; delta := d;
     rms_decay := rms_decay p; max_iter := max_iter p; snapshot := snapshot p;
     snapshot_prefix := snapshot_prefix p; snapshot_diff := snapshot_diff p;
     snapshot_after_train := snapshot_after_train p;
     test_interval := test_interval p;
     test_initialization := test_initialization p;
     test_compute_loss := test_compute_loss p; test_iter := test_iter p;
     display := display p; debug_info := debug_info p;
     average_loss := average_loss p;
     has_update_interval := has_update_interval p;
     update_interval := update_interval p;
     solver_mode := solver_mode p |}.

(** [trained_solver] with [delta = 1/100]. *)
Definition stable_solver : SGDSolver :=
  set_param trained_solver (with_delta (1 / 100)%R step_param).

(** * Properties *)

(** ** The learning-rate schedule *)

Lemma pow_int_nonneg (x : Dtype) (n : Z) :
  0 <= n -> pow_int x n = (x ^ Z.to_nat n)%R.
Proof.
  intros Hn. unfold pow_int.
  rewrite <- (Z2Nat.id n) at 1 by assumption.
  symmetry. apply pow_powerRZ.
Qed.

Lemma Dtype_int_IZR (n : Z) : Dtype_int (IZR n) = Some n.
Proof.
  unfold Dtype_int.
  assert (Hup : up (IZR n) = n + 1).
  { symmetry. apply up_tech; [lra|]. apply IZR_lt. lia. }
  rewrite Hup. replace (n + 1 - 1) with n by lia.
  destruct (Req_dec_T (IZR n) (IZR n)) as [_|H]; [reflexivity | contradiction].
Qed.

Lemma pow_real_pos (x y : Dtype) : (0 < x)%R -> pow_real x y = Rpower x y.
Proof.
  intros Hx. unfold pow_real. destruct (Rlt_dec 0 x); [reflexivity | contradiction].
Qed.

Lemma pow_real_int (x : Dtype) (n : Z) : pow_real x (IZR n) = powerRZ x n.
Proof.
  unfold pow_real. destruct (Rlt_dec 0 x) as [Hx|_].
  - symmetry. now apply powerRZ_Rpower.
  - now rewrite Dtype_int_IZR.
Qed.

Lemma GetLearningRate_step (p : SolverParameter) (t : Z) :
  lr_policy p = "step" -> 0 <= t -> 0 < stepsize p ->
  GetLearningRate p t = Ok (base_lr p * gamma p ^ Z.to_nat (t / stepsize p))%R.
Proof.
  intros Hp Ht Hs. unfold GetLearningRate. rewrite Hp. simpl.
  destruct (Z.eqb_spec (stepsize p) 0) as [E|_]; [lia|].
  rewrite Z.quot_div_nonneg by lia.
  rewrite pow_int_nonneg by (apply Z.div_pos; lia).
  reflexivity.
Qed.

(** C3 (as the code has it). For an iteration [t >= 0] GetLearningRate
    returns [base_lr] for "fixed", [base_lr * gamma ^ floor (t / stepsize)]
    for "step" with a positive step size, [base_lr * gamma ^ t] for "exp"
    and [base_lr * (1 + gamma * t) ^ (- power)] for "inv", where that power
    is the real power of a positive base, or the integer power of a
    negative base when [power] is an integer; every other policy name is a
    fatal error.  With "step", [base_lr = 0.1], [gamma = 0.5] and
    [stepsize = 2] the rate is 0.1 at iterations 0 and 1, 0.05 at 2 and 3,
    0.025 at 4 and 5. *)
Theorem GetLearningRate_schedule (p : SolverParameter) (t : Z) :
  0 <= t ->
  (lr_policy p = "fixed" -> GetLearningRate p t = Ok (base_lr p)) /\
  (lr_policy p = "step" -> 0 < stepsize p ->
   GetLearningRate p t =
   Ok (base_lr p * gamma p ^ Z.to_nat (t / stepsize p))%R) /\
  (lr_policy p = "exp" ->
   GetLearningRate p t = Ok (base_lr p * gamma p ^ Z.to_nat t)%R) /\
  (lr_policy p = "inv" -> (0 < 1 + gamma p * IZR t)%R ->
   GetLearningRate p t =
   Ok (base_lr p * Rpower (1 + gamma p * IZR t) (- power p))%R) /\
  (lr_policy p = "inv" -> (1 + gamma p * IZR t < 0)%R ->
   forall n : Z, power p = IZR n ->
     GetLearningRate p t =
     Ok (base_lr p * powerRZ (1 + gamma p * IZR t) (- n))%R) /\
  (lr_policy p <> "fixed" -> lr_policy p <> "step" ->
   lr_policy p <> "exp" -> lr_policy p <> "inv" ->
   GetLearningRate p t = Fatal ("Unknown learning rate policy: " ++ lr_policy p)) /\
  (lr_policy p = "step" -> base_lr p = (1 / 10)%R -> gamma p = (1 / 2)%R ->
   stepsize p = 2 ->
   (t = 0 \/ t = 1 -> GetLearningRate p t = Ok (1 / 10)%R) /\
   (t = 2 \/ t = 3 -> GetLearningRate p t = Ok (1 / 20)%R) /\
   (t = 4 \/ t = 5 -> GetLearningRate p t = Ok (1 / 40)%R)).
Proof.
  intros Ht.
  assert (Hex : forall b : Dtype,
             lr_policy p = "step" -> base_lr p = (1 / 10)%R ->
             gamma p = (1 / 2)%R -> stepsize p = 2 ->
             (b = 1 / 10 * (1 / 2) ^ Z.to_nat (t / 2))%R ->
             GetLearningRate p t = Ok b).
  { intros b Hp Hb Hg Hs ->.
    rewrite GetLearningRate_step by (rewrite ?Hs; lia || assumption).
    now rewrite Hb, Hg, Hs. }
  split; [|split; [|split; [|split; [|split; [|split]]]]].
  - intros Hp. unfold GetLearningRate. now rewrite Hp.
  - intros Hp Hs. now apply GetLearningRate_step.
  - intros Hp. unfold GetLearningRate. rewrite Hp. simpl.
    now rewrite pow_int_nonneg.
  - intros Hp Hbase. unfold GetLearningRate. rewrite Hp. simpl.
    unfold Dtype_of_int. now rewrite pow_real_pos.
  - intros Hp Hbase n Hn. unfold GetLearningRate. rewrite Hp. simpl.
    unfold Dtype_of_int. rewrite Hn, <- opp_IZR. now rewrite pow_real_int.
  - intros H1 H2 H3 H4. unfold GetLearningRate.
    apply String.eqb_neq in H1, H2, H3, H4.
    now rewrite H1, H2, H3, H4.
  - intros Hp Hb Hg Hs.
    split; [|split]; intros [->| ->]; apply Hex; try assumption; simpl; lra.
Qed.

Lemma GetLearningRate_schedule_witness :
  0 <= 3 /\
  GetLearningRate (with_lr_policy "fixed" step_param) 3 = Ok (1 / 10)%R /\
  GetLearningRate step_param 3 = Ok (1 / 10 * (1 / 2) ^ 1)%R /\
  GetLearningRate step_param 3 = Ok (1 / 20)%R /\
  GetLearningRate (with_lr_policy "exp" step_param) 3
  = Ok (1 / 10 * (1 / 2) ^ 3)%R /\
  GetLearningRate (with_lr_policy "inv" step_param) 3
  = Ok (1 / 10 * Rpower (1 + 1 / 2 * 3) (- 1))%R /\
  GetLearningRate (with_lr_policy "poly" step_param) 3
  = Fatal "Unknown learning rate policy: poly".
Proof.
  split; [lia|].
  destruct (GetLearningRate_schedule (with_lr_policy "fixed" step_param) 3)
    as (Hfixed & _); [lia|].
  destruct (GetLearningRate_schedule step_param 3)
    as (_ & Hstep & _ & _ & _ & _ & Hex); [lia|].
  destruct (GetLearningRate_schedule (with_lr_policy "exp" step_param) 3)
    as (_ & _ & Hexp & _); [lia|].
  destruct (GetLearningRate_schedule (with_lr_policy "inv" step_param) 3)
    as (_ & _ & _ & Hinv & _); [lia|].
  destruct (GetLearningRate_schedule (with_lr_policy "poly" step_param) 3)
    as (_ & _ & _ & _ & _ & Hother & _); [lia|].
  split; [apply Hfixed; reflexivity|].
  split; [apply Hstep; [reflexivity | simpl; lia]|].
  split; [destruct Hex as (_ & H & _); try reflexivity; apply H; now right|].
  split; [apply Hexp; reflexivity|].
  split; [apply Hinv; [reflexivity | simpl; lra]|].
  apply Hother; discriminate.
Defined.

(** C3 as stated fails for a step size that is not positive: the code
    divides the two [int]s, which truncates towards zero, so with
    [stepsize = -2] the rate at iteration 1 is [base_lr * gamma ^ 0 = 0.1]
    where [floor (1 / -2) = -1] gives [base_lr * gamma ^ (-1) = 0.2]; with
    [stepsize = 0] the division ends the process and no rate is returned. *)
Lemma step_policy_truncates :
  let p := with_stepsize (-2) step_param in
  0 <= 1 /\ lr_policy p = "step" /\
  GetLearningRate p 1 = Ok (1 / 10)%R /\
  1 / stepsize p = -1 /\
  (base_lr p * pow_int (gamma p) (1 / stepsize p))%R = (1 / 5)%R /\
  (1 / 10 <> 1 / 5)%R /\
  is_Fatal (GetLearningRate (with_stepsize 0 step_param) 1).
Proof.
  intros p. split; [lia|]. split; [reflexivity|]. split; [|split; [|split; [|split]]].
  - unfold GetLearningRate. simpl. f_equal. lra.
  - reflexivity.
  - simpl. unfold pow_int. simpl. lra.
  - lra.
  - exact I.
Qed.

(** ** The smoothed loss *)

Lemma Rsum_app (l1 l2 : list Dtype) :
  Rsum (l1 ++ l2) = (Rsum l1 + Rsum l2)%R.
Proof.
  unfold Rsum. induction l1 as [|a l1 IH]; simpl; [lra|]. rewrite IH. lra.
Qed.

Lemma length_last_n {A : Type} (n : nat) (l : list A) :
  length (last_n n l) = Nat.min (length l) n.
Proof. unfold last_n. rewrite length_drop. lia. Qed.

Lemma window_entry (W : nat) : window W [] [] 0%R.
Proof.
  split; simpl.
  - reflexivity.
  - intros i x H. discriminate.
  - unfold mean, last_n. simpl. lra.
Qed.

Lemma window_index (W m : nat) (start_iter : Z) :
  (1 <= W)%nat ->
  Z.to_nat (Z.rem (start_iter + Z.of_nat m - start_iter) (Z.of_nat W))
  = (m mod W)%nat.
Proof.
  intros HW. replace (start_iter + Z.of_nat m - start_iter) with (Z.of_nat m) by lia.
  rewrite Z.rem_mod_nonneg by lia.
  rewrite <- Nat2Z.inj_mod. apply Nat2Z.id.
Qed.

Lemma mod_window_distinct (W i m : nat) :
  (i < m)%nat -> (m < i + W)%nat -> (i mod W)%nat <> (m mod W)%nat.
Proof.
  intros Him HmW E.
  assert (HW : W <> 0%nat) by lia.
  pose proof (Nat.div_mod i W HW) as Hi.
  pose proof (Nat.div_mod m W HW) as Hm.
  rewrite E in Hi.
  assert (H : (m - i = W * (m / W - i / W))%nat) by nia.
  destruct (m / W - i / W)%nat as [|k] eqn:Ek; nia.
Qed.

Lemma window_push (W : nat) (start_iter : Z) (ls buf : list Dtype)
    (sm x : Dtype) :
  (1 <= W)%nat -> window W ls buf sm -> (length ls < W)%nat ->
  update_smoothed_loss (Z.of_nat W) start_iter
    (start_iter + Z.of_nat (length ls)) x buf sm
  = Ok (buf ++ [x], mean (ls ++ [x])) /\
  window W (ls ++ [x]) (buf ++ [x]) (mean (ls ++ [x])).
Proof.
  intros HW [Hlen Hslot Hmean] Hlt.
  assert (Hbuf : length buf = length ls) by lia.
  assert (Hall : last_n W ls = ls).
  { unfold last_n. replace (length ls - W)%nat with 0%nat by lia. apply drop_0. }
  split.
  - unfold update_smoothed_loss.
    destruct (Z.ltb_spec (Z.of_nat (length buf)) (Z.of_nat W)) as [_|H]; [|lia].
    f_equal. f_equal.
    rewrite Hmean, Hall. unfold mean, Dtype_of_int.
    rewrite !length_app, Rsum_app, Hbuf. simpl length.
    replace (Z.of_nat (length ls + 1) - 1) with (Z.of_nat (length ls)) by lia.
    rewrite <- !INR_IZR_INZ. unfold Rsum at 3. simpl.
    destruct (length ls) as [|n] eqn:En.
    + apply length_zero_iff_nil in En. subst ls. simpl. lra.
    + assert (INR (S n) <> 0)%R by (apply not_0_INR; lia).
      field. split; [apply not_0_INR; lia | assumption].
  - split.
    + rewrite !length_app. simpl. lia.
    + intros i y Hi Hle. rewrite length_app in Hle. simpl in Hle.
      assert (Hi' : (i < length (ls ++ [x]))%nat) by (eapply lookup_lt_Some; eauto).
      rewrite length_app in Hi'. simpl in Hi'.
      rewrite Nat.mod_small by lia.
      destruct (decide (i = length ls)) as [->|Hne].
      * rewrite list_lookup_middle in Hi by reflexivity.
        rewrite <- Hbuf. rewrite list_lookup_middle by reflexivity. assumption.
      * rewrite lookup_app_l in Hi by lia.
        rewrite lookup_app_l by lia.
        rewrite <- (Nat.mod_small i W) by lia. apply Hslot; [assumption | lia].
    + f_equal. unfold last_n. rewrite length_app. simpl.
      replace (length ls + 1 - W)%nat with 0%nat by lia. now rewrite drop_0.
Qed.

Lemma Rsum_drop_lookup (l : list Dtype) (i : nat) (x : Dtype) :
  l !! i = Some x -> Rsum (drop i l) = (x + Rsum (drop (S i) l))%R.
Proof.
  intros H. rewrite (drop_S l x i H). reflexivity.
Qed.

Lemma window_replace (W : nat) (start_iter : Z) (ls buf : list Dtype)
    (sm x : Dtype) :
  (1 <= W)%nat -> window W ls buf sm -> (W <= length ls)%nat ->
  exists old : Dtype,
    buf !! (length ls mod W)%nat = Some old /\
    ls !! (length ls - W)%nat = Some old /\
    update_smoothed_loss (Z.of_nat W) start_iter
      (start_iter + Z.of_nat (length ls)) x buf sm
    = Ok (<[(length ls mod W)%nat := x]> buf,
          (sm + (x - old) / IZR (Z.of_nat W))%R) /\
    window W (ls ++ [x]) (<[(length ls mod W)%nat := x]> buf)
      (sm + (x - old) / IZR (Z.of_nat W))%R.
Proof.
  intros HW [Hlen Hslot Hmean] Hge.
  assert (Hbuf : length buf = W) by lia.
  destruct (lookup_lt_is_Some_2 ls (length ls - W)%nat) as [old Hold]; [lia|].
  assert (Hidx : ((length ls - W) mod W = length ls mod W)%nat).
  { replace (length ls) with ((length ls - W) + 1 * W)%nat at 2 by lia.
    now rewrite Nat.Div0.mod_add. }
  assert (Hb : buf !! (length ls mod W)%nat = Some old).
  { rewrite <- Hidx. apply Hslot; [assumption | lia]. }
  exists old. split; [assumption|]. split; [assumption|]. split.
  - unfold update_smoothed_loss.
    destruct (Z.ltb_spec (Z.of_nat (length buf)) (Z.of_nat W)) as [H|_]; [lia|].
    rewrite window_index by assumption.
    unfold at_. rewrite Hb. reflexivity.
  - split.
    + rewrite length_insert, length_app. simpl. lia.
    + intros i y Hi Hle. rewrite length_app in Hle. simpl in Hle.
      assert (Hi' : (i < length (ls ++ [x]))%nat) by (eapply lookup_lt_Some; eauto).
      rewrite length_app in Hi'. simpl in Hi'.
      destruct (decide (i = length ls)) as [->|Hne].
      * rewrite list_lookup_middle in Hi by reflexivity. inversion Hi; subst y.
        apply list_lookup_insert_eq. rewrite Hbuf.
        apply Nat.mod_upper_bound. lia.
      * rewrite lookup_app_l in Hi by lia.
        rewrite list_lookup_insert_ne
          by (intros E; apply (mod_window_distinct W i (length ls)); [lia | lia | now symmetry]).
        apply Hslot; [assumption | lia].
    + rewrite Hmean. unfold mean. rewrite !length_last_n, length_app. simpl length.
      rewrite !Nat.min_r by lia.
      unfold last_n. rewrite length_app. simpl length.
      rewrite drop_app_le by lia. rewrite Rsum_app.
      rewrite (Rsum_drop_lookup ls (length ls - W)%nat old Hold).
      replace (length ls + 1 - W)%nat with (S (length ls - W)) by lia.
      rewrite <- INR_IZR_INZ.
      replace (Rsum [x]) with x by (unfold Rsum; simpl; lra).
      assert (INR W <> 0)%R by (apply not_0_INR; lia).
      field. assumption.
Qed.

Lemma window_step (W : nat) (start_iter : Z) (ls buf : list Dtype)
    (sm x : Dtype) :
  (1 <= W)%nat -> window W ls buf sm ->
  exists (buf' : list Dtype) (sm' : Dtype),
    update_smoothed_loss (Z.of_nat W) start_iter
      (start_iter + Z.of_nat (length ls)) x buf sm = Ok (buf', sm') /\
    window W (ls ++ [x]) buf' sm'.
Proof.
  intros HW Hw.
  destruct (Nat.lt_ge_cases (length ls) W) as [Hlt|Hge].
  - destruct (window_push W start_iter ls buf sm x HW Hw Hlt) as [E Hw'].
    eauto.
  - destruct (window_replace W start_iter ls buf sm x HW Hw Hge)
      as (old & _ & _ & E & Hw').
    eauto.
Qed.

Lemma Solve_loop_inv (param_ : SolverParameter) (accumulate : bool)
    (loss_of : nat -> Dtype) (start_iter : Z) (W : nat) :
  (1 <= W)%nat -> average_loss param_ = Z.of_nat W ->
  forall (n : nat) (st : LoopState) (ls : list Dtype),
    loop_inv W start_iter ls st ->
    exists st' : LoopState,
      Solve_loop param_ accumulate loss_of start_iter n st = Ok st' /\
      loop_inv W start_iter
        (ls ++ pass_losses param_ accumulate loss_of (fb_calls st) n) st'.
Proof.
  intros HW HWp. induction n as [|n IH]; intros st ls [Hit Hw]; simpl.
  - exists st. rewrite app_nil_r. now split.
  - unfold Solve_pass.
    destruct (train_step param_ accumulate loss_of (fb_calls st))
      as [[loss calls] evs] eqn:Et.
    rewrite HWp, Hit.
    destruct (window_step W start_iter ls (losses st) (smoothed_loss st) loss HW Hw)
      as (buf' & sm' & E & Hw').
    rewrite E. simpl.
    match goal with
    | |- context [Solve_loop _ _ _ _ n ?s] =>
        destruct (IH s (ls ++ [loss])) as (st' & E' & Hinv')
    end.
    { split; simpl; [rewrite length_app; simpl; lia | assumption]. }
    exists st'. split; [assumption|].
    simpl in Hinv'. now rewrite <- app_assoc in Hinv'.
Qed.

Lemma last_n_1 {A : Type} (l : list A) (x : A) :
  last l = Some x -> last_n 1 l = [x].
Proof.
  intros H. destruct (last_Some l x) as [[l' ->] _]; [assumption|].
  unfold last_n. rewrite length_app. simpl.
  replace (length l' + 1 - 1)%nat with (length l') by lia.
  now rewrite drop_app_length.
Qed.

Lemma mean_singleton (x : Dtype) : mean [x] = x.
Proof. unfold mean, Rsum. simpl. lra. Qed.

Lemma length_pass_losses (param_ : SolverParameter) (accumulate : bool)
    (loss_of : nat -> Dtype) (n calls : nat) :
  length (pass_losses param_ accumulate loss_of calls n) = n.
Proof.
  revert calls. induction n as [|n IH]; intros calls; simpl; [reflexivity|].
  destruct (train_step param_ accumulate loss_of calls) as [[loss calls'] evs].
  simpl. now rewrite IH.
Qed.

Lemma Solve_loop_runs (param_ : SolverParameter) (accumulate : bool)
    (loss_of : nat -> Dtype) (start_iter : Z) (m : nat) :
  1 <= average_loss param_ ->
  exists st : LoopState,
    Solve_loop param_ accumulate loss_of start_iter m (loop_entry start_iter)
    = Ok st /\
    smoothed_loss st
    = mean (last_n (Z.to_nat (average_loss param_))
              (pass_losses param_ accumulate loss_of 0 m)).
Proof.
  intros HW1.
  assert (HWn : (1 <= Z.to_nat (average_loss param_))%nat) by lia.
  assert (HWp : average_loss param_ = Z.of_nat (Z.to_nat (average_loss param_)))
    by lia.
  destruct (Solve_loop_inv param_ accumulate loss_of start_iter _
              HWn HWp m (loop_entry start_iter) [])
    as (st & E & [_ [_ _ Hmean]]).
  { split; simpl; [lia | apply window_entry]. }
  exists st. split; assumption.
Qed.

(** C2. Solve is fatal when the window [W = average_loss] is below 1.
    Otherwise, after any number of passes the smoothed loss is the mean of
    the last [W] pass losses: the mean of all of them while there are at
    most [W], and the last loss itself when [W = 1]; Solve ends with that
    value.  On a full buffer the new loss replaces the one stored at index
    [(iter_ - start_iter) mod W] and the smoothed loss moves by
    [(new - replaced) / W]. *)
Theorem smoothed_loss_moving_average (param_ : SolverParameter)
    (accumulate : bool) (loss_of : nat -> Dtype) (resume : option Z) :
  let W := average_loss param_ in
  let start_iter := match resume with Some i => i | None => 0 end in
  (W < 1 -> is_Fatal (Solve param_ accumulate loss_of resume)) /\
  (1 <= W ->
   (forall m : nat,
      let ls := pass_losses param_ accumulate loss_of 0 m in
      exists st : LoopState,
        Solve_loop param_ accumulate loss_of start_iter m (loop_entry start_iter)
        = Ok st /\
        smoothed_loss st = mean (last_n (Z.to_nat W) ls) /\
        (Z.of_nat m <= W -> smoothed_loss st = mean ls) /\
        (W = 1 -> forall x : Dtype, last ls = Some x -> smoothed_loss st = x)) /\
   (exists st : LoopState,
      Solve param_ accumulate loss_of resume = Ok st /\
      smoothed_loss st =
      mean (last_n (Z.to_nat W)
              (pass_losses param_ accumulate loss_of 0
                 (Z.to_nat (max_iter param_ - start_iter))))) /\
   (forall (iter_ : Z) (loss sm : Dtype) (buf : list Dtype),
      start_iter <= iter_ -> Z.of_nat (length buf) = W ->
      let idx := Z.to_nat ((iter_ - start_iter) mod W) in
      exists old : Dtype,
        buf !! idx = Some old /\
        update_smoothed_loss W start_iter iter_ loss buf sm
        = Ok (<[idx := loss]> buf, (sm + (loss - old) / IZR W)%R))).
Proof.
  intros W start_iter. split; [|intros HW1].
  - intros HW. unfold Solve. fold W.
    destruct (Z.ltb_spec W 1) as [_|H]; [exact I | lia].
  - assert (Hrun := fun m : nat =>
      Solve_loop_runs param_ accumulate loss_of start_iter m HW1).
    fold W in Hrun.
    split; [|split].
    + intros m ls. destruct (Hrun m) as (st & E & Hmean).
      exists st. split; [assumption|]. fold ls in Hmean.
      split; [assumption|]. split.
      * intros Hm. rewrite Hmean. f_equal. unfold last_n.
        unfold ls at 1. rewrite length_pass_losses.
        replace (m - Z.to_nat W)%nat with 0%nat by lia. apply drop_0.
      * intros HW x Hx. rewrite Hmean.
        replace (Z.to_nat W) with 1%nat by lia.
        rewrite (last_n_1 ls x Hx). apply mean_singleton.
    + destruct (Hrun (Z.to_nat (max_iter param_ - start_iter))) as (st & E & Hmean).
      unfold Solve. fold W. fold start_iter.
      destruct (Z.ltb_spec W 1) as [H|_]; [lia|].
      rewrite E. simpl. eexists. split; [reflexivity|]. simpl. assumption.
    + intros iter_ loss sm buf Hit Hlen idx.
      assert (Hidx : (idx < length buf)%nat).
      { unfold idx. pose proof (Z.mod_pos_bound (iter_ - start_iter) W). lia. }
      destruct (lookup_lt_is_Some_2 buf idx Hidx) as [old Hold].
      exists old. split; [assumption|].
      unfold update_smoothed_loss.
      destruct (Z.ltb_spec (Z.of_nat (length buf)) W) as [H|_]; [lia|].
      rewrite Z.rem_mod_nonneg by lia. fold idx.
      unfold at_. rewrite Hold. reflexivity.
Qed.

(** ** Gradient accumulation *)

Lemma accumulate_loop_spec (loss_of : nat -> Dtype) (n : nat) :
  forall (loss : Dtype) (calls : nat),
    accumulate_loop loss_of n loss calls
    = ((loss + loss_sum_of loss_of calls n)%R, (calls + n)%nat,
       accumulate_events calls n).
Proof.
  unfold loss_sum_of, accumulate_events.
  induction n as [|n IH]; intros loss calls.
  - simpl. unfold Rsum. simpl. repeat f_equal; [lra | lia].
  - cbn [accumulate_loop]. rewrite IH. cbn [seq map flat_map app].
    replace (S calls + n)%nat with (calls + S n)%nat by lia.
    replace (loss + loss_of calls + Rsum (map loss_of (seq (S calls) n)))%R
      with (loss + Rsum (loss_of calls :: map loss_of (seq (S calls) n)))%R
      by (unfold Rsum; simpl; lra).
    reflexivity.
Qed.

(** C4 (as the code has it). When update_interval is unset or equal to 1
    a pass makes one ForwardBackward call and its loss is the loss of the
    pass.  When it is set to [k > 1] the pass makes [k] calls: the first
    [k - 1] are each followed by AccumulateDiff, the last one by UpdateDiff,
    the parameters are not updated in between, and the loss of the pass is
    the sum of the [k] losses divided by [k]. *)
Theorem train_step_accumulation (param_ : SolverParameter)
    (loss_of : nat -> Dtype) (calls : nat) :
  let k := update_interval param_ in
  (has_update_interval param_ = false \/ k = 1 ->
   train_step param_ (Init_accumulate param_) loss_of calls
   = (loss_of calls, S calls, [EvForwardBackward calls])) /\
  (has_update_interval param_ = true -> 1 < k ->
   train_step param_ (Init_accumulate param_) loss_of calls
   = ((loss_sum_of loss_of calls (Z.to_nat k) / IZR k)%R,
      (calls + Z.to_nat k)%nat,
      accumulate_events calls (Z.to_nat k - 1)
      ++ [EvForwardBackward (calls + (Z.to_nat k - 1)); EvUpdateDiff])).
Proof.
  intros k. split.
  - intros H. unfold train_step, Init_accumulate. fold k.
    destruct H as [-> | ->]; simpl; [reflexivity|].
    now rewrite orb_true_r.
  - intros Hhas Hk. unfold train_step, Init_accumulate. fold k.
    rewrite Hhas. destruct (Z.eqb_spec k 1) as [E|_]; [lia|]. simpl.
    rewrite accumulate_loop_spec.
    assert (Hn : exists n : nat, Z.to_nat k = S n)
      by (exists (Z.to_nat k - 1)%nat; lia).
    destruct Hn as [n Hn].
    replace (Z.to_nat (k - 1)) with n by lia.
    rewrite Hn. replace (S n - 1)%nat with n by lia.
    replace (S (calls + n)) with (calls + S n)%nat by lia.
    unfold loss_sum_of, Dtype_of_int.
    rewrite seq_S, map_app, Rsum_app.
    replace (Rsum (map loss_of [(calls + n)%nat])) with (loss_of (calls + n)%nat)
      by (unfold Rsum; simpl; lra).
    rewrite Rplus_0_l. reflexivity.
Qed.

Lemma train_step_accumulation_witness :
  let p := with_update_interval true 2 step_param in
  has_update_interval p = true /\ 1 < update_interval p /\
  train_step p (Init_accumulate p) (fun n => INR n) 0
  = (((0 + (1 + 0)) / 2)%R, 2%nat,
     [EvForwardBackward 0; EvAccumulateDiff; EvForwardBackward 1; EvUpdateDiff]) /\
  train_step step_param (Init_accumulate step_param) (fun n => INR n) 5
  = (INR 5, 6%nat, [EvForwardBackward 5]) /\
  train_step (with_update_interval false 3 step_param)
    (Init_accumulate (with_update_interval false 3 step_param)) (fun n => INR n) 5
  = (INR 5, 6%nat, [EvForwardBackward 5]).
Proof.
  intros p. split; [reflexivity|]. split; [reflexivity|].
  destruct (train_step_accumulation p (fun n => INR n) 0%nat) as [_ H].
  destruct (train_step_accumulation step_param (fun n => INR n) 5%nat) as [H1 _].
  destruct (train_step_accumulation (with_update_interval false 3 step_param)
              (fun n => INR n) 5%nat) as [H2 _].
  split; [apply H; reflexivity|].
  split; [apply H1; now right | apply H2; now left].
Defined.

(** C4 as stated fails below 1: with update_interval set to -1 the pass
    also calls UpdateDiff and divides the loss by -1. *)
Lemma accumulation_interval_below_one :
  let p := with_update_interval true (-1) step_param in
  update_interval p <= 1 /\
  train_step p (Init_accumulate p) (fun _ => 1%R) 0
  = (((0 + 1) / -1)%R, 1%nat, [EvForwardBackward 0; EvUpdateDiff]) /\
  train_step p (Init_accumulate p) (fun _ => 1%R) 0
  <> (1%R, 1%nat, [EvForwardBackward 0]) /\
  fst (fst (train_step p (Init_accumulate p) (fun _ => 1%R) 0)) <> 1%R.
Proof.
  intros p. split; [simpl; lia|]. split; [reflexivity|]. split.
  - intros H. apply (f_equal snd) in H. discriminate H.
  - simpl. unfold Dtype_of_int. lra.
Qed.


(** ** Snapshots of a run *)

Lemma snapshots_app (a b : list Event) :
  snapshots (a ++ b) = snapshots a ++ snapshots b.
Proof.
  induction a as [|e a IH]; simpl; [reflexivity|].
  destruct e; simpl; now rewrite ?IH.
Qed.

Lemma snapshots_accumulate_events (calls n : nat) :
  snapshots (accumulate_events calls n) = [].
Proof.
  unfold accumulate_events. revert calls.
  induction n as [|n IH]; intros calls; simpl; [reflexivity | apply IH].
Qed.

Lemma snapshots_train_step (param_ : SolverParameter) (accumulate : bool)
    (loss_of : nat -> Dtype) (calls : nat) :
  snapshots (snd (train_step param_ accumulate loss_of calls)) = [].
Proof.
  unfold train_step. destruct accumulate; simpl; [|reflexivity].
  rewrite accumulate_loop_spec. simpl.
  rewrite snapshots_app, snapshots_accumulate_events. reflexivity.
Qed.

Lemma snapshot_due_spec (param_ : SolverParameter) (start_iter iter_ : Z) :
  0 < snapshot param_ ->
  snapshot_due param_ start_iter iter_ = true
  <-> start_iter < iter_ /\ iter_ mod snapshot param_ = 0.
Proof.
  intros Hs. unfold snapshot_due.
  destruct (Z.eqb_spec (snapshot param_) 0) as [E|_]; [lia|]. simpl.
  rewrite andb_true_iff, Z.ltb_lt, Z.eqb_eq.
  rewrite Z.rem_divide, Z.mod_divide by lia. reflexivity.
Qed.

(** The events of a pass after a possible snapshot. *)
Lemma Solve_pass_trace (param_ : SolverParameter) (accumulate : bool)
    (loss_of : nat -> Dtype) (start_iter : Z) (st st' : LoopState) :
  Solve_pass param_ accumulate loss_of start_iter st = Ok st' ->
  loop_iter st' = loop_iter st + 1 /\
  exists rest : list Event,
    trace st' = trace st
                ++ (if snapshot_due param_ start_iter (loop_iter st)
                    then [EvSnapshot (loop_iter st)] else [])
                ++ rest /\
    snapshots rest = [].
Proof.
  unfold Solve_pass.
  pose proof (snapshots_train_step param_ accumulate loss_of (fb_calls st)) as Hts.
  destruct (train_step param_ accumulate loss_of (fb_calls st))
    as [[loss calls] evs].
  simpl in Hts.
  destruct (update_smoothed_loss _ _ _ _ _ _) as [sm|msg]; simpl; [|discriminate].
  intros H. inversion H; subst st'; clear H. simpl. split; [reflexivity|].
  unfold pass_head. eexists. split.
  - rewrite <- !app_assoc. reflexivity.
  - rewrite !snapshots_app, Hts.
    destruct (test_due _ _), (display_due _ _); reflexivity.
Qed.

Lemma Solve_loop_snapshots (param_ : SolverParameter) (accumulate : bool)
    (loss_of : nat -> Dtype) (start_iter : Z) :
  0 < snapshot param_ ->
  forall (n : nat) (st st' : LoopState),
    Solve_loop param_ accumulate loss_of start_iter n st = Ok st' ->
    loop_iter st' = loop_iter st + Z.of_nat n /\
    snapshots (trace st')
    = snapshots (trace st)
      ++ filter (fun i => start_iter < i /\ i mod snapshot param_ = 0)
           (seqZ (loop_iter st) (Z.of_nat n)).
Proof.
  intros Hs. induction n as [|n IH]; intros st st' H.
  - simpl in H. inversion H; subst st'. simpl.
    rewrite app_nil_r. split; [lia | reflexivity].
  - cbn [Solve_loop] in H.
    destruct (Solve_pass param_ accumulate loss_of start_iter st)
      as [st1|msg] eqn:E1; simpl in H; [|discriminate].
    destruct (Solve_pass_trace _ _ _ _ _ _ E1) as (Hit & rest & Htr & Hrest).
    destruct (IH st1 st' H) as (Hit' & Hsn).
    split; [lia|].
    rewrite Hsn, Htr, Hit, !snapshots_app, Hrest, app_nil_r.
    rewrite (seqZ_cons (loop_iter st)) by lia.
    replace (Z.succ (loop_iter st)) with (loop_iter st + 1) by lia.
    replace (Z.pred (Z.of_nat (S n))) with (Z.of_nat n) by lia.
    rewrite filter_cons. rewrite <- app_assoc. f_equal.
    pose proof (snapshot_due_spec param_ start_iter (loop_iter st) Hs) as Hd.
    destruct (snapshot_due param_ start_iter (loop_iter st)).
    + rewrite decide_True by (now apply Hd). reflexivity.
    + rewrite decide_False; [reflexivity|].
      intros Hc. apply Hd in Hc. discriminate.
Qed.

(** C9 (as the code has it). With a snapshot cadence [s > 0], a pass takes
    a snapshot, as its first action, exactly when its iteration is a
    multiple of [s] and is greater than the iteration the run started at;
    the snapshots of a whole run are those, followed by one at the final
    iteration exactly when [snapshot_after_train] is set. *)
Theorem snapshot_cadence (param_ : SolverParameter) (accumulate : bool)
    (loss_of : nat -> Dtype) (resume : option Z) :
  let s := snapshot param_ in
  let start_iter := match resume with Some i => i | None => 0 end in
  0 < s -> 1 <= average_loss param_ ->
  (forall st st' : LoopState,
     Solve_pass param_ accumulate loss_of start_iter st = Ok st' ->
     exists rest : list Event,
       trace st' = trace st
                   ++ (if decide (start_iter < loop_iter st /\ loop_iter st mod s = 0)
                       then [EvSnapshot (loop_iter st)] else [])
                   ++ rest /\
       snapshots rest = []) /\
  (exists st : LoopState,
     Solve param_ accumulate loss_of resume = Ok st /\
     loop_iter st = Z.max start_iter (max_iter param_) /\
     snapshots (trace st)
     = snapshot_iterations param_ start_iter
       ++ (if snapshot_after_train param_ then [loop_iter st] else [])).
Proof.
  intros s start_iter Hs HW. split.
  - intros st st' H.
    destruct (Solve_pass_trace _ _ _ _ _ _ H) as (_ & rest & Htr & Hrest).
    exists rest. split; [|assumption]. rewrite Htr. do 2 f_equal.
    pose proof (snapshot_due_spec param_ start_iter (loop_iter st) Hs) as Hd.
    fold s in Hd.
    destruct (snapshot_due param_ start_iter (loop_iter st)).
    + rewrite decide_True by (now apply Hd). reflexivity.
    + rewrite decide_False; [reflexivity|].
      intros Hc. apply Hd in Hc. discriminate.
  - destruct (Solve_loop_runs param_ accumulate loss_of start_iter
                (Z.to_nat (max_iter param_ - start_iter)) HW) as (st1 & E1 & _).
    unfold Solve. fold start_iter.
    destruct (Z.ltb_spec (average_loss param_) 1) as [H|_]; [lia|].
    rewrite E1. simpl. eexists. split; [reflexivity|]. simpl.
    destruct (Solve_loop_snapshots param_ accumulate loss_of start_iter Hs _ _ _ E1)
      as (Hit & Hsn).
    simpl in Hit, Hsn. split; [lia|].
    rewrite snapshots_app, Hsn. f_equal.
    + unfold snapshot_iterations. f_equal.
      destruct (Z.le_gt_cases start_iter (max_iter param_)) as [Hle|Hgt].
      * now rewrite Z2Nat.id by lia.
      * replace (Z.to_nat (max_iter param_ - start_iter)) with 0%nat by lia.
        simpl. unfold seqZ. now replace (Z.to_nat (max_iter param_ - start_iter)) with 0%nat by lia.
    + unfold Solve_exit. destruct (snapshot_after_train param_); simpl.
      * rewrite snapshots_app. destruct (display_due _ _); simpl;
          match goal with |- context [if ?c then _ else _] => destruct c end;
          reflexivity.
      * rewrite snapshots_app. destruct (display_due _ _); simpl;
          match goal with |- context [if ?c then _ else _] => destruct c end;
          reflexivity.
Qed.

Lemma smoothed_loss_moving_average_witness :
  1 <= average_loss step_param /\
  (exists st : LoopState,
     Solve_loop step_param false (fun n => INR n) 0 3 (loop_entry 0) = Ok st /\
     smoothed_loss st = (3 / 2)%R) /\
  (exists st : LoopState,
     Solve_loop step_param false (fun n => INR n) 0 1 (loop_entry 0) = Ok st /\
     smoothed_loss st = 0%R) /\
  (exists old : Dtype,
     [5%R; 7%R] !! 1%nat = Some old /\
     update_smoothed_loss 2 4 7 9%R [5%R; 7%R] 6%R
     = Ok ([5%R; 9%R], (6 + (9 - old) / 2)%R)) /\
  is_Fatal (Solve (with_average_loss 0 step_param) false (fun n => INR n) None).
Proof.
  split; [simpl; lia|].
  destruct (smoothed_loss_moving_average step_param false (fun n => INR n) None)
    as (_ & H).
  destruct (H ltac:(simpl; lia)) as (Hm & _ & Hstep).
  split; [|split; [|split]].
  - destruct (Hm 3%nat) as (st & E & Hmean & _).
    exists st. split; [exact E|].
    rewrite Hmean. unfold mean, last_n, Rsum. simpl. lra.
  - destruct (Hm 1%nat) as (st & E & _ & Hall & _).
    exists st. split; [exact E|].
    rewrite Hall by (simpl; lia). unfold mean, Rsum. simpl. lra.
  - destruct (Hstep 7 9%R 6%R [5%R; 7%R]) as (old & Hold & E);
      [simpl; lia | reflexivity |].
    exists old. split; [exact Hold | exact E].
  - destruct (smoothed_loss_moving_average (with_average_loss 0 step_param)
                false (fun n => INR n) None) as (Hfatal & _).
    apply Hfatal. simpl. lia.
Defined.

Lemma snapshot_cadence_witness :
  0 < snapshot step_param /\ 1 <= average_loss step_param /\
  exists st : LoopState,
    Solve step_param false (fun _ => 0%R) None = Ok st /\
    snapshots (trace st) = [2; 4; 6].
Proof.
  split; [simpl; lia|]. split; [simpl; lia|].
  destruct (snapshot_cadence step_param false (fun _ => 0%R) None)
    as (_ & st & E & Hit & Hsn); [simpl; lia | simpl; lia |].
  exists st. split; [exact E|].
  rewrite Hsn, Hit. reflexivity.
Defined.

(** C9 as stated fails on the pass at the resumed iteration: a run with
    cadence 2 resumed at iteration 4 takes no snapshot at iteration 4; its
    only snapshot is the final one at iteration 6. *)
Lemma snapshot_not_taken_at_resumed_iteration :
  exists st : LoopState,
    Solve step_param false (fun _ => 0%R) (Some 4) = Ok st /\
    (0 < 4 /\ 4 mod snapshot step_param = 0) /\
    snapshots (trace st) = [6] /\
    ~ In (EvSnapshot 4) (trace st).
Proof.
  eexists. split; [reflexivity|]. split; [split; reflexivity|].
  split; [reflexivity|].
  simpl. intros H.
  repeat (destruct H as [H|H]; [discriminate H|]). exact H.
Qed.

(** ** The loss weight in the output lines *)

Lemma output_ids_single (result : list (list Dtype)) :
  Forall (fun r => length r = 1%nat) result ->
  forall j : nat, output_ids j result = seq j (length result).
Proof.
  induction 1 as [|r result Hr _ IH]; intros j; simpl; [reflexivity|].
  rewrite Hr, IH. reflexivity.
Qed.

Lemma Solve_lines_lookup (net : EvalNet) (result : list (list Dtype)) :
  forall (j score_index i : nat) (line : ReportLine),
    Solve_lines net j score_index result !! i = Some line ->
    exists owner : nat,
      output_ids j result !! i = Some owner /\
      loss_weight line = Solve_loss_weight net owner.
Proof.
  induction result as [|r result IH]; intros j si i line H; simpl in H.
  - discriminate.
  - simpl. destruct (Nat.lt_ge_cases i (length r)) as [Hlt|Hge].
    + rewrite lookup_app_l in H by (now rewrite length_imap).
      rewrite list_lookup_imap in H.
      destruct (r !! i) as [v|]; simpl in H; [|discriminate].
      inversion H; subst line; clear H. simpl.
      exists j. split; [|reflexivity].
      rewrite lookup_app_l by (now rewrite length_replicate).
      now apply lookup_replicate_2.
    + rewrite lookup_app_r in H by (now rewrite length_imap).
      rewrite length_imap in H.
      destruct (IH _ _ _ _ H) as (owner & Ho & Hw).
      exists owner. split; [|assumption].
      rewrite lookup_app_r by (now rewrite length_replicate).
      now rewrite length_replicate.
Qed.

(** C10. The evaluation report reads the loss weight of the [i]-th score
    at [output_blob_indices[i]], the training display at
    [output_blob_indices[j]] for the output blob [j] the score belongs to.
    When every output blob has one element the owner of score [i] is [i]
    and the two agree.  With a two-element output blob they differ: score
    1 belongs to blob 0, and the evaluation report reads
    [output_blob_indices[1]], past the end of the one-element vector. *)
Theorem evaluation_loss_weight_lookup :
  (forall (net : EvalNet) (result : list (list Dtype)) (iter_loss : Dtype)
          (compute_loss : bool) (n : Z) (i : nat) (lineT lineS : ReportLine),
     let sc := Test_iteration compute_loss (result, iter_loss) no_scores 0 in
     Forall (fun r => length r = 1%nat) result ->
     Test_lines net n sc !! i = Some lineT ->
     Solve_lines net 0 0 result !! i = Some lineS ->
     test_score_output_id sc !! i = Some i /\
     loss_weight lineT = Test_loss_weight net i /\
     loss_weight lineS = Solve_loss_weight net i /\
     loss_weight lineT = loss_weight lineS) /\
  (let sc := Test_iteration false (prob_result, 0%R) no_scores 0 in
   test_score_output_id sc = [0; 0]%nat /\
   output_blob_indices prob_net !! 1%nat = None /\
   map loss_weight (Test_lines prob_net 1 sc) = [Some 1%R; None] /\
   map loss_weight (Solve_lines prob_net 0 0 prob_result) = [Some 1%R; Some 1%R]).
Proof.
  split.
  - intros net result iter_loss compute_loss n i lineT lineS sc Hall HT HS.
    assert (Hids : test_score_output_id sc = seq 0 (length result)).
    { unfold sc. simpl. now apply output_ids_single. }
    destruct (Solve_lines_lookup _ _ _ _ _ _ HS) as (owner & Ho & Hw).
    rewrite <- (output_ids_single result Hall) in Hids.
    assert (Hown : owner = i).
    { rewrite (output_ids_single result Hall) in Ho.
      apply lookup_seq in Ho. lia. }
    subst owner.
    assert (Hfirst : test_score_output_id sc !! i = Some i) by (now rewrite Hids).
    unfold Test_lines in HT. rewrite list_lookup_imap in HT.
    destruct (test_score sc !! i) as [v|]; simpl in HT; [|discriminate].
    inversion HT; subst lineT; clear HT. simpl.
    split; [exact Hfirst|]. split; [reflexivity|]. split; [assumption|].
    rewrite Hw. reflexivity.
  - simpl. repeat split; reflexivity.
Qed.

Lemma evaluation_loss_weight_lookup_witness :
  let net := prob_net in
  let result := [[(3 / 10)%R]] in
  let sc := Test_iteration false (result, 0%R) no_scores 0 in
  Forall (fun r => length r = 1%nat) result /\
  (forall lineT lineS : ReportLine,
     Test_lines net 1 sc !! 0%nat = Some lineT ->
     Solve_lines net 0 0 result !! 0%nat = Some lineS ->
     loss_weight lineT = loss_weight lineS).
Proof.
  intros net result sc.
  assert (Hall : Forall (fun r : list R => length r = 1%nat) result)
    by (repeat constructor).
  split; [exact Hall|].
  intros lineT lineS HT HS.
  destruct evaluation_loss_weight_lookup as [H _].
  destruct (H net result 0%R false 1 0%nat lineT lineS Hall HT HS)
    as (_ & _ & _ & E).
  exact E.
Defined.

(** ** The evaluation pass *)

Lemma Test_frame (param_ : SolverParameter) (Forward : ForwardFn)
    (test_net_id : nat) (w w' : World) (report : TestReport) :
  Test param_ Forward test_net_id w = Ok (w', report) ->
  memory w' = memory w /\ train_net w' = train_net w /\ phase w' = TRAIN /\
  length (test_nets_ w') = length (test_nets_ w) /\
  (forall tn : EvalNet,
     test_nets_ w' !! test_net_id = Some tn ->
     read_weights w' tn = read_weights w (train_net w)).
Proof.
  unfold Test. simpl.
  destruct (at_ (test_nets_ w) test_net_id) as [tn0|msg] eqn:Etn; simpl;
    [|discriminate].
  destruct (at_ (test_iter param_) test_net_id) as [n|msg]; simpl;
    [|discriminate].
  intros H. inversion H; subst w' report; clear H. simpl.
  repeat split.
  - apply length_insert.
  - intros tn Htn.
    unfold at_ in Etn.
    destruct (test_nets_ w !! test_net_id) as [tn1|] eqn:E1; [|discriminate].
    rewrite list_lookup_insert_eq in Htn by (eapply lookup_lt_Some; eauto).
    inversion Htn; subst tn. reflexivity.
Qed.

Lemma Test_returns (param_ : SolverParameter) (Forward : ForwardFn)
    (test_net_id : nat) (w : World) :
  (test_net_id < length (test_nets_ w))%nat ->
  (test_net_id < length (test_iter param_))%nat ->
  exists (w' : World) (report : TestReport),
    Test param_ Forward test_net_id w = Ok (w', report).
Proof.
  intros H1 H2. unfold Test, at_. simpl.
  destruct (lookup_lt_is_Some_2 _ _ H1) as [tn ->].
  destruct (lookup_lt_is_Some_2 _ _ H2) as [n ->].
  simpl. eauto.
Qed.

Lemma Test_passes_frame (param_ : SolverParameter) (Forward : ForwardFn)
    (ids : list nat) :
  forall w : World,
    Forall (fun id => (id < length (test_nets_ w))%nat /\
                      (id < length (test_iter param_))%nat) ids ->
    exists w' : World,
      Test_passes param_ Forward ids w = Ok w' /\
      memory w' = memory w /\ train_net w' = train_net w /\
      length (test_nets_ w') = length (test_nets_ w) /\
      (ids <> [] -> phase w' = TRAIN).
Proof.
  induction ids as [|id ids IH]; intros w Hall; simpl.
  - exists w. repeat split; try reflexivity. congruence.
  - inversion Hall as [|? ? [H1 H2] Hrest]; subst.
    destruct (Test_returns param_ Forward id w H1 H2) as (w1 & report & E).
    rewrite E. simpl.
    destruct (Test_frame _ _ _ _ _ _ E) as (Hm & Ht & Hp & Hl & _).
    destruct (IH w1) as (w' & E' & Hm' & Ht' & Hl' & Hp').
    { rewrite Hl. exact Hrest. }
    exists w'. split; [exact E'|].
    split; [congruence|]. split; [congruence|]. split; [congruence|].
    intros _. destruct ids as [|id' ids'].
    + simpl in E'. inversion E'; subst w'. exact Hp.
    + apply Hp'. discriminate.
Qed.

(** C7. An evaluation pass over an evaluation net returns with the
    memory of the parameter arrays unchanged, so the weights of the
    training net, and those the evaluation net now shares with it, are what
    they were, and with the phase set back to TRAIN; the same holds after
    any number of passes. *)
Theorem Test_read_only (param_ : SolverParameter) (Forward : ForwardFn)
    (w : World) :
  (forall test_net_id : nat,
     (test_net_id < length (test_nets_ w))%nat ->
     (test_net_id < length (test_iter param_))%nat ->
     exists (w' : World) (report : TestReport),
       Test param_ Forward test_net_id w = Ok (w', report) /\
       memory w' = memory w /\
       read_weights w' (train_net w') = read_weights w (train_net w) /\
       (forall tn : EvalNet,
          test_nets_ w' !! test_net_id = Some tn ->
          read_weights w' tn = read_weights w (train_net w)) /\
       phase w' = TRAIN) /\
  (forall ids : list nat,
     Forall (fun id => (id < length (test_nets_ w))%nat /\
                       (id < length (test_iter param_))%nat) ids ->
     exists w' : World,
       Test_passes param_ Forward ids w = Ok w' /\
       memory w' = memory w /\
       read_weights w' (train_net w') = read_weights w (train_net w) /\
       (ids <> [] -> phase w' = TRAIN)).
Proof.
  split.
  - intros test_net_id H1 H2.
    destruct (Test_returns param_ Forward test_net_id w H1 H2) as (w' & report & E).
    destruct (Test_frame _ _ _ _ _ _ E) as (Hm & Ht & Hp & _ & Hs).
    exists w', report. split; [exact E|]. split; [exact Hm|].
    split; [|split; [exact Hs | exact Hp]].
    unfold read_weights. now rewrite Hm, Ht.
  - intros ids Hall.
    destruct (Test_passes_frame param_ Forward ids w Hall)
      as (w' & E & Hm & Ht & _ & Hp).
    exists w'. split; [exact E|]. split; [exact Hm|]. split; [|exact Hp].
    unfold read_weights. now rewrite Hm, Ht.
Qed.

Lemma Test_read_only_witness :
  (0 < length (test_nets_ eval_world))%nat /\
  (0 < length (test_iter eval_param))%nat /\
  (exists (w' : World) (report : TestReport),
     Test eval_param echo_forward 0 eval_world = Ok (w', report) /\
     memory w' = [[(1 / 2)%R; 2%R]; [0%R; 0%R]] /\
     phase w' = TRAIN) /\
  (exists w' : World,
     Test_passes eval_param echo_forward [0; 0]%nat eval_world = Ok w' /\
     memory w' = [[(1 / 2)%R; 2%R]; [0%R; 0%R]] /\
     phase w' = TRAIN).
Proof.
  split; [simpl; lia|]. split; [simpl; lia|].
  destruct (Test_read_only eval_param echo_forward eval_world) as [H Hmany].
  split.
  - destruct (H 0%nat) as (w' & report & E & Hm & _ & _ & Hp);
      [simpl; lia | simpl; lia |].
    exists w', report. split; [exact E|]. split; [exact Hm | exact Hp].
  - destruct (Hmany [0; 0]%nat) as (w' & E & Hm & _ & Hp).
    { repeat constructor; simpl; lia. }
    exists w'. split; [exact E|]. split; [exact Hm|].
    apply Hp. discriminate.
Defined.

(** ** Snapshot and Restore *)

Lemma string_length_app (s1 s2 : string) :
  String.length (s1 ++ s2) = (String.length s1 + String.length s2)%nat.
Proof. induction s1 as [|c s1 IH]; simpl; [reflexivity | now rewrite IH]. Qed.

Lemma state_file_differs (filename : string) :
  (filename ++ ".solverstate")%string <> filename.
Proof.
  intros E. apply (f_equal String.length) in E.
  rewrite string_length_app in E. simpl in E. lia.
Qed.

Lemma data_zip_FromProto (bs : list Blob) :
  forall protos : list BlobProto,
    length bs = length protos ->
    map cpu_data (zip_with Blob_FromProto bs protos) = map proto_data protos.
Proof.
  induction bs as [|b bs IH]; intros [|p protos] H; simpl in *;
    try reflexivity; try discriminate.
  f_equal. apply IH. lia.
Qed.

Lemma length_zero_like (ps : list Blob) : length (zero_like ps) = length ps.
Proof. unfold zero_like. apply length_map. Qed.

(** The number of history blobs a rule allocates. *)
Lemma PreSolve_history_length (ty : SolverType) (s : SGDSolver) :
  length (history_ (PreSolve ty s))
  = match ty with
    | AdaDelta => (2 * length (params (net_ s)))%nat
    | _ => length (params (net_ s))
    end.
Proof.
  destruct ty; simpl; rewrite ?length_app, !length_zero_like; lia.
Qed.

Lemma Snapshot_files (s : SGDSolver) (fs : gmap string File) :
  Snapshot s fs !! model_filename s
  = Some (NetFile (Net_ToProto (net_ s) (snapshot_diff (param_ s)))) /\
  Snapshot s fs !! (model_filename s ++ ".solverstate")%string
  = Some (StateFile {| state_iter := iter_ s; has_learned_net := true;
                       learned_net := model_filename s;
                       history := SnapshotSolverState s |}).
Proof.
  unfold Snapshot, WriteProtoToBinaryFile. split.
  - rewrite lookup_insert_ne by apply state_file_differs.
    apply lookup_insert_eq.
  - apply lookup_insert_eq.
Qed.

Lemma Restore_spec (s : SGDSolver) (fs : gmap string File)
    (state_file : string) (state : SolverState) (net' : Net) :
  fs !! state_file = Some (StateFile state) ->
  (if has_learned_net state
   then exists net_param : NetParameter,
          fs !! learned_net state = Some (NetFile net_param) /\
          net' = Net_CopyTrainedLayersFrom (net_ s) net_param
   else net' = net_ s) ->
  Restore s fs state_file
  = if Nat.eqb (length (history state)) (length (history_ s))
    then Ok {| param_ := param_ s; iter_ := state_iter state; net_ := net';
               history_ := zip_with Blob_FromProto (history_ s) (history state);
               update_ := update_ s; temp_ := temp_ s |}
    else Fatal "Check failed: state.history_size() == history_.size() Incorrect length of history blobs.".
Proof.
  intros Hst Hnet. unfold Restore, ReadSolverState. rewrite Hst. simpl.
  destruct (has_learned_net state).
  - destruct Hnet as (net_param & Hf & ->).
    unfold ReadNetParameter. rewrite Hf. simpl.
    unfold RestoreSolverState. simpl.
    destruct (Nat.eqb _ _); reflexivity.
  - subst net'. unfold RestoreSolverState. simpl.
    destruct (Nat.eqb _ _); [|reflexivity].
    destruct s; reflexivity.
Qed.

(** C6 (as the code has it). Given a state file, and the model file it
    names when it names one: Restore is fatal exactly when the number of
    stored history blobs differs from the number of history blobs of the
    solver, which PreSolve made one per parameter, and two per parameter
    for AdaDelta.  Otherwise it sets the iteration to the stored one, takes
    the history from the state file, and overwrites the weights of the net
    from the model file when the state names one, leaving the net as it is
    when it does not. *)
Theorem Restore_state_file (s : SGDSolver) (fs : gmap string File)
    (state_file : string) (state : SolverState) (net' : Net) :
  fs !! state_file = Some (StateFile state) ->
  (if has_learned_net state
   then exists net_param : NetParameter,
          fs !! learned_net state = Some (NetFile net_param) /\
          net' = Net_CopyTrainedLayersFrom (net_ s) net_param
   else net' = net_ s) ->
  (is_Fatal (Restore s fs state_file)
   <-> length (history state) <> length (history_ s)) /\
  (length (history state) = length (history_ s) ->
   exists s' : SGDSolver,
     Restore s fs state_file = Ok s' /\
     iter_ s' = state_iter state /\
     net_ s' = net' /\
     history_ s' = zip_with Blob_FromProto (history_ s) (history state)) /\
  (forall (ty : SolverType) (s0 : SGDSolver),
     s = set_iter (PreSolve ty s0) 0 ->
     length (history_ s)
     = match ty with
       | AdaDelta => (2 * length (params (net_ s)))%nat
       | _ => length (params (net_ s))
       end).
Proof.
  intros Hst Hnet. rewrite (Restore_spec s fs state_file state net' Hst Hnet).
  split; [|split].
  - destruct (Nat.eqb_spec (length (history state)) (length (history_ s)));
      simpl; split; intros H; try assumption; try exact I; contradiction.
  - intros E. rewrite (proj2 (Nat.eqb_eq _ _) E).
    eexists. split; [reflexivity|]. simpl. auto.
  - intros ty s0 ->. simpl history_.
    rewrite PreSolve_history_length. destruct ty; reflexivity.
Qed.

Lemma Restore_state_file_witness :
  let s := set_iter (PreSolve AdaDelta fresh_solver) 0 in
  let s1 := set_iter (PreSolve SGD fresh_solver) 0 in
  let fs := Snapshot trained_solver ∅ in
  (exists s' : SGDSolver,
     Restore s fs "lenet_iter_6.caffemodel.solverstate" = Ok s' /\
     iter_ s' = 6 /\
     map cpu_data (params (net_ s')) = [[(1 / 4)%R; (3 / 4)%R]] /\
     map cpu_data (history_ s') = [[1%R; 2%R]; [3%R; 4%R]]) /\
  is_Fatal (Restore s1 fs "lenet_iter_6.caffemodel.solverstate") /\
  length (history_ s) = 2%nat /\ length (history_ s1) = 1%nat.
Proof.
  intros s s1 fs.
  destruct (Snapshot_files trained_solver ∅) as [Hm Hs].
  destruct (Restore_state_file s fs "lenet_iter_6.caffemodel.solverstate" _
              (Net_CopyTrainedLayersFrom (net_ s)
                 (Net_ToProto (net_ trained_solver) false)) Hs)
    as (_ & H & Hlen).
  { simpl. eexists. split; [exact Hm | reflexivity]. }
  destruct (Restore_state_file s1 fs "lenet_iter_6.caffemodel.solverstate" _
              (Net_CopyTrainedLayersFrom (net_ s1)
                 (Net_ToProto (net_ trained_solver) false)) Hs)
    as (Hfatal & _ & Hlen1).
  { simpl. eexists. split; [exact Hm | reflexivity]. }
  split; [|split; [|split]].
  - destruct H as (s' & E & Hit & Hnet & Hh); [reflexivity|].
    exists s'. split; [exact E|]. split; [exact Hit|].
    split; [rewrite Hnet | rewrite Hh]; reflexivity.
  - apply Hfatal. simpl. lia.
  - exact (Hlen AdaDelta fresh_solver eq_refl).
  - exact (Hlen1 SGD fresh_solver eq_refl).
Defined.

(** C6 as stated fails for AdaDelta: with one parameter, the state file
    that AdaDelta itself wrote has two history blobs, which is not the
    number of parameters, and Restore does not fail. *)
Lemma Restore_AdaDelta_history_count :
  let s := set_iter (PreSolve AdaDelta fresh_solver) 0 in
  let fs := Snapshot trained_solver ∅ in
  exists state : SolverState,
    fs !! "lenet_iter_6.caffemodel.solverstate" = Some (StateFile state) /\
    length (history state) = 2%nat /\
    length (params (net_ s)) = 1%nat /\
    ~ is_Fatal (Restore s fs "lenet_iter_6.caffemodel.solverstate").
Proof.
  intros s fs.
  destruct (Snapshot_files trained_solver ∅) as [Hm Hs].
  eexists. split; [exact Hs|]. split; [reflexivity|]. split; [reflexivity|].
  assert (E := Restore_spec s fs _ _
                 (Net_CopyTrainedLayersFrom (net_ s)
                    (Net_ToProto (net_ trained_solver) false)) Hs).
  change (model_filename trained_solver ++ ".solverstate")%string
    with "lenet_iter_6.caffemodel.solverstate" in E.
  rewrite E.
  - simpl. auto.
  - simpl. eexists. split; [exact Hm | reflexivity].
Qed.

(** C5. A snapshot at iteration [N] writes the model file
    [<prefix>_iter_<N>.caffemodel] and the state file
    [<model file>.solverstate], which holds [N], the history blobs in
    order and the name of the model file.  Resuming a fresh solver of the
    same rule and with as many parameters from that state file gives
    iteration [N], the weights of the net and the history buffers of the
    moment of the snapshot. *)
Theorem Snapshot_Restore_roundtrip (ty : SolverType) (s fresh : SGDSolver)
    (fs : gmap string File) :
  length (history_ s) = length (history_ (PreSolve ty s)) ->
  length (params (net_ fresh)) = length (params (net_ s)) ->
  let model :=
    (snapshot_prefix (param_ s) ++ "_iter_" ++ format_int (iter_ s)
     ++ ".caffemodel")%string in
  let state_file := (model ++ ".solverstate")%string in
  Snapshot s fs !! model
  = Some (NetFile (Net_ToProto (net_ s) (snapshot_diff (param_ s)))) /\
  Snapshot s fs !! state_file
  = Some (StateFile {| state_iter := iter_ s; has_learned_net := true;
                       learned_net := model;
                       history := map (fun h => Blob_ToProto h false) (history_ s) |}) /\
  exists s' : SGDSolver,
    Solve_resume ty fresh (Snapshot s fs) (Some state_file) = Ok s' /\
    iter_ s' = iter_ s /\
    map cpu_data (params (net_ s')) = map cpu_data (params (net_ s)) /\
    map cpu_data (history_ s') = map cpu_data (history_ s).
Proof.
  intros Hh Hp model state_file. subst state_file model.
  fold (model_filename s).
  destruct (Snapshot_files s fs) as [Hm Hs].
  split; [exact Hm|]. split; [exact Hs|].
  unfold Solve_resume.
  set (s0 := set_iter (PreSolve ty fresh) 0).
  assert (Hnet0 : net_ s0 = net_ fresh) by (destruct ty; reflexivity).
  assert (Hlen : length (history_ s0) = length (history_ s)).
  { unfold s0. simpl history_. rewrite Hh, !PreSolve_history_length.
    rewrite Hp. reflexivity. }
  rewrite (Restore_spec s0 (Snapshot s fs) _ _
             (Net_CopyTrainedLayersFrom (net_ s0)
                (Net_ToProto (net_ s) (snapshot_diff (param_ s)))) Hs).
  - simpl history. unfold SnapshotSolverState. rewrite length_map, Hlen.
    rewrite Nat.eqb_refl. eexists. split; [reflexivity|]. simpl.
    split; [reflexivity|]. split.
    + change (net_ (PreSolve ty fresh)) with (net_ s0). rewrite Hnet0.
      unfold Net_ToProto. rewrite length_map.
      rewrite drop_ge by lia. rewrite app_nil_r.
      rewrite data_zip_FromProto by (now rewrite length_map).
      rewrite map_map. reflexivity.
    + change (history_ (PreSolve ty fresh)) with (history_ s0).
      rewrite data_zip_FromProto by (now rewrite length_map).
      rewrite map_map. reflexivity.
  - simpl. eexists. split; [exact Hm | reflexivity].
Qed.

Lemma Snapshot_Restore_roundtrip_witness :
  length (history_ trained_solver)
  = length (history_ (PreSolve AdaDelta trained_solver)) /\
  length (params (net_ fresh_solver)) = length (params (net_ trained_solver)) /\
  exists s' : SGDSolver,
    Solve_resume AdaDelta fresh_solver (Snapshot trained_solver ∅)
      (Some "lenet_iter_6.caffemodel.solverstate") = Ok s' /\
    iter_ s' = 6 /\
    map cpu_data (params (net_ s')) = [[(1 / 4)%R; (3 / 4)%R]] /\
    map cpu_data (history_ s') = [[1%R; 2%R]; [3%R; 4%R]].
Proof.
  split; [reflexivity|]. split; [reflexivity|].
  destruct (Snapshot_Restore_roundtrip AdaDelta trained_solver fresh_solver ∅)
    as (_ & _ & s' & E & Hit & Hw & Hh); [reflexivity | reflexivity |].
  exists s'. split; [exact E|]. split; [exact Hit|]. split; [exact Hw | exact Hh].
Defined.

(** ** Reading and writing the arrays *)

Lemma at_alter {A : Type} (f : A -> A) (l : list A) (i j : nat) :
  at_ (alter f i l) j
  = if decide (i = j) then do a <- at_ l i; Ok (f a) else at_ l j.
Proof.
  unfold at_. rewrite list_lookup_alter.
  destruct (decide (i = j)) as [->|]; [|reflexivity].
  destruct (l !! j); reflexivity.
Qed.

Lemma read_write (s : SGDSolver) (b b' : Buf) (v : list Dtype) :
  read (write s b v) b'
  = if decide (b = b')
    then match read s b with Ok _ => Ok v | Fatal msg => Fatal msg end
    else read s b'.
Proof.
  destruct b as [i|i|i|i|i], b' as [j|j|j|j|j]; simpl; rewrite ?at_alter;
    repeat case_decide; simplify_eq; try congruence; try reflexivity;
    match goal with
    | |- context [at_ ?l ?k] => destruct (at_ l k); reflexivity
    end.
Qed.

Lemma write_lr (s : SGDSolver) (b : Buf) (v : list Dtype) :
  params_lr (net_ (write s b v)) = params_lr (net_ s) /\
  params_weight_decay (net_ (write s b v)) = params_weight_decay (net_ s) /\
  length (params (net_ (write s b v))) = length (params (net_ s)).
Proof.
  destruct b; simpl; rewrite ?length_alter; auto.
Qed.

(** ** The kernels, element by element *)

Lemma into_vec (N : nat) (new old : list Dtype) (f : nat -> Dtype) :
  vec N new f -> length old = N -> vec N (into N new old) f.
Proof.
  intros [Hl Hf] Ho. unfold into.
  rewrite take_ge by lia. rewrite drop_ge by lia. rewrite app_nil_r.
  now split.
Qed.

Lemma zip_with_vec (N : nat) (g : Dtype -> Dtype -> Dtype)
    (X Y : list Dtype) (fx fy : nat -> Dtype) :
  vec N X fx -> vec N Y fy -> vec N (zip_with g X Y) (fun j => g (fx j) (fy j)).
Proof.
  intros [Hlx Hx] [Hly Hy]. split.
  - rewrite length_zip_with. lia.
  - intros j Hj. rewrite lookup_zip_with, (Hx j Hj), (Hy j Hj). reflexivity.
Qed.

Lemma map_vec (N : nat) (g : Dtype -> Dtype) (X : list Dtype)
    (fx : nat -> Dtype) :
  vec N X fx -> vec N (map g X) (fun j => g (fx j)).
Proof.
  intros [Hlx Hx]. split.
  - now rewrite length_map.
  - intros j Hj. change (map g X) with (g <$> X).
    rewrite list_lookup_fmap, (Hx j Hj). reflexivity.
Qed.

Lemma replicate_vec (N : nat) (a : Dtype) : vec N (replicate N a) (fun _ => a).
Proof.
  split; [apply length_replicate|].
  intros j Hj. now apply lookup_replicate_2.
Qed.

Lemma vec_ext (N : nat) (v : list Dtype) (f g : nat -> Dtype) :
  vec N v f -> (forall j : nat, (j < N)%nat -> f j = g j) -> vec N v g.
Proof.
  intros [Hl Hf] E. split; [assumption|].
  intros j Hj. rewrite <- E by assumption. now apply Hf.
Qed.

Lemma powx_2 (a : Dtype) : powx a 2 = (a * a)%R.
Proof. unfold powx. destruct (Req_dec_T 2 2); [reflexivity | contradiction]. Qed.

Lemma powx_half (a : Dtype) : powx a (1 / 2) = sqrt a.
Proof.
  unfold powx. destruct (Req_dec_T (1 / 2) 2) as [E|_]; [lra|].
  destruct (Req_dec_T (1 / 2) (1 / 2)); [reflexivity | contradiction].
Qed.

Section Kernels.
Context (N : nat) (X Y A B : list Dtype) (fx fy fa fb : nat -> Dtype).
Context (HX : vec N X fx) (HY : vec N Y fy) (HA : vec N A fa) (HB : vec N B fb).

Lemma axpy_vec (alpha : Dtype) :
  vec N (caffe_axpy N alpha X Y) (fun j => alpha * fx j + fy j)%R.
Proof.
  apply into_vec; [|apply HY].
  exact (zip_with_vec N _ X Y fx fy HX HY).
Qed.

Lemma axpby_vec (alpha beta : Dtype) :
  vec N (caffe_cpu_axpby N alpha X beta Y)
    (fun j => alpha * fx j + beta * fy j)%R.
Proof.
  apply into_vec; [|apply HY].
  exact (zip_with_vec N _ X Y fx fy HX HY).
Qed.

Lemma sign_vec : vec N (caffe_cpu_sign N X Y) (fun j => Dtype_sign (fx j)).
Proof. apply into_vec; [|apply HY]. now apply map_vec. Qed.

Lemma copy_vec : vec N (caffe_copy N X Y) fx.
Proof. apply into_vec; [exact HX | apply HY]. Qed.

Lemma powx_vec (b : Dtype) :
  vec N (caffe_powx N X b Y) (fun j => powx (fx j) b).
Proof. apply into_vec; [|apply HY]. exact (map_vec N _ X fx HX). Qed.

Lemma add_vec : vec N (caffe_add N A B Y) (fun j => fa j + fb j)%R.
Proof.
  apply into_vec; [|apply HY]. exact (zip_with_vec N Rplus A B fa fb HA HB).
Qed.

Lemma mul_vec : vec N (caffe_mul N A B Y) (fun j => fa j * fb j)%R.
Proof.
  apply into_vec; [|apply HY]. exact (zip_with_vec N Rmult A B fa fb HA HB).
Qed.

Lemma div_vec : vec N (caffe_div N A B Y) (fun j => fa j / fb j)%R.
Proof.
  apply into_vec; [|apply HY]. exact (zip_with_vec N Rdiv A B fa fb HA HB).
Qed.

Lemma add_scalar_vec (alpha : Dtype) :
  vec N (caffe_add_scalar N alpha Y) (fun j => fy j + alpha)%R.
Proof. apply into_vec; [|apply HY]. exact (map_vec N _ Y fy HY). Qed.

Lemma set_vec (alpha : Dtype) : vec N (caffe_set N alpha Y) (fun _ => alpha).
Proof. apply into_vec; [apply replicate_vec | apply HY]. Qed.
End Kernels.

(** ** One kernel call on the solver's arrays *)

Lemma framed_refl (n i : nat) (s : SGDSolver) : framed n i s s.
Proof. repeat split. Qed.

Lemma framed_write (n i : nat) (s0 s : SGDSolver) (Y : Buf) (v : list Dtype) :
  owner n Y = i -> framed n i s0 s -> framed n i s0 (write s Y v).
Proof.
  intros HY (Hlr & Hwd & Hlen & Hfr).
  destruct (write_lr s Y v) as (E1 & E2 & E3).
  split; [congruence|]. split; [congruence|]. split; [congruence|].
  intros b Hb. rewrite read_write.
  rewrite decide_False by (intros ->; contradiction).
  now apply Hfr.
Qed.

Lemma models_write (N : nat) (s : SGDSolver) (Y : Buf) (v y : list Dtype)
    (f : nat -> Dtype) :
  read s Y = Ok y -> vec N v f -> models N (write s Y v) Y f.
Proof.
  intros Hy Hv. exists v. split; [|assumption].
  rewrite read_write, decide_True by reflexivity. now rewrite Hy.
Qed.

Lemma models_frame (N : nat) (s s' : SGDSolver) (b : Buf) (f : nat -> Dtype) :
  models N s b f -> read s' b = read s b -> models N s' b f.
Proof. intros (v & Hr & Hv) E. exists v. split; [congruence | assumption]. Qed.

Section Calls.
Context (n i N : nat) (s0 s : SGDSolver) (Hfr : framed n i s0 s).

Lemma call1_step (k : list Dtype -> list Dtype) (Y : Buf)
    (fy fz : nat -> Dtype) :
  owner n Y = i -> models N s Y fy ->
  (forall y : list Dtype, vec N y fy -> vec N (k y) fz) ->
  exists s' : SGDSolver,
    call1 k Y s = Ok s' /\ models N s' Y fz /\
    (forall b : Buf, b <> Y -> read s' b = read s b) /\ framed n i s0 s'.
Proof.
  intros HY (y & Hy & Hvy) Hk. unfold call1. rewrite Hy. simpl.
  eexists. split; [reflexivity|]. split; [|split].
  - eapply models_write; eauto.
  - intros b Hb. rewrite read_write. now rewrite decide_False by congruence.
  - now apply framed_write.
Qed.

Lemma call2_step (k : list Dtype -> list Dtype -> list Dtype) (X Y : Buf)
    (fx fy fz : nat -> Dtype) :
  owner n Y = i -> models N s X fx -> models N s Y fy ->
  (forall x y : list Dtype, vec N x fx -> vec N y fy -> vec N (k x y) fz) ->
  exists s' : SGDSolver,
    call2 k X Y s = Ok s' /\ models N s' Y fz /\
    (forall b : Buf, b <> Y -> read s' b = read s b) /\ framed n i s0 s'.
Proof.
  intros HY (x & Hx & Hvx) (y & Hy & Hvy) Hk. unfold call2.
  rewrite Hx, Hy. simpl.
  eexists. split; [reflexivity|]. split; [|split].
  - eapply models_write; eauto.
  - intros b Hb. rewrite read_write. now rewrite decide_False by congruence.
  - now apply framed_write.
Qed.

Lemma call3_step (k : list Dtype -> list Dtype -> list Dtype -> list Dtype)
    (A B Y : Buf) (fa fb fy fz : nat -> Dtype) :
  owner n Y = i -> models N s A fa -> models N s B fb -> models N s Y fy ->
  (forall a b y : list Dtype,
     vec N a fa -> vec N b fb -> vec N y fy -> vec N (k a b y) fz) ->
  exists s' : SGDSolver,
    call3 k A B Y s = Ok s' /\ models N s' Y fz /\
    (forall b : Buf, b <> Y -> read s' b = read s b) /\ framed n i s0 s'.
Proof.
  intros HY (a & Ha & Hva) (b & Hb & Hvb) (y & Hy & Hvy) Hk. unfold call3.
  rewrite Ha, Hb, Hy. simpl.
  eexists. split; [reflexivity|]. split; [|split].
  - eapply models_write; eauto.
  - intros b' Hb'. rewrite read_write. now rewrite decide_False by congruence.
  - now apply framed_write.
Qed.
End Calls.

Lemma owner_offset (n i : nat) : owner n (HistoryData (n + i)) = i.
Proof.
  simpl. destruct (Nat.ltb_spec (n + i) n); lia.
Qed.

Lemma owner_history (n i : nat) : (i < n)%nat -> owner n (HistoryData i) = i.
Proof.
  intros H. simpl. destruct (Nat.ltb_spec i n); lia.
Qed.

Lemma param_count_read (s : SGDSolver) (i : nat) (w : list Dtype) :
  read s (ParamData i) = Ok w -> param_count s i = Ok (length w).
Proof.
  unfold param_count. simpl.
  destruct (at_ (params (net_ s)) i) as [p|msg]; simpl; [|discriminate].
  intros H. inversion H. reflexivity.
Qed.

Lemma at_lookup {A : Type} (l : list A) (i : nat) (a : A) :
  l !! i = Some a -> at_ l i = Ok a.
Proof. unfold at_. now intros ->. Qed.

(** ** The loop bodies on the arrays of one parameter *)

Lemma models_ext (N : nat) (s : SGDSolver) (b : Buf) (f g : nat -> Dtype) :
  models N s b f -> (forall j : nat, f j = g j) -> models N s b g.
Proof.
  intros (v & Hr & Hv) E. exists v. split; [assumption|].
  eapply vec_ext; eauto.
Qed.

Ltac solve_owner :=
  first [reflexivity | apply owner_offset | (apply owner_history; assumption)].

Ltac kern lem := intros; cbv beta; eapply lem; eassumption.

Ltac carry Hf :=
  repeat match goal with
  | H : models ?N ?s ?b ?f |- _ =>
      match type of Hf with
      | forall b0, _ -> read ?s' b0 = read s b0 =>
          first [ let H' := fresh "M" in
                  assert (H' : models N s' b f)
                    by (apply (models_frame N s s' b f H); apply Hf;
                        first [discriminate | intros [=]; lia])
                | idtac ];
          clear H
      end
  end.

Ltac next lem :=
  match goal with
  | Hfr : framed ?n ?i ?s0 ?s, M0 : models ?N ?s _ _ |- context [call1 ?k ?Y ?s] =>
      let s' := fresh "s" in let E := fresh "E" in let M := fresh "M" in
      let Hf := fresh "Hf" in let Hfr' := fresh "Hfr" in
      edestruct (call1_step n i N s0 s Hfr k Y) as (s' & E & M & Hf & Hfr');
      [ solve_owner | eassumption | kern lem | ];
      rewrite E; cbn [bind]; carry Hf; clear Hfr Hf E
  | Hfr : framed ?n ?i ?s0 ?s, M0 : models ?N ?s _ _ |- context [call2 ?k ?X ?Y ?s] =>
      let s' := fresh "s" in let E := fresh "E" in let M := fresh "M" in
      let Hf := fresh "Hf" in let Hfr' := fresh "Hfr" in
      edestruct (call2_step n i N s0 s Hfr k X Y) as (s' & E & M & Hf & Hfr');
      [ solve_owner | eassumption | eassumption | kern lem | ];
      rewrite E; cbn [bind]; carry Hf; clear Hfr Hf E
  | Hfr : framed ?n ?i ?s0 ?s, M0 : models ?N ?s _ _ |- context [call3 ?k ?A ?B ?Y ?s] =>
      let s' := fresh "s" in let E := fresh "E" in let M := fresh "M" in
      let Hf := fresh "Hf" in let Hfr' := fresh "Hfr" in
      edestruct (call3_step n i N s0 s Hfr k A B Y) as (s' & E & M & Hf & Hfr');
      [ solve_owner | eassumption | eassumption | eassumption | kern lem | ];
      rewrite E; cbn [bind]; carry Hf; clear Hfr Hf E
  end.

Lemma Regularize_step (n i N : nat) (s0 s : SGDSolver) (reg : string)
    (ld : Dtype) (fw fd ft : nat -> Dtype) :
  framed n i s0 s -> reg = "L2" \/ reg = "L1" ->
  models N s (ParamData i) fw -> models N s (ParamDiff i) fd ->
  models N s (TempData i) ft ->
  exists (s' : SGDSolver) (ft' : nat -> Dtype),
    Regularize reg N ld i s = Ok s' /\
    models N s' (ParamDiff i) (fun j => decayed_gradient reg ld (fw j) (fd j)) /\
    models N s' (TempData i) ft' /\
    (forall b : Buf, b <> ParamDiff i -> b <> TempData i ->
                     read s' b = read s b) /\
    framed n i s0 s'.
Proof.
  intros Hfr Hreg Mw Md Mt. unfold Regularize, decayed_gradient.
  destruct (Dtype_nonzero ld).
  - destruct Hreg as [-> | ->]; cbn [String.eqb Ascii.eqb Bool.eqb].
    + pose proof Mw as Mw0. pose proof Mt as Mt0.
      destruct (call2_step n i N s0 s Hfr (caffe_axpy N ld)
                  (ParamData i) (ParamDiff i) fw fd _ eq_refl Mw Md
                  (fun x y hx hy => axpy_vec N x y fw fd hx hy ld))
        as (s' & E & M & Hf & Hfr').
      exists s', ft. split; [exact E|]. split; [exact M|]. split; [|split].
      * apply (models_frame N s s' _ _ Mt). apply Hf. discriminate.
      * intros b Hb _. now apply Hf.
      * exact Hfr'.
    + destruct (call2_step n i N s0 s Hfr (caffe_cpu_sign N)
                  (ParamData i) (TempData i) fw ft _ eq_refl Mw Mt
                  (fun x y hx hy => sign_vec N x y fw ft hx hy))
        as (s1 & E1 & M1 & Hf1 & Hfr1).
      rewrite E1. cbn [bind].
      assert (Md1 : models N s1 (ParamDiff i) fd)
        by (apply (models_frame N s s1 _ _ Md); apply Hf1; discriminate).
      destruct (call2_step n i N s0 s1 Hfr1 (caffe_axpy N ld)
                  (TempData i) (ParamDiff i) _ fd _ eq_refl M1 Md1
                  (fun x y hx hy => axpy_vec N x y _ fd hx hy ld))
        as (s' & E & M & Hf & Hfr').
      exists s', (fun j => Dtype_sign (fw j)).
      split; [exact E|]. split; [exact M|]. split; [|split].
      * apply (models_frame N s1 s' _ _ M1). apply Hf. discriminate.
      * intros b Hb Hb'. rewrite Hf by assumption. now apply Hf1.
      * exact Hfr'.
  - exists s, ft. split; [reflexivity|]. split; [exact Md|].
    split; [exact Mt|]. split; [reflexivity | exact Hfr].
Qed.

Lemma AdaDelta_body_spec (n i N : nat) (s0 s : SGDSolver)
    (rate delta momentum weight_decay : Dtype) (reg : string)
    (fw fd f1 f2 fu ft : nat -> Dtype) (lr wd : Dtype) :
  (i < n)%nat -> framed n i s0 s -> reg = "L2" \/ reg = "L1" ->
  models N s (ParamData i) fw -> models N s (ParamDiff i) fd ->
  models N s (HistoryData i) f1 -> models N s (HistoryData (n + i)) f2 ->
  models N s (UpdateData i) fu -> models N s (TempData i) ft ->
  params_lr (net_ s) !! i = Some lr ->
  params_weight_decay (net_ s) !! i = Some wd ->
  let g := fun j => decayed_gradient reg (weight_decay * wd) (fw j) (fd j) in
  let grad_h' := fun j => spec_grad_h momentum (g j) (f1 j) in
  let delta_upd := fun j => spec_delta_upd delta (g j) (f2 j) (grad_h' j) in
  exists s' : SGDSolver,
    AdaDelta_body rate delta momentum weight_decay reg n i s = Ok s' /\
    framed n i s0 s' /\
    models N s' (ParamData i) fw /\
    models N s' (HistoryData i) grad_h' /\
    models N s' (HistoryData (n + i))
      (fun j => spec_update_h momentum (delta_upd j) (f2 j)) /\
    models N s' (ParamDiff i) (fun j => rate * lr * delta_upd j)%R.
Proof.
  intros Hi Hfr Hreg Mw Md M1 M2 Mu Mt Hlr Hwd g grad_h' delta_upd.
  unfold AdaDelta_body.
  destruct Mw as (w & Hw & Hvw).
  rewrite (param_count_read s i w Hw). cbn [bind].
  rewrite (at_lookup _ _ _ Hlr), (at_lookup _ _ _ Hwd). cbn [bind].
  assert (Mw : models N s (ParamData i) fw) by (exists w; now split).
  replace (length w) with N by (symmetry; apply Hvw).
  destruct (Regularize_step n i N s0 s reg (weight_decay * wd)%R fw fd ft
              Hfr Hreg Mw Md Mt) as (s1 & ft1 & E1 & Mg & Mt1 & Hf1 & Hfr1).
  rewrite E1. cbn [bind].
  assert (Mw1 : models N s1 (ParamData i) fw)
    by (apply (models_frame N s s1 _ _ Mw); apply Hf1; discriminate).
  assert (M11 : models N s1 (HistoryData i) f1)
    by (apply (models_frame N s s1 _ _ M1); apply Hf1; discriminate).
  assert (M21 : models N s1 (HistoryData (n + i)) f2)
    by (apply (models_frame N s s1 _ _ M2); apply Hf1; discriminate).
  assert (Mu1 : models N s1 (UpdateData i) fu)
    by (apply (models_frame N s s1 _ _ Mu); apply Hf1; discriminate).
  clear Hfr Mw Md M1 M2 Mu Mt Hf1 E1 Hw Hvw Hlr Hwd.
  next powx_vec. next axpby_vec. next set_vec. next add_vec. next add_vec.
  next div_vec. next powx_vec. next mul_vec. next powx_vec. next axpby_vec.
  next axpby_vec. next copy_vec.
  eexists. split; [reflexivity|]. split; [assumption|].
  split; [assumption|].
  split; [|split].
  - eapply models_ext; [eassumption|].
    intros j. unfold grad_h', spec_grad_h, g. now rewrite powx_2.
  - eapply models_ext; [eassumption|].
    intros j. unfold delta_upd, spec_update_h, spec_delta_upd, grad_h', spec_grad_h, g.
    rewrite !powx_2, powx_half.
    rewrite (Rplus_comm delta (f2 j)).
    rewrite (Rplus_comm delta (_ + _)%R).
    rewrite (Rmult_comm (decayed_gradient _ _ _ _) (sqrt _)).
    reflexivity.
  - eapply models_ext; [eassumption|].
    intros j. unfold delta_upd, spec_delta_upd, grad_h', spec_grad_h, g.
    rewrite !powx_2, powx_half.
    rewrite (Rplus_comm delta (f2 j)).
    rewrite (Rplus_comm delta (_ + _)%R).
    rewrite (Rmult_comm (decayed_gradient _ _ _ _) (sqrt _)).
    lra.
Qed.

(** ** The loop over the parameters *)

Lemma models_arr (N : nat) (s0 s : SGDSolver) (b : Buf) (v : list Dtype) :
  read s0 b = Ok v -> read s b = read s0 b -> length v = N ->
  models N s b (arr s0 b).
Proof.
  intros H0 E Hl. exists v. split; [congruence|]. split; [assumption|].
  intros j Hj. unfold arr. rewrite H0.
  rewrite <- Hl in Hj. destruct (lookup_lt_is_Some_2 v j Hj) as [x Hx].
  rewrite Hx. f_equal. symmetry. now apply nth_lookup_Some.
Qed.

Lemma owner_cases (n i : nat) :
  (i < n)%nat ->
  owner n (ParamData i) = i /\ owner n (ParamDiff i) = i /\
  owner n (HistoryData i) = i /\ owner n (HistoryData (n + i)) = i /\
  owner n (UpdateData i) = i /\ owner n (TempData i) = i.
Proof.
  intros H. repeat split; try reflexivity;
    [now apply owner_history | apply owner_offset].
Qed.

Lemma AdaDelta_loop (n : nat) (rate delta momentum weight_decay : Dtype)
    (reg : string) (s0 : SGDSolver) :
  shaped n s0 -> reg = "L2" \/ reg = "L1" ->
  forall (m k : nat) (s : SGDSolver),
    (k + m = n)%nat ->
    params_lr (net_ s) = params_lr (net_ s0) ->
    params_weight_decay (net_ s) = params_weight_decay (net_ s0) ->
    (forall b : Buf, (k <= owner n b)%nat -> read s b = read s0 b) ->
    (forall i : nat, (i < k)%nat ->
       AdaDelta_post n rate delta momentum weight_decay reg s0 s i) ->
    exists s' : SGDSolver,
      for_params (AdaDelta_body rate delta momentum weight_decay reg n) m k s
      = Ok s' /\
      forall i : nat, (i < n)%nat ->
        AdaDelta_post n rate delta momentum weight_decay reg s0 s' i.
Proof.
  intros [Hn Hsh] Hreg. induction m as [|m IH]; intros k s Hk Hlr Hwd Hsame Hdone.
  - exists s. split; [reflexivity|]. intros i Hi. apply Hdone. lia.
  - cbn [for_params].
    assert (Hkn : (k < n)%nat) by lia.
    destruct (Hsh k Hkn) as (w & d & h1 & h2 & u & t & lr & wd & A).
    destruct A as [Aw Ad A1 A2 Au At Alr Awd Ld L1 L2 Lu Lt].
    destruct (owner_cases n k Hkn) as (Ow & Od & O1 & O2 & Ou & Ot).
    assert (HN : psize s0 k = length w) by (unfold psize; now rewrite Aw).
    destruct (AdaDelta_body_spec n k (length w) s s rate delta momentum
                weight_decay reg
                (arr s0 (ParamData k)) (arr s0 (ParamDiff k))
                (arr s0 (HistoryData k)) (arr s0 (HistoryData (n + k)))
                (arr s0 (UpdateData k)) (arr s0 (TempData k)) lr wd)
      as (s1 & E & Hfr & Mw & M1 & M2 & Md);
      try assumption; try congruence; try (apply framed_refl);
      try (eapply models_arr; [eassumption | apply Hsame; lia | assumption || reflexivity]).
    rewrite E. cbn [bind].
    destruct Hfr as (Hlr1 & Hwd1 & _ & Hfr).
    destruct (IH (S k) s1) as (s' & E' & Hpost); try lia; try congruence.
    + intros b Hb. rewrite Hfr by lia. apply Hsame. lia.
    + intros i Hi. destruct (Nat.eq_dec i k) as [->|Hne].
      * intros lr' wd' Hlr' Hwd' g grad_h' delta_upd.
        assert (lr' = lr) by congruence. assert (wd' = wd) by congruence.
        subst lr' wd'. rewrite HN. repeat split; assumption.
      * assert (Hik : (i < k)%nat) by lia.
        assert (Hin : (i < n)%nat) by lia.
        destruct (owner_cases n i Hin) as (Pw & Pd & P1 & P2 & _ & _).
        intros lr' wd' Hlr' Hwd' g grad_h' delta_upd.
        destruct (Hdone i Hik lr' wd' Hlr' Hwd') as (Qw & Q1 & Q2 & Qd).
        repeat split;
          (eapply models_frame; [eassumption | apply Hfr; congruence]).
    + exists s'. split; assumption.
Qed.

Lemma models_cell (N : nat) (s : SGDSolver) (b : Buf) (f : nat -> Dtype)
    (j : nat) :
  models N s b f -> (j < N)%nat -> cell s b j = Some (f j).
Proof.
  intros (v & Hr & _ & Hv) Hj. unfold cell. rewrite Hr. now apply Hv.
Qed.

(** C8. AdaDelta keeps two history blobs per parameter, the gradient
    accumulator of parameter [i] at index [i] and its update accumulator
    at index [n + i].  ComputeUpdateValue turns every element, with [g]
    the gradient after the weight decay, into
    [grad_h' = (1 - momentum) * g^2 + momentum * grad_h],
    [delta_upd = sqrt ((update_h + delta) / (grad_h' + delta)) * g],
    [update_h' = (1 - momentum) * delta_upd^2 + momentum * update_h],
    and writes [rate * delta_upd] into the gradient, [rate] being the
    learning rate times the multiplier of the parameter.  This is for a
    positive [delta], a momentum between 0 and 1 and accumulators that are
    not negative, as the rule leaves them: then the divisor
    [grad_h' + delta] is positive and the radicand is not negative. *)
Theorem AdaDelta_update_rule (CPU_ONLY : bool) (mode : SolverMode)
    (s : SGDSolver) (n : nat) (rate : Dtype) :
  mode = CPU \/ CPU_ONLY = false ->
  shaped n s ->
  GetLearningRate (param_ s) (iter_ s) = Ok rate ->
  regularization_type (param_ s) = "L2" \/ regularization_type (param_ s) = "L1" ->
  (0 < delta (param_ s))%R ->
  (0 <= momentum (param_ s) <= 1)%R ->
  (forall i j : nat,
     (i < n)%nat -> (j < psize s i)%nat ->
     (0 <= arr s (HistoryData i) j)%R /\
     (0 <= arr s (HistoryData (n + i)) j)%R) ->
  length (history_ (AdaDelta_PreSolve s)) = (2 * n)%nat /\
  exists s' : SGDSolver,
    AdaDelta_ComputeUpdateValue CPU_ONLY mode s = Ok s' /\
    forall (i j : nat) (lr wd : Dtype),
      (i < n)%nat -> (j < psize s i)%nat ->
      params_lr (net_ s) !! i = Some lr ->
      params_weight_decay (net_ s) !! i = Some wd ->
      let w := arr s (ParamData i) j in
      let grad_h := arr s (HistoryData i) j in
      let update_h := arr s (HistoryData (n + i)) j in
      let g := decayed_gradient (regularization_type (param_ s))
                 (weight_decay (param_ s) * wd) w (arr s (ParamDiff i) j) in
      let grad_h' := ((1 - momentum (param_ s)) * (g * g)
                      + momentum (param_ s) * grad_h)%R in
      let delta_upd :=
        (sqrt ((update_h + delta (param_ s)) / (grad_h' + delta (param_ s))) * g)%R in
      let update_h' := ((1 - momentum (param_ s)) * (delta_upd * delta_upd)
                        + momentum (param_ s) * update_h)%R in
      cell s' (ParamData i) j = Some w /\
      cell s' (HistoryData i) j = Some grad_h' /\
      cell s' (HistoryData (n + i)) j = Some update_h' /\
      cell s' (ParamDiff i) j = Some (rate * lr * delta_upd)%R /\
      (0 < grad_h' + delta (param_ s))%R /\
      (0 <= (update_h + delta (param_ s)) / (grad_h' + delta (param_ s)))%R /\
      (0 <= grad_h')%R /\ (0 <= update_h')%R.
Proof.
  intros Hmode Hsh Hrate Hreg Hdelta Hmom Hhist. split.
  - simpl. rewrite length_app, !length_zero_like. destruct Hsh as [-> _]. lia.
  - destruct (AdaDelta_loop n rate (delta (param_ s)) (momentum (param_ s))
                (weight_decay (param_ s)) (regularization_type (param_ s)) s
                Hsh Hreg n 0%nat s) as (s' & E & Hpost);
      try reflexivity; try lia.
    exists s'. split.
    + unfold AdaDelta_ComputeUpdateValue, AdaGrad_rate, AdaGrad_weight_decay.
      rewrite Hrate. cbn [bind]. unfold switch_mode.
      destruct Hsh as [Hn _]. rewrite Hn.
      destruct Hmode as [-> | ->]; [exact E|]. destruct mode; exact E.
    + intros i j lr wd Hi Hj Hlr Hwd.
      destruct (Hpost i Hi lr wd Hlr Hwd) as (Mw & M1 & M2 & Md).
      destruct (Hhist i j Hi Hj) as [Hg0 Hu0].
      cbv zeta.
      set (g := decayed_gradient (regularization_type (param_ s))
                  (weight_decay (param_ s) * wd) (arr s (ParamData i) j)
                  (arr s (ParamDiff i) j)).
      assert (Hgh : (0 <= (1 - momentum (param_ s)) * (g * g)
                          + momentum (param_ s) * arr s (HistoryData i) j)%R)
        by (pose proof (Rle_0_sqr g) as Hsq; unfold Rsqr in Hsq; nra).
      split; [exact (models_cell _ _ _ _ j Mw Hj)|].
      split; [exact (models_cell _ _ _ _ j M1 Hj)|].
      split; [exact (models_cell _ _ _ _ j M2 Hj)|].
      split; [exact (models_cell _ _ _ _ j Md Hj)|].
      split; [lra|]. split; [|split; [exact Hgh|]].
      * apply Rmult_le_pos; [lra|]. apply Rlt_le, Rinv_0_lt_compat. lra.
      * match goal with
        | |- (0 <= (1 - _) * (?d * ?d) + _)%R =>
            pose proof (Rle_0_sqr d) as Hsq; unfold Rsqr in Hsq; nra
        end.
Qed.

Lemma Dtype_nonzero_0 (x : Dtype) : x = 0%R -> Dtype_nonzero x = false.
Proof.
  intros ->. unfold Dtype_nonzero.
  destruct (Req_dec_T 0 0); [reflexivity | contradiction].
Qed.

Lemma shaped_trained_solver : shaped 1 trained_solver.
Proof.
  split; [reflexivity|]. intros i Hi. assert (i = 0%nat) by lia. subst i.
  exists [(1 / 4)%R; (3 / 4)%R], [1%R; 2%R], [1%R; 2%R], [3%R; 4%R],
    [0%R; 0%R], [0%R; 0%R], 1%R, 1%R.
  split; reflexivity.
Qed.

Lemma shaped_stable_solver : shaped 1 stable_solver.
Proof.
  split; [reflexivity|]. intros i Hi. assert (i = 0%nat) by lia. subst i.
  exists [(1 / 4)%R; (3 / 4)%R], [1%R; 2%R], [1%R; 2%R], [3%R; 4%R],
    [0%R; 0%R], [0%R; 0%R], 1%R, 1%R.
  split; reflexivity.
Qed.

Lemma rate_stable_solver :
  GetLearningRate (param_ stable_solver) (iter_ stable_solver)
  = Ok (1 / 10 * (1 / 2) ^ 3)%R.
Proof.
  apply (GetLearningRate_step (with_delta (1 / 100)%R step_param) 6);
    [reflexivity | lia | simpl; lia].
Qed.

(** The accumulators of [stable_solver] are not negative. *)
Lemma history_stable_solver (i j : nat) :
  (i < 1)%nat -> (j < psize stable_solver i)%nat ->
  (0 <= arr stable_solver (HistoryData i) j)%R /\
  (0 <= arr stable_solver (HistoryData (1 + i)) j)%R.
Proof.
  intros Hi Hj. assert (i = 0%nat) by lia. subst i.
  unfold psize in Hj. simpl in Hj.
  destruct j as [|[|j]]; [| |lia]; unfold arr; simpl; lra.
Qed.

Lemma AdaDelta_update_rule_witness :
  exists s' : SGDSolver,
    AdaDelta_ComputeUpdateValue false CPU stable_solver = Ok s' /\
    cell s' (HistoryData 0) 0
    = Some ((1 - 9 / 10) * (1 * 1) + 9 / 10 * 1)%R.
Proof.
  destruct (AdaDelta_update_rule false CPU stable_solver 1
              (1 / 10 * (1 / 2) ^ 3)%R)
    as (_ & s' & E & H).
  - now left.
  - exact shaped_stable_solver.
  - exact rate_stable_solver.
  - now left.
  - simpl. lra.
  - simpl. lra.
  - exact history_stable_solver.
  - exists s'. split; [exact E|].
    destruct (H 0%nat 0%nat 1%R 1%R) as (_ & H1 & _);
      [lia | unfold psize; simpl; lia | reflexivity | reflexivity |].
    rewrite H1. unfold decayed_gradient.
    rewrite Dtype_nonzero_0 by (simpl; lra). reflexivity.
Defined.

(** ** The accumulation count in the preambles *)

(** SGDSolver and NesterovSolver use the rate and the decay of the spec. *)
Lemma SGD_effective_rate_decay (p : SolverParameter) (t : Z)
    (schedule lr_mult decay_mult : Dtype) :
  GetLearningRate p t = Ok schedule ->
  (exists rate : Dtype,
     SGD_rate p t = Ok rate /\
     (rate * lr_mult)%R = spec_effective_rate schedule lr_mult (update_interval p)) /\
  (SGD_weight_decay p * decay_mult)%R
  = spec_effective_decay (weight_decay p) decay_mult (update_interval p).
Proof.
  intros H. unfold SGD_rate, SGD_weight_decay, spec_effective_rate,
    spec_effective_decay. rewrite H. simpl. split.
  - eexists. split; [reflexivity|]. unfold Rdiv. ring.
  - ring.
Qed.

(** AdaGradSolver, AdaDeltaSolver and RMSpropSolver use the schedule and
    the configured decay as they are. *)
Lemma AdaGrad_effective_rate_decay (p : SolverParameter) (t : Z)
    (lr_mult decay_mult : Dtype) :
  AdaGrad_rate p t = GetLearningRate p t /\
  (AdaGrad_weight_decay p * decay_mult)%R = (weight_decay p * decay_mult)%R.
Proof. split; reflexivity. Qed.

Lemma Dtype_nonzero_neq (x : Dtype) : x <> 0%R -> Dtype_nonzero x = true.
Proof.
  intros H. unfold Dtype_nonzero.
  destruct (Req_dec_T x 0); [contradiction | reflexivity].
Qed.

(** The AdaGrad loop body on the arrays of one parameter: the update is
    [rate * lr] times the scaled gradient, [rate] as the preamble left it. *)
Lemma AdaGrad_body_spec (n i N : nat) (s0 s : SGDSolver)
    (rate delta weight_decay : Dtype) (reg : string)
    (fw fd f1 fu ft : nat -> Dtype) (lr wd : Dtype) :
  (i < n)%nat -> framed n i s0 s -> reg = "L2" \/ reg = "L1" ->
  models N s (ParamData i) fw -> models N s (ParamDiff i) fd ->
  models N s (HistoryData i) f1 ->
  models N s (UpdateData i) fu -> models N s (TempData i) ft ->
  params_lr (net_ s) !! i = Some lr ->
  params_weight_decay (net_ s) !! i = Some wd ->
  let g := fun j => decayed_gradient reg (weight_decay * wd) (fw j) (fd j) in
  exists s' : SGDSolver,
    AdaGrad_body rate delta weight_decay reg i s = Ok s' /\
    framed n i s0 s' /\
    models N s' (HistoryData i) (fun j => g j * g j + f1 j)%R /\
    models N s' (ParamDiff i)
      (fun j => rate * lr * (g j / (sqrt (g j * g j + f1 j) + delta)))%R.
Proof.
  intros Hi Hfr Hreg Mw Md M1 Mu Mt Hlr Hwd g.
  unfold AdaGrad_body.
  destruct Mw as (w & Hw & Hvw).
  rewrite (param_count_read s i w Hw). cbn [bind].
  rewrite (at_lookup _ _ _ Hlr), (at_lookup _ _ _ Hwd). cbn [bind].
  assert (Mw : models N s (ParamData i) fw) by (exists w; now split).
  replace (length w) with N by (symmetry; apply Hvw).
  destruct (Regularize_step n i N s0 s reg (weight_decay * wd)%R fw fd ft
              Hfr Hreg Mw Md Mt) as (s1 & ft1 & E1 & Mg & Mt1 & Hf1 & Hfr1).
  rewrite E1. cbn [bind].
  assert (M11 : models N s1 (HistoryData i) f1)
    by (apply (models_frame N s s1 _ _ M1); apply Hf1; discriminate).
  assert (Mu1 : models N s1 (UpdateData i) fu)
    by (apply (models_frame N s s1 _ _ Mu); apply Hf1; discriminate).
  clear Hfr Mw Md M1 Mu Mt Hf1 E1 Hw Hvw Hlr Hwd.
  next powx_vec. next add_vec. next powx_vec. next add_scalar_vec.
  next div_vec. next axpby_vec.
  eexists. split; [reflexivity|]. split; [assumption|]. split.
  - eapply models_ext; [eassumption|].
    intros j. unfold g. now rewrite powx_2.
  - eapply models_ext; [eassumption|].
    intros j. unfold g. rewrite powx_2, powx_half. lra.
Qed.

(** C1 at an accumulation count of 2, for AdaGrad: the rate that reaches
    the transform is the schedule times the multiplier, not divided by the
    count, the decay is the configured decay times the multiplier, not
    multiplied by the count, and the update written for weight 1 and
    gradient 0 is 1, where the rate and decay of the claim give 1/2. *)
Theorem AdaGrad_update_interval_unused :
  let p := param_ adagrad_solver in
  update_interval p = 2 /\
  AdaGrad_rate p (iter_ adagrad_solver) = Ok 1%R /\
  (1 * 1)%R <> spec_effective_rate 1 1 (update_interval p) /\
  (AdaGrad_weight_decay p * 1)%R
  <> spec_effective_decay (weight_decay p) 1 (update_interval p) /\
  exists (s' : SGDSolver) (x : Dtype),
    AdaGrad_ComputeUpdateValue false CPU adagrad_solver = Ok s' /\
    cell s' (ParamDiff 0) 0 = Some x /\ x = 1%R /\
    (spec_effective_rate 1 1 2
     * (decayed_gradient "L2" (spec_effective_decay 1 1 2) 1 0
        / (sqrt (decayed_gradient "L2" (spec_effective_decay 1 1 2) 1 0
                 * decayed_gradient "L2" (spec_effective_decay 1 1 2) 1 0 + 0)
           + 0)))%R = (1 / 2)%R.
Proof.
  intros p. split; [reflexivity|]. split; [reflexivity|].
  split; [unfold spec_effective_rate, Dtype_of_int; simpl; lra|].
  split; [unfold spec_effective_decay, AdaGrad_weight_decay, Dtype_of_int;
          simpl; lra|].
  destruct (AdaGrad_body_spec 1 0 1 adagrad_solver adagrad_solver 1 0 1 "L2"
              (arr adagrad_solver (ParamData 0)) (arr adagrad_solver (ParamDiff 0))
              (arr adagrad_solver (HistoryData 0)) (arr adagrad_solver (UpdateData 0))
              (arr adagrad_solver (TempData 0)) 1 1)
    as (s' & E & _ & _ & Md);
    try (eapply models_arr; reflexivity); try reflexivity;
    [lia | apply framed_refl | now left |].
  eexists s', _. split; [|split; [|split]].
  - unfold AdaGrad_ComputeUpdateValue. simpl. rewrite E. reflexivity.
  - apply (models_cell _ _ _ _ 0 Md). lia.
  - unfold decayed_gradient, arr. simpl.
    rewrite Dtype_nonzero_neq by lra.
    replace (1 * 1 * 1 + 0)%R with 1%R by lra.
    replace (1 * 1 + 0)%R with 1%R by lra.
    rewrite sqrt_1. lra.
  - unfold decayed_gradient, spec_effective_rate, spec_effective_decay,
      Dtype_of_int.
    rewrite Dtype_nonzero_neq by lra. simpl.
    replace ((1 * 1 * 2 * 1 + 0) * (1 * 1 * 2 * 1 + 0) + 0)%R with (2 * 2)%R by lra.
    rewrite sqrt_square by lra. lra.
Qed.

(** ** The other loop bodies, and the shapes after PreSolve *)

Lemma SGD_body_spec (n i N : nat) (s0 s : SGDSolver)
    (rate momentum weight_decay : Dtype) (reg : string)
    (fw fd f1 ft : nat -> Dtype) (lr wd : Dtype) :
  (i < n)%nat -> framed n i s0 s -> reg = "L2" \/ reg = "L1" ->
  models N s (ParamData i) fw -> models N s (ParamDiff i) fd ->
  models N s (HistoryData i) f1 -> models N s (TempData i) ft ->
  params_lr (net_ s) !! i = Some lr ->
  params_weight_decay (net_ s) !! i = Some wd ->
  let g := fun j => decayed_gradient reg (weight_decay * wd) (fw j) (fd j) in
  let h := fun j => (rate * lr * g j + momentum * f1 j)%R in
  exists s' : SGDSolver,
    SGD_body rate momentum weight_decay reg i s = Ok s' /\
    framed n i s0 s' /\
    models N s' (HistoryData i) h /\ models N s' (ParamDiff i) h.
Proof.
  intros Hi Hfr Hreg Mw Md M1 Mt Hlr Hwd g h.
  unfold SGD_body.
  destruct Mw as (w & Hw & Hvw).
  rewrite (param_count_read s i w Hw). cbn [bind].
  rewrite (at_lookup _ _ _ Hlr), (at_lookup _ _ _ Hwd). cbn [bind].
  assert (Mw : models N s (ParamData i) fw) by (exists w; now split).
  replace (length w) with N by (symmetry; apply Hvw).
  destruct (Regularize_step n i N s0 s reg (weight_decay * wd)%R fw fd ft
              Hfr Hreg Mw Md Mt) as (s1 & ft1 & E1 & Mg & Mt1 & Hf1 & Hfr1).
  rewrite E1. cbn [bind].
  assert (M11 : models N s1 (HistoryData i) f1)
    by (apply (models_frame N s s1 _ _ M1); apply Hf1; discriminate).
  clear Hfr Mw Md M1 Mt Hf1 E1 Hw Hvw Hlr Hwd.
  next axpby_vec. next copy_vec.
  eexists. split; [reflexivity|]. split; [assumption|]. split; assumption.
Qed.

Lemma Nesterov_body_spec (n i N : nat) (s0 s : SGDSolver)
    (rate momentum weight_decay : Dtype) (reg : string)
    (fw fd f1 fu ft : nat -> Dtype) (lr wd : Dtype) :
  (i < n)%nat -> framed n i s0 s -> reg = "L2" \/ reg = "L1" ->
  models N s (ParamData i) fw -> models N s (ParamDiff i) fd ->
  models N s (HistoryData i) f1 ->
  models N s (UpdateData i) fu -> models N s (TempData i) ft ->
  params_lr (net_ s) !! i = Some lr ->
  params_weight_decay (net_ s) !! i = Some wd ->
  let g := fun j => decayed_gradient reg (weight_decay * wd) (fw j) (fd j) in
  let h := fun j => (rate * lr * g j + momentum * f1 j)%R in
  exists s' : SGDSolver,
    Nesterov_body rate momentum weight_decay reg i s = Ok s' /\
    framed n i s0 s' /\
    models N s' (HistoryData i) h /\
    models N s' (ParamDiff i)
      (fun j => (1 + momentum) * h j + - momentum * f1 j)%R.
Proof.
  intros Hi Hfr Hreg Mw Md M1 Mu Mt Hlr Hwd g h.
  unfold Nesterov_body.
  destruct Mw as (w & Hw & Hvw).
  rewrite (param_count_read s i w Hw). cbn [bind].
  assert (Mw : models N s (ParamData i) fw) by (exists w; now split).
  replace (length w) with N by (symmetry; apply Hvw).
  clear Hw Hvw.
  destruct (call2_step n i N s0 s Hfr (caffe_copy N)
              (HistoryData i) (UpdateData i) f1 fu f1 eq_refl M1 Mu
              (fun x y hx hy => copy_vec N x y f1 fu hx hy))
    as (s1 & E1 & Mu1 & Hf1 & Hfr1).
  rewrite E1. cbn [bind].
  destruct Hfr1 as (Hlr1 & Hwd1 & Hlen1 & Hfr1).
  assert (Hfr1' : framed n i s0 s1) by (repeat split; assumption).
  assert (Hlrs : params_lr (net_ s1) !! i = Some lr).
  { destruct Hfr as (E & _). rewrite Hlr1, <- E. exact Hlr. }
  assert (Hwds : params_weight_decay (net_ s1) !! i = Some wd).
  { destruct Hfr as (_ & E & _). rewrite Hwd1, <- E. exact Hwd. }
  rewrite (at_lookup _ _ _ Hlrs), (at_lookup _ _ _ Hwds). cbn [bind].
  assert (Mw1 : models N s1 (ParamData i) fw)
    by (apply (models_frame N s s1 _ _ Mw); apply Hf1; discriminate).
  assert (Md1 : models N s1 (ParamDiff i) fd)
    by (apply (models_frame N s s1 _ _ Md); apply Hf1; discriminate).
  assert (M11 : models N s1 (HistoryData i) f1)
    by (apply (models_frame N s s1 _ _ M1); apply Hf1; discriminate).
  assert (Mt1 : models N s1 (TempData i) ft)
    by (apply (models_frame N s s1 _ _ Mt); apply Hf1; discriminate).
  destruct (Regularize_step n i N s0 s1 reg (weight_decay * wd)%R fw fd ft
              Hfr1' Hreg Mw1 Md1 Mt1) as (s2 & ft2 & E2 & Mg & Mt2 & Hf2 & Hfr2).
  rewrite E2. cbn [bind].
  assert (M12 : models N s2 (HistoryData i) f1)
    by (apply (models_frame N s1 s2 _ _ M11); apply Hf2; discriminate).
  assert (Mu2 : models N s2 (UpdateData i) f1)
    by (apply (models_frame N s1 s2 _ _ Mu1); apply Hf2; discriminate).
  clear Hfr Mw Md M1 Mu Mt Hf1 E1 Hlr Hwd Mw1 Md1 M11 Mt1 Mu1 Hf2 E2
    Hfr1 Hfr1' Hlrs Hwds Hlr1 Hwd1 Hlen1.
  next axpby_vec. next axpby_vec. next copy_vec.
  eexists. split; [reflexivity|]. split; [assumption|]. split; assumption.
Qed.

Lemma RMSprop_body_spec (n i N : nat) (s0 s : SGDSolver)
    (rate delta rms_decay weight_decay : Dtype) (reg : string)
    (fw fd f1 fu ft : nat -> Dtype) (lr wd : Dtype) :
  (i < n)%nat -> framed n i s0 s -> reg = "L2" \/ reg = "L1" ->
  models N s (ParamData i) fw -> models N s (ParamDiff i) fd ->
  models N s (HistoryData i) f1 ->
  models N s (UpdateData i) fu -> models N s (TempData i) ft ->
  params_lr (net_ s) !! i = Some lr ->
  params_weight_decay (net_ s) !! i = Some wd ->
  let g := fun j => decayed_gradient reg (weight_decay * wd) (fw j) (fd j) in
  let h := fun j => ((1 - rms_decay) * (g j * g j) + rms_decay * f1 j)%R in
  exists s' : SGDSolver,
    RMSprop_body rate delta rms_decay weight_decay reg i s = Ok s' /\
    framed n i s0 s' /\
    models N s' (HistoryData i) h /\
    models N s' (ParamDiff i)
      (fun j => rate * lr * (g j / (sqrt (h j) + delta)))%R.
Proof.
  intros Hi Hfr Hreg Mw Md M1 Mu Mt Hlr Hwd g h.
  unfold RMSprop_body.
  destruct Mw as (w & Hw & Hvw).
  rewrite (param_count_read s i w Hw). cbn [bind].
  rewrite (at_lookup _ _ _ Hlr), (at_lookup _ _ _ Hwd). cbn [bind].
  assert (Mw : models N s (ParamData i) fw) by (exists w; now split).
  replace (length w) with N by (symmetry; apply Hvw).
  destruct (Regularize_step n i N s0 s reg (weight_decay * wd)%R fw fd ft
              Hfr Hreg Mw Md Mt) as (s1 & ft1 & E1 & Mg & Mt1 & Hf1 & Hfr1).
  rewrite E1. cbn [bind].
  assert (M11 : models N s1 (HistoryData i) f1)
    by (apply (models_frame N s s1 _ _ M1); apply Hf1; discriminate).
  assert (Mu1 : models N s1 (UpdateData i) fu)
    by (apply (models_frame N s s1 _ _ Mu); apply Hf1; discriminate).
  clear Hfr Mw Md M1 Mu Mt Hf1 E1 Hw Hvw Hlr Hwd.
  next powx_vec. next axpby_vec. next powx_vec. next add_scalar_vec.
  next div_vec. next axpby_vec.
  eexists. split; [reflexivity|]. split; [assumption|]. split.
  - eapply models_ext; [eassumption|].
    intros j. unfold h, g. now rewrite powx_2.
  - eapply models_ext; [eassumption|].
    intros j. unfold h, g. rewrite powx_2, powx_half. lra.
Qed.

Lemma zero_like_lookup (ps : list Blob) (i : nat) (p : Blob) :
  ps !! i = Some p -> zero_like ps !! i = Some (new_Blob (count p)).
Proof.
  intros H. unfold zero_like.
  change (map (fun net_param => new_Blob (count net_param)) ps)
    with ((fun net_param => new_Blob (count net_param)) <$> ps).
  now rewrite list_lookup_fmap, H.
Qed.

(** After AdaDeltaSolver::PreSolve every parameter has its arrays, of its
    size, the update accumulator at offset [n]. *)
Lemma AdaDelta_PreSolve_shaped (s : SGDSolver) :
  length (params_lr (net_ s)) = length (params (net_ s)) ->
  length (params_weight_decay (net_ s)) = length (params (net_ s)) ->
  Forall (fun p => length (cpu_diff p) = length (cpu_data p)) (params (net_ s)) ->
  shaped (length (params (net_ s))) (AdaDelta_PreSolve s).
Proof.
  intros Hlr Hwd Hall. split; [reflexivity|]. intros i Hi.
  destruct (lookup_lt_is_Some_2 (params (net_ s)) i Hi) as [p Hp].
  destruct (lookup_lt_is_Some_2 (params_lr (net_ s)) i) as [lr Hl]; [lia|].
  destruct (lookup_lt_is_Some_2 (params_weight_decay (net_ s)) i) as [wd Hw];
    [lia|].
  pose proof (zero_like_lookup _ _ _ Hp) as Hz.
  exists (cpu_data p), (cpu_diff p), (replicate (count p) 0%R),
    (replicate (count p) 0%R), (replicate (count p) 0%R),
    (replicate (count p) 0%R), lr, wd.
  split; simpl; unfold at_;
    rewrite ?Hp, ?Hz, ?Hl, ?Hw, ?length_replicate; try reflexivity.
  - rewrite lookup_app_l by (rewrite length_zero_like; lia).
    now rewrite Hz.
  - rewrite lookup_app_r by (rewrite length_zero_like; lia).
    rewrite length_zero_like.
    replace (length (params (net_ s)) + i - length (params (net_ s)))%nat
      with i by lia.
    now rewrite Hz.
  - rewrite Forall_forall in Hall. apply Hall.
    eapply list_elem_of_lookup_2. exact Hp.
Qed.

(** A run of two passes, resumed at iteration 4. *)
Example Solve_resumed_trace :
  exists st : LoopState,
    Solve step_param (Init_accumulate step_param) (fun _ => 0%R) (Some 4) = Ok st /\
    loop_iter st = 6 /\
    trace st
    = [EvSetDebugInfo false; EvForwardBackward 0;
       EvComputeUpdateValue 4; EvNetUpdate;
       EvSetDebugInfo false; EvForwardBackward 1;
       EvComputeUpdateValue 5; EvNetUpdate;
       EvSnapshot 6].
Proof. eexists. repeat split; reflexivity. Qed.

(** * Further properties *)

(** ** What ComputeUpdateValue never writes *)

Lemma keeps_refl (s : SGDSolver) : keeps s s.
Proof. split; reflexivity. Qed.

Lemma keeps_trans (s1 s2 s3 : SGDSolver) :
  keeps s1 s2 -> keeps s2 s3 -> keeps s1 s3.
Proof. intros [] []. split; congruence. Qed.

Lemma data_alter_diff (v : list Dtype) (i : nat) (ps : list Blob) :
  map cpu_data (alter (set_diff v) i ps) = map cpu_data ps.
Proof.
  revert i. induction ps as [|p ps IH]; intros [|i]; simpl; try reflexivity.
  f_equal. apply IH.
Qed.

Lemma write_keeps (s : SGDSolver) (b : Buf) (v : list Dtype) :
  not_weights b -> keeps s (write s b v).
Proof.
  destruct b; simpl; intros Hb; try contradiction;
    split; simpl; rewrite ?length_alter, ?data_alter_diff; reflexivity.
Qed.

Lemma call1_keeps (k : list Dtype -> list Dtype) (Y : Buf) (s s' : SGDSolver) :
  not_weights Y -> call1 k Y s = Ok s' -> keeps s s'.
Proof.
  intros HY. unfold call1. destruct (read s Y); simpl; [|discriminate].
  intros H. inversion H. now apply write_keeps.
Qed.

Lemma call2_keeps (k : list Dtype -> list Dtype -> list Dtype) (X Y : Buf)
    (s s' : SGDSolver) :
  not_weights Y -> call2 k X Y s = Ok s' -> keeps s s'.
Proof.
  intros HY. unfold call2.
  destruct (read s X); simpl; [|discriminate].
  destruct (read s Y); simpl; [|discriminate].
  intros H. inversion H. now apply write_keeps.
Qed.

Lemma call3_keeps (k : list Dtype -> list Dtype -> list Dtype -> list Dtype)
    (A B Y : Buf) (s s' : SGDSolver) :
  not_weights Y -> call3 k A B Y s = Ok s' -> keeps s s'.
Proof.
  intros HY. unfold call3.
  destruct (read s A); simpl; [|discriminate].
  destruct (read s B); simpl; [|discriminate].
  destruct (read s Y); simpl; [|discriminate].
  intros H. inversion H. now apply write_keeps.
Qed.

Ltac bind_step :=
  match goal with
  | H : bind ?c _ = Ok _ |- _ =>
      let E := fresh "E" in
      destruct c eqn:E; cbn [bind] in H; [|discriminate H]
  end.

Ltac keeps_facts :=
  repeat match goal with
  | E : call1 _ _ _ = Ok _ |- _ => apply call1_keeps in E; [|exact I]
  | E : call2 _ _ _ _ = Ok _ |- _ => apply call2_keeps in E; [|exact I]
  | E : call3 _ _ _ _ _ = Ok _ |- _ => apply call3_keeps in E; [|exact I]
  end.

Ltac keeps_chain :=
  repeat (eapply keeps_trans; [eassumption|]);
  first [apply keeps_refl | eassumption].

Lemma Regularize_keeps (reg : string) (N : nat) (ld : Dtype) (i : nat)
    (s s' : SGDSolver) :
  Regularize reg N ld i s = Ok s' -> keeps s s'.
Proof.
  unfold Regularize. destruct (Dtype_nonzero ld).
  - destruct (String.eqb reg "L2").
    + intros H. keeps_facts. keeps_chain.
    + destruct (String.eqb reg "L1"); [|discriminate].
      intros H. bind_step. keeps_facts. keeps_chain.
  - intros H. inversion H. apply keeps_refl.
Qed.

Ltac body_keeps :=
  intros H; repeat bind_step;
  repeat match goal with
  | E : Regularize _ _ _ _ _ = Ok _ |- _ => apply Regularize_keeps in E
  end;
  keeps_facts; keeps_chain.

Lemma SGD_body_keeps (rate momentum weight_decay : Dtype) (reg : string)
    (i : nat) (s s' : SGDSolver) :
  SGD_body rate momentum weight_decay reg i s = Ok s' -> keeps s s'.
Proof. unfold SGD_body. body_keeps. Qed.

Lemma Nesterov_body_keeps (rate momentum weight_decay : Dtype) (reg : string)
    (i : nat) (s s' : SGDSolver) :
  Nesterov_body rate momentum weight_decay reg i s = Ok s' -> keeps s s'.
Proof. unfold Nesterov_body. body_keeps. Qed.

Lemma AdaGrad_body_keeps (rate delta weight_decay : Dtype) (reg : string)
    (i : nat) (s s' : SGDSolver) :
  AdaGrad_body rate delta weight_decay reg i s = Ok s' -> keeps s s'.
Proof. unfold AdaGrad_body. body_keeps. Qed.

Lemma AdaDelta_body_keeps (rate delta momentum weight_decay : Dtype)
    (reg : string) (offset i : nat) (s s' : SGDSolver) :
  AdaDelta_body rate delta momentum weight_decay reg offset i s = Ok s' ->
  keeps s s'.
Proof. unfold AdaDelta_body. body_keeps. Qed.

Lemma RMSprop_body_keeps (rate delta rms_decay weight_decay : Dtype)
    (reg : string) (i : nat) (s s' : SGDSolver) :
  RMSprop_body rate delta rms_decay weight_decay reg i s = Ok s' -> keeps s s'.
Proof. unfold RMSprop_body. body_keeps. Qed.

Lemma for_params_keeps (body : nat -> SGDSolver -> Result SGDSolver) :
  (forall (i : nat) (s s' : SGDSolver), body i s = Ok s' -> keeps s s') ->
  forall (m k : nat) (s s' : SGDSolver),
    for_params body m k s = Ok s' -> keeps s s'.
Proof.
  intros Hb. induction m as [|m IH]; intros k s s' H; simpl in H.
  - inversion H. apply keeps_refl.
  - bind_step. eapply keeps_trans; [eapply Hb; eassumption|].
    eapply IH; eassumption.
Qed.

Lemma switch_mode_keeps (CPU_ONLY : bool) (mode : SolverMode)
    (body : nat -> SGDSolver -> Result SGDSolver) (s s' : SGDSolver) :
  (forall (i : nat) (s s' : SGDSolver), body i s = Ok s' -> keeps s s') ->
  switch_mode CPU_ONLY mode body s = Ok s' -> keeps s s'.
Proof.
  intros Hb. unfold switch_mode. destruct mode; [|destruct CPU_ONLY];
    try discriminate; apply for_params_keeps; assumption.
Qed.

(** X1. ComputeUpdateValue of each of the five solvers, when it returns,
    has left the weights of the net, the multipliers, the configuration
    and the iteration as they were, and the history, update and temp
    vectors with as many blobs as before: it writes gradients and solver
    buffers only. *)
Theorem ComputeUpdateValue_keeps_weights (ty : SolverType) (CPU_ONLY : bool)
    (mode : SolverMode) (s s' : SGDSolver) :
  ComputeUpdateValue ty CPU_ONLY mode s = Ok s' ->
  param_ s' = param_ s /\ iter_ s' = iter_ s /\
  map cpu_data (params (net_ s')) = map cpu_data (params (net_ s)) /\
  params_lr (net_ s') = params_lr (net_ s) /\
  params_weight_decay (net_ s') = params_weight_decay (net_ s) /\
  length (history_ s') = length (history_ s) /\
  length (update_ s') = length (update_ s) /\
  length (temp_ s') = length (temp_ s).
Proof.
  intros H.
  assert (K : keeps s s').
  { destruct ty; simpl in H;
      unfold SGD_ComputeUpdateValue, Nesterov_ComputeUpdateValue,
        AdaGrad_ComputeUpdateValue, AdaDelta_ComputeUpdateValue,
        RMSprop_ComputeUpdateValue in H;
      bind_step; eapply switch_mode_keeps; try eassumption; intros ? ? ?.
    - apply SGD_body_keeps.
    - apply Nesterov_body_keeps.
    - apply AdaGrad_body_keeps.
    - apply AdaDelta_body_keeps.
    - apply RMSprop_body_keeps. }
  destruct K. repeat split; assumption.
Qed.

Lemma adagrad_solver_runs :
  exists s' : SGDSolver,
    ComputeUpdateValue AdaGrad false CPU adagrad_solver = Ok s'.
Proof.
  destruct (AdaGrad_body_spec 1 0 1 adagrad_solver adagrad_solver 1 0 1 "L2"
              (arr adagrad_solver (ParamData 0)) (arr adagrad_solver (ParamDiff 0))
              (arr adagrad_solver (HistoryData 0)) (arr adagrad_solver (UpdateData 0))
              (arr adagrad_solver (TempData 0)) 1 1)
    as (s' & E & _);
    try (eapply models_arr; reflexivity); try reflexivity;
    [lia | apply framed_refl | now left |].
  exists s'. simpl. unfold AdaGrad_ComputeUpdateValue. simpl. now rewrite E.
Qed.

Lemma ComputeUpdateValue_keeps_weights_witness :
  exists s' : SGDSolver,
    ComputeUpdateValue AdaGrad false CPU adagrad_solver = Ok s' /\
    map cpu_data (params (net_ s')) = [[1%R]] /\
    length (history_ s') = 1%nat.
Proof.
  destruct adagrad_solver_runs as [s' E].
  exists s'. split; [exact E|].
  destruct (ComputeUpdateValue_keeps_weights AdaGrad false CPU adagrad_solver s' E)
    as (_ & _ & Hw & _ & _ & Hh & _).
  split; [exact Hw | exact Hh].
Defined.

(** ** The loop over the parameters, for any rule *)

Lemma read_data_keeps (s s' : SGDSolver) (j : nat) :
  keeps s s' -> read s' (ParamData j) = read s (ParamData j).
Proof.
  intros K. pose proof (keeps_weights s s' K) as E.
  apply (f_equal (fun l => l !! j)) in E.
  change (map cpu_data (params (net_ s'))) with (cpu_data <$> params (net_ s')) in E.
  change (map cpu_data (params (net_ s))) with (cpu_data <$> params (net_ s)) in E.
  rewrite !list_lookup_fmap in E. simpl. unfold at_.
  destruct (params (net_ s') !! j), (params (net_ s) !! j);
    simpl in *; congruence.
Qed.

Lemma rule_loop (n : nat) (body : nat -> SGDSolver -> Result SGDSolver)
    (s0 : SGDSolver) (H D : nat -> Dtype -> Dtype -> nat -> Dtype) :
  (forall (k : nat) (s : SGDSolver),
     (k < n)%nat ->
     params_lr (net_ s) = params_lr (net_ s0) ->
     params_weight_decay (net_ s) = params_weight_decay (net_ s0) ->
     (forall b : Buf, owner n b = k -> read s b = read s0 b) ->
     exists s' : SGDSolver,
       body k s = Ok s' /\ framed n k s s' /\ rule_post s0 s' k (H k) (D k)) ->
  forall (m k : nat) (s : SGDSolver),
    (k + m = n)%nat ->
    params_lr (net_ s) = params_lr (net_ s0) ->
    params_weight_decay (net_ s) = params_weight_decay (net_ s0) ->
    (forall b : Buf, (k <= owner n b)%nat -> read s b = read s0 b) ->
    (forall i : nat, (i < k)%nat -> rule_post s0 s i (H i) (D i)) ->
    exists s' : SGDSolver,
      for_params body m k s = Ok s' /\
      forall i : nat, (i < n)%nat -> rule_post s0 s' i (H i) (D i).
Proof.
  intros Hbody. induction m as [|m IH]; intros k s Hk Hlr Hwd Hsame Hdone.
  - exists s. split; [reflexivity|]. intros i Hi. apply Hdone. lia.
  - cbn [for_params].
    assert (Hkn : (k < n)%nat) by lia.
    destruct (Hbody k s Hkn Hlr Hwd) as (s1 & E & Hfr & Hpost).
    { intros b Hb. apply Hsame. lia. }
    rewrite E. cbn [bind].
    destruct Hfr as (Hlr1 & Hwd1 & _ & Hfr).
    destruct (IH (S k) s1) as (s' & E' & Hall); try lia; try congruence.
    + intros b Hb. rewrite Hfr by lia. apply Hsame. lia.
    + intros i Hi. destruct (Nat.eq_dec i k) as [->|Hne]; [exact Hpost|].
      assert (Hik : (i < k)%nat) by lia.
      assert (Hin : (i < n)%nat) by lia.
      destruct (owner_cases n i Hin) as (Pw & Pd & P1 & _).
      intros lr wd Hl Hw.
      destruct (Hdone i Hik lr wd Hl Hw) as (Qw & Q1 & Qd).
      repeat split;
        (eapply models_frame; [eassumption | apply Hfr; congruence]).
    + exists s'. split; assumption.
Qed.

(** From the arrays of [s0] to what a body needs in a state that has not
    touched parameter [k] yet. *)
Lemma rule_arrays_models (n k : nat) (s0 s : SGDSolver)
    (w d h u t : list Dtype) (lr wd : Dtype) :
  (k < n)%nat ->
  rule_arrays s0 k w d h u t lr wd ->
  params_lr (net_ s) = params_lr (net_ s0) ->
  params_weight_decay (net_ s) = params_weight_decay (net_ s0) ->
  (forall b : Buf, owner n b = k -> read s b = read s0 b) ->
  psize s0 k = length w /\
  models (length w) s (ParamData k) (arr s0 (ParamData k)) /\
  models (length w) s (ParamDiff k) (arr s0 (ParamDiff k)) /\
  models (length w) s (HistoryData k) (arr s0 (HistoryData k)) /\
  models (length w) s (UpdateData k) (arr s0 (UpdateData k)) /\
  models (length w) s (TempData k) (arr s0 (TempData k)) /\
  params_lr (net_ s) !! k = Some lr /\
  params_weight_decay (net_ s) !! k = Some wd.
Proof.
  intros Hk [Aw Ad Ah Au At Alr Awd Ld Lh Lu Lt] Hlr Hwd Hsame.
  destruct (owner_cases n k Hk) as (Ow & Od & Oh & _ & Ou & Ot).
  split; [unfold psize; now rewrite Aw|].
  repeat split; try congruence;
    (eapply models_arr; [eassumption | now apply Hsame | assumption || reflexivity]).
Qed.

Lemma rule_post_cells (s0 s' : SGDSolver) (i j : nat)
    (H D : Dtype -> Dtype -> nat -> Dtype) (lr wd : Dtype) :
  rule_post s0 s' i H D ->
  params_lr (net_ s0) !! i = Some lr ->
  params_weight_decay (net_ s0) !! i = Some wd ->
  (j < psize s0 i)%nat ->
  cell s' (ParamData i) j = Some (arr s0 (ParamData i) j) /\
  cell s' (HistoryData i) j = Some (H lr wd j) /\
  cell s' (ParamDiff i) j = Some (D lr wd j).
Proof.
  intros Hp Hl Hw Hj. destruct (Hp lr wd Hl Hw) as (Mw & Mh & Md).
  repeat split; eapply models_cell; eassumption.
Qed.

Lemma switch_mode_runs (CPU_ONLY : bool) (mode : SolverMode)
    (body : nat -> SGDSolver -> Result SGDSolver) (s : SGDSolver) :
  mode = CPU \/ CPU_ONLY = false ->
  switch_mode CPU_ONLY mode body s
  = for_params body (length (params (net_ s))) 0 s.
Proof. intros [-> | ->]; [reflexivity | destruct mode; reflexivity]. Qed.

(** ** SGD with momentum *)

Lemma SGD_loop (n : nat) (rate momentum weight_decay : Dtype) (reg : string)
    (s0 : SGDSolver) :
  rule_shaped n s0 -> reg = "L2" \/ reg = "L1" ->
  let h := fun (i : nat) (lr wd : Dtype) (j : nat) =>
    (rate * lr * decayed_gradient reg (weight_decay * wd)
                   (arr s0 (ParamData i) j) (arr s0 (ParamDiff i) j)
     + momentum * arr s0 (HistoryData i) j)%R in
  exists s' : SGDSolver,
    for_params (SGD_body rate momentum weight_decay reg) n 0 s0 = Ok s' /\
    forall i : nat, (i < n)%nat -> rule_post s0 s' i (h i) (h i).
Proof.
  intros [Hn Hsh] Hreg h.
  apply (rule_loop n _ s0 h h); try reflexivity; try lia.
  intros k s Hk Hlr Hwd Hsame.
  destruct (Hsh k Hk) as (w & d & hh & u & t & lr & wd & A).
  destruct (rule_arrays_models n k s0 s w d hh u t lr wd Hk A Hlr Hwd Hsame)
    as (HN & Mw & Md & Mh & Mu & Mt & Hl & Hw).
  destruct (SGD_body_spec n k (length w) s s rate momentum weight_decay reg
              _ _ _ _ lr wd Hk (framed_refl n k s) Hreg Mw Md Mh Mt Hl Hw)
    as (s1 & E & Hfr & Mh1 & Md1).
  exists s1. split; [exact E|]. split; [exact Hfr|].
  intros lr' wd' Hl' Hw'.
  assert (lr' = lr) by congruence. assert (wd' = wd) by congruence.
  subst lr' wd'. rewrite HN. repeat split; try assumption.
  eapply models_frame; [exact Mw|].
  apply read_data_keeps. eapply SGD_body_keeps. exact E.
Qed.

(** X2. SGDSolver::ComputeUpdateValue, on buffers of the parameters'
    sizes and with regularization L2 or L1: for every element, with [g] the
    gradient after weight decay (the decay multiplied by update_interval),
    the history becomes
    [schedule / update_interval * lr * g + momentum * history] and the
    gradient buffer is overwritten with the same value; the weight is not
    changed.  This is for an update_interval that is not zero, by which
    the rate is divided. *)
Theorem SGD_update_rule (CPU_ONLY : bool) (mode : SolverMode)
    (s : SGDSolver) (n : nat) (schedule : Dtype) :
  mode = CPU \/ CPU_ONLY = false ->
  rule_shaped n s ->
  GetLearningRate (param_ s) (iter_ s) = Ok schedule ->
  regularization_type (param_ s) = "L2" \/ regularization_type (param_ s) = "L1" ->
  update_interval (param_ s) <> 0 ->
  exists s' : SGDSolver,
    SGD_ComputeUpdateValue CPU_ONLY mode s = Ok s' /\
    forall (i j : nat) (lr wd : Dtype),
      (i < n)%nat -> (j < psize s i)%nat ->
      params_lr (net_ s) !! i = Some lr ->
      params_weight_decay (net_ s) !! i = Some wd ->
      let k := IZR (update_interval (param_ s)) in
      let g := decayed_gradient (regularization_type (param_ s))
                 (weight_decay (param_ s) * k * wd)
                 (arr s (ParamData i) j) (arr s (ParamDiff i) j) in
      let h' := (schedule / k * lr * g
                 + momentum (param_ s) * arr s (HistoryData i) j)%R in
      cell s' (ParamData i) j = Some (arr s (ParamData i) j) /\
      cell s' (HistoryData i) j = Some h' /\
      cell s' (ParamDiff i) j = Some h'.
Proof.
  intros Hmode Hsh Hrate Hreg Hk.
  destruct (SGD_loop n (schedule / Dtype_of_int (update_interval (param_ s)))
              (momentum (param_ s)) (SGD_weight_decay (param_ s))
              (regularization_type (param_ s)) s Hsh Hreg) as (s' & E & Hpost).
  exists s'. split.
  - unfold SGD_ComputeUpdateValue, SGD_rate. rewrite Hrate. cbn [bind].
    rewrite switch_mode_runs by assumption.
    destruct Hsh as [-> _]. exact E.
  - intros i j lr wd Hi Hj Hl Hw.
    exact (rule_post_cells s s' i j _ _ lr wd (Hpost i Hi) Hl Hw Hj).
Qed.

Lemma rule_shaped_trained_solver : rule_shaped 1 trained_solver.
Proof.
  split; [reflexivity|]. intros i Hi. assert (i = 0%nat) by lia. subst i.
  exists [(1 / 4)%R; (3 / 4)%R], [1%R; 2%R], [1%R; 2%R],
    [0%R; 0%R], [0%R; 0%R], 1%R, 1%R.
  split; reflexivity.
Qed.

Lemma rate_trained_solver :
  GetLearningRate (param_ trained_solver) (iter_ trained_solver)
  = Ok (1 / 10 * (1 / 2) ^ 3)%R.
Proof.
  apply (GetLearningRate_step step_param 6); [reflexivity | lia | simpl; lia].
Qed.

Lemma rule_shaped_stable_solver : rule_shaped 1 stable_solver.
Proof.
  split; [reflexivity|]. intros i Hi. assert (i = 0%nat) by lia. subst i.
  exists [(1 / 4)%R; (3 / 4)%R], [1%R; 2%R], [1%R; 2%R],
    [0%R; 0%R], [0%R; 0%R], 1%R, 1%R.
  split; reflexivity.
Qed.

Lemma SGD_update_rule_witness :
  exists s' : SGDSolver,
    SGD_ComputeUpdateValue false CPU trained_solver = Ok s' /\
    cell s' (ParamDiff 0) 1
    = Some (1 / 10 * (1 / 2) ^ 3 / 1 * 1 * 2 + 9 / 10 * 2)%R.
Proof.
  assert (Hk : update_interval (param_ trained_solver) <> 0)
    by (simpl; lia).
  destruct (SGD_update_rule false CPU trained_solver 1 _ (or_introl eq_refl)
              rule_shaped_trained_solver rate_trained_solver
              (or_introl eq_refl) Hk) as (s' & E & H).
  exists s'. split; [exact E|].
  destruct (H 0%nat 1%nat 1%R 1%R) as (_ & _ & Hd);
    [lia | unfold psize; simpl; lia | reflexivity | reflexivity |].
  rewrite Hd. unfold decayed_gradient.
  rewrite Dtype_nonzero_0 by (simpl; lra). reflexivity.
Defined.

(** ** Nesterov, AdaGrad and RMSprop *)

Lemma Nesterov_loop (n : nat) (rate momentum weight_decay : Dtype)
    (reg : string) (s0 : SGDSolver) :
  rule_shaped n s0 -> reg = "L2" \/ reg = "L1" ->
  let h := fun (i : nat) (lr wd : Dtype) (j : nat) =>
    (rate * lr * decayed_gradient reg (weight_decay * wd)
                   (arr s0 (ParamData i) j) (arr s0 (ParamDiff i) j)
     + momentum * arr s0 (HistoryData i) j)%R in
  let d := fun (i : nat) (lr wd : Dtype) (j : nat) =>
    ((1 + momentum) * h i lr wd j
     + - momentum * arr s0 (HistoryData i) j)%R in
  exists s' : SGDSolver,
    for_params (Nesterov_body rate momentum weight_decay reg) n 0 s0 = Ok s' /\
    forall i : nat, (i < n)%nat -> rule_post s0 s' i (h i) (d i).
Proof.
  intros [Hn Hsh] Hreg h d.
  apply (rule_loop n _ s0 h d); try reflexivity; try lia.
  intros k s Hk Hlr Hwd Hsame.
  destruct (Hsh k Hk) as (w & dd & hh & u & t & lr & wd & A).
  destruct (rule_arrays_models n k s0 s w dd hh u t lr wd Hk A Hlr Hwd Hsame)
    as (HN & Mw & Md & Mh & Mu & Mt & Hl & Hw).
  destruct (Nesterov_body_spec n k (length w) s s rate momentum weight_decay reg
              _ _ _ _ _ lr wd Hk (framed_refl n k s) Hreg Mw Md Mh Mu Mt Hl Hw)
    as (s1 & E & Hfr & Mh1 & Md1).
  exists s1. split; [exact E|]. split; [exact Hfr|].
  intros lr' wd' Hl' Hw'.
  assert (lr' = lr) by congruence. assert (wd' = wd) by congruence.
  subst lr' wd'. rewrite HN. repeat split; try assumption.
  eapply models_frame; [exact Mw|].
  apply read_data_keeps. eapply Nesterov_body_keeps. exact E.
Qed.

(** X3. NesterovSolver::ComputeUpdateValue, on buffers of the
    parameters' sizes and with regularization L2 or L1: for every element
    the history becomes
    [h' = schedule / update_interval * lr * g + momentum * h] and the
    gradient buffer receives [(1 + momentum) * h' - momentum * h], [h] the
    history before the call; the weight is not changed.  This is for an
    update_interval that is not zero, by which the rate is divided. *)
Theorem Nesterov_update_rule (CPU_ONLY : bool) (mode : SolverMode)
    (s : SGDSolver) (n : nat) (schedule : Dtype) :
  mode = CPU \/ CPU_ONLY = false ->
  rule_shaped n s ->
  GetLearningRate (param_ s) (iter_ s) = Ok schedule ->
  regularization_type (param_ s) = "L2" \/ regularization_type (param_ s) = "L1" ->
  update_interval (param_ s) <> 0 ->
  exists s' : SGDSolver,
    Nesterov_ComputeUpdateValue CPU_ONLY mode s = Ok s' /\
    forall (i j : nat) (lr wd : Dtype),
      (i < n)%nat -> (j < psize s i)%nat ->
      params_lr (net_ s) !! i = Some lr ->
      params_weight_decay (net_ s) !! i = Some wd ->
      let k := IZR (update_interval (param_ s)) in
      let g := decayed_gradient (regularization_type (param_ s))
                 (weight_decay (param_ s) * k * wd)
                 (arr s (ParamData i) j) (arr s (ParamDiff i) j) in
      let h := arr s (HistoryData i) j in
      let h' := (schedule / k * lr * g + momentum (param_ s) * h)%R in
      cell s' (ParamData i) j = Some (arr s (ParamData i) j) /\
      cell s' (HistoryData i) j = Some h' /\
      cell s' (ParamDiff i) j
      = Some ((1 + momentum (param_ s)) * h' - momentum (param_ s) * h)%R.
Proof.
  intros Hmode Hsh Hrate Hreg Hk.
  destruct (Nesterov_loop n (schedule / Dtype_of_int (update_interval (param_ s)))
              (momentum (param_ s)) (SGD_weight_decay (param_ s))
              (regularization_type (param_ s)) s Hsh Hreg) as (s' & E & Hpost).
  exists s'. split.
  - unfold Nesterov_ComputeUpdateValue, SGD_rate. rewrite Hrate. cbn [bind].
    rewrite switch_mode_runs by assumption.
    destruct Hsh as [-> _]. exact E.
  - intros i j lr wd Hi Hj Hl Hw.
    destruct (rule_post_cells s s' i j _ _ lr wd (Hpost i Hi) Hl Hw Hj)
      as (Cw & Ch & Cd).
    cbv zeta. split; [exact Cw|]. split; [exact Ch|].
    rewrite Cd. f_equal. unfold SGD_weight_decay, Dtype_of_int. ring.
Qed.

Lemma Nesterov_update_rule_witness :
  exists s' : SGDSolver,
    Nesterov_ComputeUpdateValue false CPU trained_solver = Ok s' /\
    cell s' (HistoryData 0) 0
    = Some (1 / 10 * (1 / 2) ^ 3 / 1 * 1 * 1 + 9 / 10 * 1)%R.
Proof.
  assert (Hk : update_interval (param_ trained_solver) <> 0)
    by (simpl; lia).
  destruct (Nesterov_update_rule false CPU trained_solver 1 _ (or_introl eq_refl)
              rule_shaped_trained_solver rate_trained_solver
              (or_introl eq_refl) Hk) as (s' & E & H).
  exists s'. split; [exact E|].
  destruct (H 0%nat 0%nat 1%R 1%R) as (_ & Hh & _);
    [lia | unfold psize; simpl; lia | reflexivity | reflexivity |].
  rewrite Hh. unfold decayed_gradient.
  rewrite Dtype_nonzero_0 by (simpl; lra). reflexivity.
Defined.

Lemma AdaGrad_loop (n : nat) (rate delta weight_decay : Dtype)
    (reg : string) (s0 : SGDSolver) :
  rule_shaped n s0 -> reg = "L2" \/ reg = "L1" ->
  let g := fun (i : nat) (wd : Dtype) (j : nat) =>
    decayed_gradient reg (weight_decay * wd)
      (arr s0 (ParamData i) j) (arr s0 (ParamDiff i) j) in
  let h := fun (i : nat) (lr wd : Dtype) (j : nat) =>
    (g i wd j * g i wd j + arr s0 (HistoryData i) j)%R in
  let d := fun (i : nat) (lr wd : Dtype) (j : nat) =>
    (rate * lr * (g i wd j / (sqrt (h i lr wd j) + delta)))%R in
  exists s' : SGDSolver,
    for_params (AdaGrad_body rate delta weight_decay reg) n 0 s0 = Ok s' /\
    forall i : nat, (i < n)%nat -> rule_post s0 s' i (h i) (d i).
Proof.
  intros [Hn Hsh] Hreg g h d.
  apply (rule_loop n _ s0 h d); try reflexivity; try lia.
  intros k s Hk Hlr Hwd Hsame.
  destruct (Hsh k Hk) as (w & dd & hh & u & t & lr & wd & A).
  destruct (rule_arrays_models n k s0 s w dd hh u t lr wd Hk A Hlr Hwd Hsame)
    as (HN & Mw & Md & Mh & Mu & Mt & Hl & Hw).
  destruct (AdaGrad_body_spec n k (length w) s s rate delta weight_decay reg
              _ _ _ _ _ lr wd Hk (framed_refl n k s) Hreg Mw Md Mh Mu Mt Hl Hw)
    as (s1 & E & Hfr & Mh1 & Md1).
  exists s1. split; [exact E|]. split; [exact Hfr|].
  intros lr' wd' Hl' Hw'.
  assert (lr' = lr) by congruence. assert (wd' = wd) by congruence.
  subst lr' wd'. rewrite HN. repeat split; try assumption.
  eapply models_frame; [exact Mw|].
  apply read_data_keeps. eapply AdaGrad_body_keeps. exact E.
Qed.

(** X4. AdaGradSolver::ComputeUpdateValue, on buffers of the parameters'
    sizes and with regularization L2 or L1: for every element, with [g] the
    gradient after weight decay, the history becomes [h' = h + g^2] and the
    gradient buffer receives [schedule * lr * g / (sqrt h' + delta)]; the
    weight is not changed.  This is for a positive [delta] and a history
    that is not negative, as the rule leaves it: then the radicand [h'] is
    not negative and the divisor [sqrt h' + delta] is positive. *)
Theorem AdaGrad_update_rule (CPU_ONLY : bool) (mode : SolverMode)
    (s : SGDSolver) (n : nat) (schedule : Dtype) :
  mode = CPU \/ CPU_ONLY = false ->
  rule_shaped n s ->
  GetLearningRate (param_ s) (iter_ s) = Ok schedule ->
  regularization_type (param_ s) = "L2" \/ regularization_type (param_ s) = "L1" ->
  (0 < delta (param_ s))%R ->
  (forall i j : nat,
     (i < n)%nat -> (j < psize s i)%nat ->
     (0 <= arr s (HistoryData i) j)%R) ->
  exists s' : SGDSolver,
    AdaGrad_ComputeUpdateValue CPU_ONLY mode s = Ok s' /\
    forall (i j : nat) (lr wd : Dtype),
      (i < n)%nat -> (j < psize s i)%nat ->
      params_lr (net_ s) !! i = Some lr ->
      params_weight_decay (net_ s) !! i = Some wd ->
      let g := decayed_gradient (regularization_type (param_ s))
                 (weight_decay (param_ s) * wd)
                 (arr s (ParamData i) j) (arr s (ParamDiff i) j) in
      let h' := (arr s (HistoryData i) j + g * g)%R in
      cell s' (ParamData i) j = Some (arr s (ParamData i) j) /\
      cell s' (HistoryData i) j = Some h' /\
      cell s' (ParamDiff i) j
      = Some (schedule * lr * g / (sqrt h' + delta (param_ s)))%R /\
      (0 <= h')%R /\ (0 < sqrt h' + delta (param_ s))%R.
Proof.
  intros Hmode Hsh Hrate Hreg Hdelta Hhist.
  destruct (AdaGrad_loop n schedule (delta (param_ s))
              (AdaGrad_weight_decay (param_ s))
              (regularization_type (param_ s)) s Hsh Hreg) as (s' & E & Hpost).
  exists s'. split.
  - unfold AdaGrad_ComputeUpdateValue, AdaGrad_rate. rewrite Hrate. cbn [bind].
    rewrite switch_mode_runs by assumption.
    destruct Hsh as [-> _]. exact E.
  - intros i j lr wd Hi Hj Hl Hw.
    destruct (rule_post_cells s s' i j _ _ lr wd (Hpost i Hi) Hl Hw Hj)
      as (Cw & Ch & Cd).
    pose proof (Hhist i j Hi Hj) as Hh0.
    cbv zeta. split; [exact Cw|]. unfold AdaGrad_weight_decay in *.
    set (g := decayed_gradient (regularization_type (param_ s))
                (weight_decay (param_ s) * wd) (arr s (ParamData i) j)
                (arr s (ParamDiff i) j)) in *.
    assert (Hh' : (0 <= arr s (HistoryData i) j + g * g)%R)
      by (pose proof (Rle_0_sqr g) as Hsq; unfold Rsqr in Hsq; lra).
    split; [|split; [|split]].
    + rewrite Ch. f_equal. ring.
    + rewrite Cd. f_equal. rewrite (Rplus_comm (arr s (HistoryData i) j)).
      unfold Rdiv. ring.
    + exact Hh'.
    + pose proof (sqrt_pos (arr s (HistoryData i) j + g * g)). lra.
Qed.

Lemma AdaGrad_update_rule_witness :
  exists s' : SGDSolver,
    AdaGrad_ComputeUpdateValue false CPU stable_solver = Ok s' /\
    cell s' (HistoryData 0) 1 = Some (2 + 2 * 2)%R.
Proof.
  assert (Hdelta : (0 < delta (param_ stable_solver))%R) by (simpl; lra).
  destruct (AdaGrad_update_rule false CPU stable_solver 1 _ (or_introl eq_refl)
              rule_shaped_stable_solver rate_stable_solver
              (or_introl eq_refl) Hdelta
              (fun i j Hi Hj => proj1 (history_stable_solver i j Hi Hj)))
    as (s' & E & H).
  exists s'. split; [exact E|].
  destruct (H 0%nat 1%nat 1%R 1%R) as (_ & Hh & _);
    [lia | unfold psize; simpl; lia | reflexivity | reflexivity |].
  rewrite Hh. unfold decayed_gradient.
  rewrite Dtype_nonzero_0 by (simpl; lra). reflexivity.
Defined.

Lemma RMSprop_loop (n : nat) (rate delta rms_decay weight_decay : Dtype)
    (reg : string) (s0 : SGDSolver) :
  rule_shaped n s0 -> reg = "L2" \/ reg = "L1" ->
  let g := fun (i : nat) (wd : Dtype) (j : nat) =>
    decayed_gradient reg (weight_decay * wd)
      (arr s0 (ParamData i) j) (arr s0 (ParamDiff i) j) in
  let h := fun (i : nat) (lr wd : Dtype) (j : nat) =>
    ((1 - rms_decay) * (g i wd j * g i wd j)
     + rms_decay * arr s0 (HistoryData i) j)%R in
  let d := fun (i : nat) (lr wd : Dtype) (j : nat) =>
    (rate * lr * (g i wd j / (sqrt (h i lr wd j) + delta)))%R in
  exists s' : SGDSolver,
    for_params (RMSprop_body rate delta rms_decay weight_decay reg) n 0 s0
    = Ok s' /\
    forall i : nat, (i < n)%nat -> rule_post s0 s' i (h i) (d i).
Proof.
  intros [Hn Hsh] Hreg g h d.
  apply (rule_loop n _ s0 h d); try reflexivity; try lia.
  intros k s Hk Hlr Hwd Hsame.
  destruct (Hsh k Hk) as (w & dd & hh & u & t & lr & wd & A).
  destruct (rule_arrays_models n k s0 s w dd hh u t lr wd Hk A Hlr Hwd Hsame)
    as (HN & Mw & Md & Mh & Mu & Mt & Hl & Hw).
  destruct (RMSprop_body_spec n k (length w) s s rate delta rms_decay
              weight_decay reg
              _ _ _ _ _ lr wd Hk (framed_refl n k s) Hreg Mw Md Mh Mu Mt Hl Hw)
    as (s1 & E & Hfr & Mh1 & Md1).
  exists s1. split; [exact E|]. split; [exact Hfr|].
  intros lr' wd' Hl' Hw'.
  assert (lr' = lr) by congruence. assert (wd' = wd) by congruence.
  subst lr' wd'. rewrite HN. repeat split; try assumption.
  eapply models_frame; [exact Mw|].
  apply read_data_keeps. eapply RMSprop_body_keeps. exact E.
Qed.

(** X5. RMSpropSolver::ComputeUpdateValue, on buffers of the parameters'
    sizes and with regularization L2 or L1: for every element, with [g] the
    gradient after weight decay, the history becomes
    [h' = (1 - rms_decay) * g^2 + rms_decay * h] and the gradient buffer
    receives [schedule * lr * g / (sqrt h' + delta)]; the weight is not
    changed.  This is for a positive [delta], an rms_decay between 0 and 1
    and a history that is not negative, as the rule leaves it: then the
    radicand [h'] is not negative and the divisor [sqrt h' + delta] is
    positive. *)
Theorem RMSprop_update_rule (CPU_ONLY : bool) (mode : SolverMode)
    (s : SGDSolver) (n : nat) (schedule : Dtype) :
  mode = CPU \/ CPU_ONLY = false ->
  rule_shaped n s ->
  GetLearningRate (param_ s) (iter_ s) = Ok schedule ->
  regularization_type (param_ s) = "L2" \/ regularization_type (param_ s) = "L1" ->
  (0 < delta (param_ s))%R ->
  (0 <= rms_decay (param_ s) <= 1)%R ->
  (forall i j : nat,
     (i < n)%nat -> (j < psize s i)%nat ->
     (0 <= arr s (HistoryData i) j)%R) ->
  exists s' : SGDSolver,
    RMSprop_ComputeUpdateValue CPU_ONLY mode s = Ok s' /\
    forall (i j : nat) (lr wd : Dtype),
      (i < n)%nat -> (j < psize s i)%nat ->
      params_lr (net_ s) !! i = Some lr ->
      params_weight_decay (net_ s) !! i = Some wd ->
      let g := decayed_gradient (regularization_type (param_ s))
                 (weight_decay (param_ s) * wd)
                 (arr s (ParamData i) j) (arr s (ParamDiff i) j) in
      let h' := ((1 - rms_decay (param_ s)) * (g * g)
                 + rms_decay (param_ s) * arr s (HistoryData i) j)%R in
      cell s' (ParamData i) j = Some (arr s (ParamData i) j) /\
      cell s' (HistoryData i) j = Some h' /\
      cell s' (ParamDiff i) j
      = Some (schedule * lr * g / (sqrt h' + delta (param_ s)))%R /\
      (0 <= h')%R /\ (0 < sqrt h' + delta (param_ s))%R.
Proof.
  intros Hmode Hsh Hrate Hreg Hdelta Hrms Hhist.
  destruct (RMSprop_loop n schedule (delta (param_ s)) (rms_decay (param_ s))
              (AdaGrad_weight_decay (param_ s))
              (regularization_type (param_ s)) s Hsh Hreg) as (s' & E & Hpost).
  exists s'. split.
  - unfold RMSprop_ComputeUpdateValue, AdaGrad_rate. rewrite Hrate. cbn [bind].
    rewrite switch_mode_runs by assumption.
    destruct Hsh as [-> _]. exact E.
  - intros i j lr wd Hi Hj Hl Hw.
    destruct (rule_post_cells s s' i j _ _ lr wd (Hpost i Hi) Hl Hw Hj)
      as (Cw & Ch & Cd).
    pose proof (Hhist i j Hi Hj) as Hh0.
    cbv zeta. split; [exact Cw|]. unfold AdaGrad_weight_decay in *.
    set (g := decayed_gradient (regularization_type (param_ s))
                (weight_decay (param_ s) * wd) (arr s (ParamData i) j)
                (arr s (ParamDiff i) j)) in *.
    assert (Hh' : (0 <= (1 - rms_decay (param_ s)) * (g * g)
                        + rms_decay (param_ s) * arr s (HistoryData i) j)%R)
      by (pose proof (Rle_0_sqr g) as Hsq; unfold Rsqr in Hsq; nra).
    split; [exact Ch|]. split; [|split].
    + rewrite Cd. f_equal. unfold Rdiv. ring.
    + exact Hh'.
    + pose proof (sqrt_pos ((1 - rms_decay (param_ s)) * (g * g)
                            + rms_decay (param_ s) * arr s (HistoryData i) j)).
      lra.
Qed.

Lemma RMSprop_update_rule_witness :
  exists s' : SGDSolver,
    RMSprop_ComputeUpdateValue false CPU stable_solver = Ok s' /\
    cell s' (HistoryData 0) 1 = Some ((1 - 0) * (2 * 2) + 0 * 2)%R.
Proof.
  assert (Hdelta : (0 < delta (param_ stable_solver))%R) by (simpl; lra).
  assert (Hrms : (0 <= rms_decay (param_ stable_solver) <= 1)%R)
    by (simpl; lra).
  destruct (RMSprop_update_rule false CPU stable_solver 1 _ (or_introl eq_refl)
              rule_shaped_stable_solver rate_stable_solver
              (or_introl eq_refl) Hdelta Hrms
              (fun i j Hi Hj => proj1 (history_stable_solver i j Hi Hj)))
    as (s' & E & H).
  exists s'. split; [exact E|].
  destruct (H 0%nat 1%nat 1%R 1%R) as (_ & Hh & _);
    [lia | unfold psize; simpl; lia | reflexivity | reflexivity |].
  rewrite Hh. unfold decayed_gradient.
  rewrite Dtype_nonzero_0 by (simpl; lra). reflexivity.
Defined.

(** ** The regularization type *)

Lemma Regularize_unknown (reg : string) (N : nat) (ld : Dtype) (i : nat)
    (s : SGDSolver) :
  reg <> "L2" -> reg <> "L1" -> Dtype_nonzero ld = true ->
  Regularize reg N ld i s = Fatal ("Unknown regularization type: " ++ reg).
Proof.
  intros H2 H1 Hld. unfold Regularize. rewrite Hld.
  destruct (String.eqb_spec reg "L2"); [contradiction|].
  destruct (String.eqb_spec reg "L1"); [contradiction|]. reflexivity.
Qed.

Lemma Regularize_returns_unknown (reg : string) (N : nat) (ld : Dtype)
    (i : nat) (s s' : SGDSolver) :
  reg <> "L2" -> reg <> "L1" ->
  Regularize reg N ld i s = Ok s' -> Dtype_nonzero ld = false.
Proof.
  intros H2 H1 H. destruct (Dtype_nonzero ld) eqn:E; [|reflexivity].
  rewrite Regularize_unknown in H by assumption. discriminate.
Qed.

Lemma at_Ok {A : Type} (l : list A) (i : nat) (a : A) :
  at_ l i = Ok a -> l !! i = Some a.
Proof. unfold at_. destruct (l !! i); [congruence | discriminate]. Qed.

(** A loop body that returned under an unknown regularization type found
    the local decay of its parameter zero. *)
Ltac body_decay :=
  intros H2 H1 H; repeat bind_step;
  match goal with
  | E : Regularize _ _ _ _ _ = Ok _ |- _ =>
      apply Regularize_returns_unknown in E; [|assumption|assumption]
  end;
  keeps_facts;
  match goal with
  | E : at_ (params_weight_decay (net_ ?s1)) _ = Ok ?wd |- _ =>
      apply at_Ok in E; exists wd; split; [|assumption];
      first [exact E
            | match goal with
              | K : keeps _ s1 |- _ =>
                  rewrite <- (keeps_wd _ _ K); exact E
              end]
  end.

Lemma SGD_body_decay (rate momentum wdecay : Dtype) (reg : string)
    (i : nat) (s s' : SGDSolver) :
  reg <> "L2" -> reg <> "L1" ->
  SGD_body rate momentum wdecay reg i s = Ok s' ->
  exists wd : Dtype,
    params_weight_decay (net_ s) !! i = Some wd /\
    Dtype_nonzero (wdecay * wd) = false.
Proof. unfold SGD_body. body_decay. Qed.

Lemma Nesterov_body_decay (rate momentum wdecay : Dtype) (reg : string)
    (i : nat) (s s' : SGDSolver) :
  reg <> "L2" -> reg <> "L1" ->
  Nesterov_body rate momentum wdecay reg i s = Ok s' ->
  exists wd : Dtype,
    params_weight_decay (net_ s) !! i = Some wd /\
    Dtype_nonzero (wdecay * wd) = false.
Proof. unfold Nesterov_body. body_decay. Qed.

Lemma AdaGrad_body_decay (rate delta wdecay : Dtype) (reg : string)
    (i : nat) (s s' : SGDSolver) :
  reg <> "L2" -> reg <> "L1" ->
  AdaGrad_body rate delta wdecay reg i s = Ok s' ->
  exists wd : Dtype,
    params_weight_decay (net_ s) !! i = Some wd /\
    Dtype_nonzero (wdecay * wd) = false.
Proof. unfold AdaGrad_body. body_decay. Qed.

Lemma AdaDelta_body_decay (rate delta momentum wdecay : Dtype) (reg : string)
    (offset i : nat) (s s' : SGDSolver) :
  reg <> "L2" -> reg <> "L1" ->
  AdaDelta_body rate delta momentum wdecay reg offset i s = Ok s' ->
  exists wd : Dtype,
    params_weight_decay (net_ s) !! i = Some wd /\
    Dtype_nonzero (wdecay * wd) = false.
Proof. unfold AdaDelta_body. body_decay. Qed.

Lemma RMSprop_body_decay (rate delta rms wdecay : Dtype) (reg : string)
    (i : nat) (s s' : SGDSolver) :
  reg <> "L2" -> reg <> "L1" ->
  RMSprop_body rate delta rms wdecay reg i s = Ok s' ->
  exists wd : Dtype,
    params_weight_decay (net_ s) !! i = Some wd /\
    Dtype_nonzero (wdecay * wd) = false.
Proof. unfold RMSprop_body. body_decay. Qed.

Lemma for_params_decay (body : nat -> SGDSolver -> Result SGDSolver)
    (wdecay : Dtype) :
  (forall (i : nat) (s s' : SGDSolver), body i s = Ok s' -> keeps s s') ->
  (forall (i : nat) (s s' : SGDSolver),
     body i s = Ok s' ->
     exists wd : Dtype,
       params_weight_decay (net_ s) !! i = Some wd /\
       Dtype_nonzero (wdecay * wd) = false) ->
  forall (m k : nat) (s s' : SGDSolver),
    for_params body m k s = Ok s' ->
    forall i : nat, (k <= i < k + m)%nat ->
      exists wd : Dtype,
        params_weight_decay (net_ s) !! i = Some wd /\
        Dtype_nonzero (wdecay * wd) = false.
Proof.
  intros Hk Hb. induction m as [|m IH]; intros k s s' H i Hi; [lia|].
  simpl in H. bind_step.
  destruct (Nat.eq_dec i k) as [->|Hne].
  - eapply Hb; eassumption.
  - rewrite <- (keeps_wd _ _ (Hk _ _ _ E)).
    eapply (IH (S k)); [eassumption | lia].
Qed.

Lemma switch_mode_for_params (CPU_ONLY : bool) (mode : SolverMode)
    (body : nat -> SGDSolver -> Result SGDSolver) (s s' : SGDSolver) :
  switch_mode CPU_ONLY mode body s = Ok s' ->
  for_params body (length (params (net_ s))) 0 s = Ok s'.
Proof.
  unfold switch_mode. destruct mode; [tauto|].
  destruct CPU_ONLY; [discriminate | tauto].
Qed.

(** X6. With a regularization type other than "L2" and "L1",
    ComputeUpdateValue of each of the five solvers returns only if the local
    decay (the weight decay as the rule scales it, times the parameter's
    decay multiplier) of every parameter is zero; a parameter with a nonzero
    local decay makes the call fatal. *)
Theorem unknown_regularization_type (ty : SolverType) (CPU_ONLY : bool)
    (mode : SolverMode) (s : SGDSolver) :
  regularization_type (param_ s) <> "L2" ->
  regularization_type (param_ s) <> "L1" ->
  (forall s' : SGDSolver,
     ComputeUpdateValue ty CPU_ONLY mode s = Ok s' ->
     forall i : nat, (i < length (params (net_ s)))%nat ->
       exists wd : Dtype,
         params_weight_decay (net_ s) !! i = Some wd /\
         local_decay_of ty (param_ s) wd = 0%R) /\
  (forall (i : nat) (wd : Dtype),
     (i < length (params (net_ s)))%nat ->
     params_weight_decay (net_ s) !! i = Some wd ->
     local_decay_of ty (param_ s) wd <> 0%R ->
     is_Fatal (ComputeUpdateValue ty CPU_ONLY mode s)).
Proof.
  intros H2 H1.
  assert (Hret : forall s' : SGDSolver,
             ComputeUpdateValue ty CPU_ONLY mode s = Ok s' ->
             forall i : nat, (i < length (params (net_ s)))%nat ->
               exists wd : Dtype,
                 params_weight_decay (net_ s) !! i = Some wd /\
                 local_decay_of ty (param_ s) wd = 0%R).
  { intros s' H i Hi.
    assert (Hz : forall x : Dtype, Dtype_nonzero x = false -> x = 0%R).
    { intros x. unfold Dtype_nonzero.
      destruct (Req_dec_T x 0); [tauto | discriminate]. }
    destruct ty; simpl in H |- *;
      unfold SGD_ComputeUpdateValue, Nesterov_ComputeUpdateValue,
        AdaGrad_ComputeUpdateValue, AdaDelta_ComputeUpdateValue,
        RMSprop_ComputeUpdateValue in H;
      bind_step; apply switch_mode_for_params in H.
    - destruct (for_params_decay _ _ (SGD_body_keeps _ _ _ _)
                  (fun i s s' => SGD_body_decay _ _ _ _ i s s' H2 H1)
                  _ _ _ _ H i) as (wd & Hwd & Hd); [lia|].
      exists wd. split; [exact Hwd | apply Hz; exact Hd].
    - destruct (for_params_decay _ _ (Nesterov_body_keeps _ _ _ _)
                  (fun i s s' => Nesterov_body_decay _ _ _ _ i s s' H2 H1)
                  _ _ _ _ H i) as (wd & Hwd & Hd); [lia|].
      exists wd. split; [exact Hwd | apply Hz; exact Hd].
    - destruct (for_params_decay _ _ (AdaGrad_body_keeps _ _ _ _)
                  (fun i s s' => AdaGrad_body_decay _ _ _ _ i s s' H2 H1)
                  _ _ _ _ H i) as (wd & Hwd & Hd); [lia|].
      exists wd. split; [exact Hwd | apply Hz; exact Hd].
    - destruct (for_params_decay _ _ (AdaDelta_body_keeps _ _ _ _ _ _)
                  (fun i s s' => AdaDelta_body_decay _ _ _ _ _ _ i s s' H2 H1)
                  _ _ _ _ H i) as (wd & Hwd & Hd); [lia|].
      exists wd. split; [exact Hwd | apply Hz; exact Hd].
    - destruct (for_params_decay _ _ (RMSprop_body_keeps _ _ _ _ _)
                  (fun i s s' => RMSprop_body_decay _ _ _ _ _ i s s' H2 H1)
                  _ _ _ _ H i) as (wd & Hwd & Hd); [lia|].
      exists wd. split; [exact Hwd | apply Hz; exact Hd]. }
  split; [exact Hret|].
  intros i wd Hi Hwd Hne.
  destruct (ComputeUpdateValue ty CPU_ONLY mode s) as [s'|msg] eqn:E;
    [|exact I].
  destruct (Hret s' eq_refl i Hi) as (wd' & Hwd' & Hz).
  assert (wd' = wd) by congruence. subst wd'. contradiction.
Qed.

Lemma unknown_regularization_type_witness :
  is_Fatal (ComputeUpdateValue AdaGrad false CPU l3_solver).
Proof.
  assert (H2 : regularization_type (param_ l3_solver) <> "L2") by discriminate.
  assert (H1 : regularization_type (param_ l3_solver) <> "L1") by discriminate.
  apply (proj2 (unknown_regularization_type AdaGrad false CPU l3_solver H2 H1)
           0%nat 1%R).
  - simpl. lia.
  - reflexivity.
  - simpl. unfold AdaGrad_weight_decay. simpl. lra.
Defined.

(** The rules read the configuration in the preamble only: the loop
    bodies commute with a change of [param_]. *)
Lemma read_set_param (s : SGDSolver) (p : SolverParameter) (b : Buf) :
  read (set_param s p) b = read s b.
Proof. destruct b; reflexivity. Qed.

Lemma write_set_param (s : SGDSolver) (p : SolverParameter) (b : Buf)
    (v : list Dtype) :
  write (set_param s p) b v = set_param (write s b v) p.
Proof. destruct b; reflexivity. Qed.

Lemma call1_set_param (k : list Dtype -> list Dtype) (Y : Buf)
    (s : SGDSolver) (p : SolverParameter) :
  call1 k Y (set_param s p)
  = Result_map (fun s => set_param s p) (call1 k Y s).
Proof.
  unfold call1. rewrite read_set_param.
  destruct (read s Y); simpl; [|reflexivity].
  now rewrite write_set_param.
Qed.

Lemma call2_set_param (k : list Dtype -> list Dtype -> list Dtype) (X Y : Buf)
    (s : SGDSolver) (p : SolverParameter) :
  call2 k X Y (set_param s p)
  = Result_map (fun s => set_param s p) (call2 k X Y s).
Proof.
  unfold call2. rewrite !read_set_param.
  destruct (read s X); simpl; [|reflexivity].
  destruct (read s Y); simpl; [|reflexivity].
  now rewrite write_set_param.
Qed.

Lemma call3_set_param
    (k : list Dtype -> list Dtype -> list Dtype -> list Dtype) (A B Y : Buf)
    (s : SGDSolver) (p : SolverParameter) :
  call3 k A B Y (set_param s p)
  = Result_map (fun s => set_param s p) (call3 k A B Y s).
Proof.
  unfold call3. rewrite !read_set_param.
  destruct (read s A); simpl; [|reflexivity].
  destruct (read s B); simpl; [|reflexivity].
  destruct (read s Y); simpl; [|reflexivity].
  now rewrite write_set_param.
Qed.

Lemma Regularize_zero (reg : string) (N : nat) (wd : Dtype) (i : nat)
    (s : SGDSolver) :
  Regularize reg N (0 * wd) i s = Ok s.
Proof.
  unfold Regularize. now rewrite Dtype_nonzero_0 by apply Rmult_0_l.
Qed.

Ltac same_net :=
  repeat match goal with
  | |- context [net_ (set_param ?s ?q)] =>
      change (net_ (set_param s q)) with (net_ s)
  end.

Ltac commute_step :=
  same_net;
  first
    [ rewrite call1_set_param | rewrite call2_set_param
    | rewrite call3_set_param | rewrite !Regularize_zero ];
  match goal with
  | |- bind (Result_map _ ?c) _ = Result_map _ (bind ?c _) =>
      destruct c; cbn [bind Result_map]; [|reflexivity]
  | |- bind (Ok _) _ = Result_map _ (bind (Ok _) _) => cbn [bind]
  | |- Result_map _ _ = Result_map _ _ => reflexivity
  end.

Ltac commute_reads :=
  same_net;
  match goal with
  | |- bind ?c _ = Result_map _ (bind ?c _) =>
      destruct c; cbn [bind Result_map]; [|reflexivity]
  end.

Ltac body_commutes := intros; repeat (commute_reads || commute_step).

Lemma SGD_body_set_param (rate momentum : Dtype) (reg reg' : string)
    (i : nat) (s : SGDSolver) (p : SolverParameter) :
  SGD_body rate momentum 0 reg i (set_param s p)
  = Result_map (fun s => set_param s p) (SGD_body rate momentum 0 reg' i s).
Proof. unfold SGD_body, param_count. body_commutes. Qed.

Lemma Nesterov_body_set_param (rate momentum : Dtype) (reg reg' : string)
    (i : nat) (s : SGDSolver) (p : SolverParameter) :
  Nesterov_body rate momentum 0 reg i (set_param s p)
  = Result_map (fun s => set_param s p)
      (Nesterov_body rate momentum 0 reg' i s).
Proof. unfold Nesterov_body, param_count. body_commutes. Qed.

Lemma AdaGrad_body_set_param (rate delta : Dtype) (reg reg' : string)
    (i : nat) (s : SGDSolver) (p : SolverParameter) :
  AdaGrad_body rate delta 0 reg i (set_param s p)
  = Result_map (fun s => set_param s p) (AdaGrad_body rate delta 0 reg' i s).
Proof. unfold AdaGrad_body, param_count. body_commutes. Qed.

Lemma AdaDelta_body_set_param (rate delta momentum : Dtype)
    (reg reg' : string) (offset i : nat) (s : SGDSolver)
    (p : SolverParameter) :
  AdaDelta_body rate delta momentum 0 reg offset i (set_param s p)
  = Result_map (fun s => set_param s p)
      (AdaDelta_body rate delta momentum 0 reg' offset i s).
Proof. unfold AdaDelta_body, param_count. body_commutes. Qed.

Lemma RMSprop_body_set_param (rate delta rms : Dtype) (reg reg' : string)
    (i : nat) (s : SGDSolver) (p : SolverParameter) :
  RMSprop_body rate delta rms 0 reg i (set_param s p)
  = Result_map (fun s => set_param s p)
      (RMSprop_body rate delta rms 0 reg' i s).
Proof. unfold RMSprop_body, param_count. body_commutes. Qed.

Lemma for_params_set_param (body body' : nat -> SGDSolver -> Result SGDSolver)
    (p : SolverParameter) :
  (forall (i : nat) (s : SGDSolver),
     body i (set_param s p)
     = Result_map (fun s => set_param s p) (body' i s)) ->
  forall (m k : nat) (s : SGDSolver),
    for_params body m k (set_param s p)
    = Result_map (fun s => set_param s p) (for_params body' m k s).
Proof.
  intros Hb. induction m as [|m IH]; intros k s; simpl; [reflexivity|].
  rewrite Hb. destruct (body' k s); simpl; [apply IH | reflexivity].
Qed.

Lemma switch_mode_set_param (CPU_ONLY : bool) (mode : SolverMode)
    (body body' : nat -> SGDSolver -> Result SGDSolver)
    (s : SGDSolver) (p : SolverParameter) :
  (forall (i : nat) (s : SGDSolver),
     body i (set_param s p)
     = Result_map (fun s => set_param s p) (body' i s)) ->
  switch_mode CPU_ONLY mode body (set_param s p)
  = Result_map (fun s => set_param s p) (switch_mode CPU_ONLY mode body' s).
Proof.
  intros Hb. unfold switch_mode. same_net.
  destruct mode; [now apply for_params_set_param|].
  destruct CPU_ONLY; [reflexivity | now apply for_params_set_param].
Qed.

(** X7. With a zero weight decay the regularization type is never looked
    at: under any other type name, known or not, ComputeUpdateValue of each
    of the five solvers fails or returns as before and leaves the same
    arrays. *)
Theorem zero_weight_decay_ignores_regularization_type (ty : SolverType)
    (CPU_ONLY : bool) (mode : SolverMode) (s : SGDSolver) (name : string) :
  weight_decay (param_ s) = 0%R ->
  let p := with_regularization_type name (param_ s) in
  ComputeUpdateValue ty CPU_ONLY mode (set_param s p)
  = Result_map (fun s' => set_param s' p)
      (ComputeUpdateValue ty CPU_ONLY mode s).
Proof.
  intros Hw p.
  assert (Hs : SGD_weight_decay (param_ s) = 0%R)
    by (unfold SGD_weight_decay; rewrite Hw; apply Rmult_0_l).
  assert (Ha : AdaGrad_weight_decay (param_ s) = 0%R) by exact Hw.
  assert (Hs' : SGD_weight_decay p = 0%R) by exact Hs.
  assert (Ha' : AdaGrad_weight_decay p = 0%R) by exact Hw.
  assert (Hr : forall t : Z, SGD_rate p t = SGD_rate (param_ s) t)
    by reflexivity.
  assert (Hr' : forall t : Z, AdaGrad_rate p t = AdaGrad_rate (param_ s) t)
    by reflexivity.
  destruct ty; simpl;
    unfold SGD_ComputeUpdateValue, Nesterov_ComputeUpdateValue,
      AdaGrad_ComputeUpdateValue, AdaDelta_ComputeUpdateValue,
      RMSprop_ComputeUpdateValue;
    change (param_ (set_param s p)) with p;
    change (iter_ (set_param s p)) with (iter_ s);
    same_net;
    rewrite ?Hr, ?Hr', ?Hs, ?Ha, ?Hs', ?Ha'.
  - destruct (SGD_rate (param_ s) (iter_ s)); simpl; [|reflexivity].
    apply switch_mode_set_param. intros. apply SGD_body_set_param.
  - destruct (SGD_rate (param_ s) (iter_ s)); simpl; [|reflexivity].
    apply switch_mode_set_param. intros. apply Nesterov_body_set_param.
  - destruct (AdaGrad_rate (param_ s) (iter_ s)); simpl; [|reflexivity].
    apply switch_mode_set_param. intros. apply AdaGrad_body_set_param.
  - destruct (AdaGrad_rate (param_ s) (iter_ s)); simpl; [|reflexivity].
    apply switch_mode_set_param. intros. apply AdaDelta_body_set_param.
  - destruct (AdaGrad_rate (param_ s) (iter_ s)); simpl; [|reflexivity].
    apply switch_mode_set_param. intros. apply RMSprop_body_set_param.
Qed.

Lemma zero_weight_decay_ignores_regularization_type_witness :
  ComputeUpdateValue SGD false CPU
    (set_param trained_solver (with_regularization_type "L3" step_param))
  = Result_map
      (fun s' => set_param s' (with_regularization_type "L3" step_param))
      (ComputeUpdateValue SGD false CPU trained_solver).
Proof.
  exact (zero_weight_decay_ignores_regularization_type SGD false CPU
           trained_solver "L3" eq_refl).
Defined.

(** ** The first update after PreSolve *)

(** After SGDSolver::PreSolve every parameter has a history, an update and
    a temp array of its size. *)
Lemma SGD_PreSolve_rule_shaped (s : SGDSolver) :
  length (params_lr (net_ s)) = length (params (net_ s)) ->
  length (params_weight_decay (net_ s)) = length (params (net_ s)) ->
  Forall (fun p => length (cpu_diff p) = length (cpu_data p)) (params (net_ s)) ->
  rule_shaped (length (params (net_ s))) (SGD_PreSolve s).
Proof.
  intros Hlr Hwd Hall. split; [reflexivity|]. intros i Hi.
  destruct (lookup_lt_is_Some_2 (params (net_ s)) i Hi) as [p Hp].
  destruct (lookup_lt_is_Some_2 (params_lr (net_ s)) i) as [lr Hl]; [lia|].
  destruct (lookup_lt_is_Some_2 (params_weight_decay (net_ s)) i) as [wd Hw];
    [lia|].
  pose proof (zero_like_lookup _ _ _ Hp) as Hz.
  exists (cpu_data p), (cpu_diff p), (replicate (count p) 0%R),
    (replicate (count p) 0%R), (replicate (count p) 0%R), lr, wd.
  split; simpl; unfold at_;
    rewrite ?Hp, ?Hz, ?Hl, ?Hw, ?length_replicate; try reflexivity.
  rewrite Forall_forall in Hall. apply Hall.
  eapply list_elem_of_lookup_2. exact Hp.
Qed.

Lemma nth_replicate_0 (n j : nat) : nth j (replicate n 0%R) 0%R = 0%R.
Proof.
  revert j. induction n as [|n IH]; intros [|j]; simpl; try reflexivity.
  apply IH.
Qed.

Lemma arr_PreSolve_history (s : SGDSolver) (i j : nat) :
  arr (SGD_PreSolve s) (HistoryData i) j = 0%R.
Proof.
  unfold arr. simpl. unfold at_.
  destruct (zero_like (params (net_ s)) !! i) as [h|] eqn:E; simpl;
    [|reflexivity].
  unfold zero_like in E.
  change (map (fun net_param => new_Blob (count net_param)) (params (net_ s)))
    with ((fun net_param => new_Blob (count net_param)) <$> params (net_ s)) in E.
  rewrite list_lookup_fmap in E.
  destruct (params (net_ s) !! i); simpl in E; [|discriminate].
  inversion E. simpl. apply nth_replicate_0.
Qed.

(** X8. SGDSolver::PreSolve followed by SGDSolver::ComputeUpdateValue, on
    a net whose parameters have their multipliers and gradients of the size
    of the weights, in CPU mode or a build with the GPU code, with
    regularization L2 or L1 and an update_interval that is not zero: the
    call returns, and the first update of every element is
    [schedule / update_interval * lr * g], whatever the momentum, because
    PreSolve left a zero history. *)
Theorem SGD_first_update (CPU_ONLY : bool) (mode : SolverMode)
    (s : SGDSolver) (schedule : Dtype) :
  mode = CPU \/ CPU_ONLY = false ->
  length (params_lr (net_ s)) = length (params (net_ s)) ->
  length (params_weight_decay (net_ s)) = length (params (net_ s)) ->
  Forall (fun p => length (cpu_diff p) = length (cpu_data p)) (params (net_ s)) ->
  GetLearningRate (param_ s) (iter_ s) = Ok schedule ->
  regularization_type (param_ s) = "L2" \/ regularization_type (param_ s) = "L1" ->
  update_interval (param_ s) <> 0 ->
  exists s' : SGDSolver,
    SGD_ComputeUpdateValue CPU_ONLY mode (SGD_PreSolve s) = Ok s' /\
    forall (i j : nat) (lr wd : Dtype),
      (i < length (params (net_ s)))%nat -> (j < psize s i)%nat ->
      params_lr (net_ s) !! i = Some lr ->
      params_weight_decay (net_ s) !! i = Some wd ->
      let k := IZR (update_interval (param_ s)) in
      let g := decayed_gradient (regularization_type (param_ s))
                 (weight_decay (param_ s) * k * wd)
                 (arr s (ParamData i) j) (arr s (ParamDiff i) j) in
      cell s' (HistoryData i) j = Some (schedule / k * lr * g)%R /\
      cell s' (ParamDiff i) j = Some (schedule / k * lr * g)%R.
Proof.
  intros Hmode Hlr Hwd Hall Hrate Hreg Hk.
  pose proof (SGD_PreSolve_rule_shaped s Hlr Hwd Hall) as Hsh.
  destruct (SGD_loop _ (schedule / Dtype_of_int (update_interval (param_ s)))
              (momentum (param_ s)) (SGD_weight_decay (param_ s))
              (regularization_type (param_ s)) (SGD_PreSolve s) Hsh Hreg)
    as (s' & E & Hpost).
  exists s'. split.
  - unfold SGD_ComputeUpdateValue, SGD_rate.
    change (param_ (SGD_PreSolve s)) with (param_ s).
    change (iter_ (SGD_PreSolve s)) with (iter_ s).
    rewrite Hrate. cbn [bind].
    rewrite switch_mode_runs by assumption. exact E.
  - intros i j lr wd Hi Hj Hl Hw.
    destruct (rule_post_cells (SGD_PreSolve s) s' i j _ _ lr wd
                (Hpost i Hi) Hl Hw Hj) as (_ & Ch & Cd).
    rewrite arr_PreSolve_history in Ch, Cd.
    cbv zeta. rewrite Ch, Cd.
    change (arr (SGD_PreSolve s) (ParamData i) j) with (arr s (ParamData i) j).
    change (arr (SGD_PreSolve s) (ParamDiff i) j) with (arr s (ParamDiff i) j).
    unfold SGD_weight_decay, Dtype_of_int.
    split; f_equal; ring.
Qed.

Lemma SGD_first_update_witness :
  exists s' : SGDSolver,
    SGD_ComputeUpdateValue false CPU (SGD_PreSolve trained_solver) = Ok s' /\
    cell s' (ParamDiff 0) 1 = Some (1 / 10 * (1 / 2) ^ 3 / 1 * 1 * 2)%R.
Proof.
  destruct (SGD_first_update false CPU trained_solver (1 / 10 * (1 / 2) ^ 3)%R
              (or_introl eq_refl) eq_refl eq_refl) as (s' & E & H).
  - repeat constructor.
  - exact rate_trained_solver.
  - left. reflexivity.
  - simpl. lia.
  - exists s'. split; [exact E|].
    destruct (H 0%nat 1%nat 1%R 1%R) as (_ & Hd);
      [simpl; lia | unfold psize; simpl; lia | reflexivity | reflexivity |].
    rewrite Hd. unfold decayed_gradient.
    rewrite Dtype_nonzero_0 by (simpl; lra). reflexivity.
Defined.

(** ** The schedule of a run: evaluations and updates *)

Lemma train_step_events (param_ : SolverParameter) (accumulate : bool)
    (loss_of : nat -> Dtype) (calls : nat) :
  tests (snd (train_step param_ accumulate loss_of calls)) = [] /\
  updates (snd (train_step param_ accumulate loss_of calls)) = [] /\
  snd (fst (train_step param_ accumulate loss_of calls))
  = (calls + calls_per_pass param_ accumulate)%nat.
Proof.
  unfold train_step, calls_per_pass, tests, updates.
  destruct accumulate; simpl; [|repeat split; lia].
  rewrite accumulate_loop_spec. simpl. rewrite !omap_app. simpl.
  unfold accumulate_events.
  generalize (Z.to_nat (update_interval param_ - 1)). intros n.
  assert (H : forall (f : Event -> option Z) (c : nat),
             f EvAccumulateDiff = None ->
             (forall k : nat, f (EvForwardBackward k) = None) ->
             omap f (flat_map (fun c => [EvForwardBackward c; EvAccumulateDiff])
                       (seq c n)) = []).
  { intros f c Ha Hf. revert c.
    induction n as [|n IH]; intros c; simpl; [reflexivity|].
    now rewrite Hf, Ha, IH. }
  rewrite !H by reflexivity. repeat split. lia.
Qed.

Lemma test_due_spec (param_ : SolverParameter) (iter_ : Z) :
  0 < test_interval param_ ->
  test_due param_ iter_ = true
  <-> iter_ mod test_interval param_ = 0 /\
      (0 < iter_ \/ test_initialization param_ = true).
Proof.
  intros Ht. unfold test_due.
  destruct (Z.eqb_spec (test_interval param_) 0) as [E|_]; [lia|]. simpl.
  rewrite andb_true_iff, orb_true_iff, Z.ltb_lt, Z.eqb_eq.
  rewrite Z.rem_divide, Z.mod_divide by lia. reflexivity.
Qed.

Lemma Solve_pass_schedule (param_ : SolverParameter) (accumulate : bool)
    (loss_of : nat -> Dtype) (start_iter : Z) (st st' : LoopState) :
  Solve_pass param_ accumulate loss_of start_iter st = Ok st' ->
  loop_iter st' = loop_iter st + 1 /\
  fb_calls st' = (fb_calls st + calls_per_pass param_ accumulate)%nat /\
  tests (trace st')
  = tests (trace st)
    ++ (if test_due param_ (loop_iter st) then [loop_iter st] else []) /\
  updates (trace st') = updates (trace st) ++ [loop_iter st].
Proof.
  unfold Solve_pass.
  destruct (train_step_events param_ accumulate loss_of (fb_calls st))
    as (Ht & Hu & Hc).
  destruct (train_step param_ accumulate loss_of (fb_calls st))
    as [[loss calls] evs].
  simpl in Ht, Hu, Hc.
  destruct (update_smoothed_loss _ _ _ _ _ _) as [sm|msg]; simpl; [|discriminate].
  intros H. inversion H; subst st'; clear H. simpl.
  split; [reflexivity|]. split; [exact Hc|].
  unfold pass_head, tests, updates in *. rewrite !omap_app, Ht, Hu.
  destruct (snapshot_due _ _ _), (test_due _ _), (display_due _ _);
    simpl; rewrite ?app_nil_r; split; reflexivity.
Qed.

Lemma Solve_loop_schedule (param_ : SolverParameter) (accumulate : bool)
    (loss_of : nat -> Dtype) (start_iter : Z) :
  0 < test_interval param_ ->
  forall (n : nat) (st st' : LoopState),
    Solve_loop param_ accumulate loss_of start_iter n st = Ok st' ->
    loop_iter st' = loop_iter st + Z.of_nat n /\
    tests (trace st')
    = tests (trace st)
      ++ filter (fun i => i mod test_interval param_ = 0 /\
                          (0 < i \/ test_initialization param_ = true))
           (seqZ (loop_iter st) (Z.of_nat n)).
Proof.
  intros Hti. induction n as [|n IH]; intros st st' H.
  - simpl in H. inversion H; subst st'. simpl.
    rewrite app_nil_r. split; [lia | reflexivity].
  - cbn [Solve_loop] in H.
    destruct (Solve_pass param_ accumulate loss_of start_iter st)
      as [st1|msg] eqn:E1; simpl in H; [|discriminate].
    destruct (Solve_pass_schedule _ _ _ _ _ _ E1) as (Hit & _ & Hte & _).
    destruct (IH st1 st' H) as (Hit' & Hte').
    split; [lia|].
    rewrite Hte', Hte, Hit.
    rewrite (seqZ_cons (loop_iter st)) by lia.
    replace (Z.succ (loop_iter st)) with (loop_iter st + 1) by lia.
    replace (Z.pred (Z.of_nat (S n))) with (Z.of_nat n) by lia.
    rewrite filter_cons. rewrite <- app_assoc. f_equal.
    pose proof (test_due_spec param_ (loop_iter st) Hti) as Hd.
    destruct (test_due param_ (loop_iter st)).
    + rewrite decide_True by (now apply Hd). reflexivity.
    + rewrite decide_False; [reflexivity|].
      intros Hc. apply Hd in Hc. discriminate.
Qed.

Lemma Solve_loop_updates (param_ : SolverParameter) (accumulate : bool)
    (loss_of : nat -> Dtype) (start_iter : Z) :
  forall (n : nat) (st st' : LoopState),
    Solve_loop param_ accumulate loss_of start_iter n st = Ok st' ->
    fb_calls st' = (fb_calls st + n * calls_per_pass param_ accumulate)%nat /\
    updates (trace st')
    = updates (trace st) ++ seqZ (loop_iter st) (Z.of_nat n).
Proof.
  induction n as [|n IH]; intros st st' H.
  - simpl in H. inversion H; subst st'. simpl.
    rewrite app_nil_r. split; [lia | reflexivity].
  - cbn [Solve_loop] in H.
    destruct (Solve_pass param_ accumulate loss_of start_iter st)
      as [st1|msg] eqn:E1; simpl in H; [|discriminate].
    destruct (Solve_pass_schedule _ _ _ _ _ _ E1) as (Hit & Hc & _ & Hu).
    destruct (IH st1 st' H) as (Hc' & Hu').
    split; [lia|].
    rewrite Hu', Hu, Hit.
    rewrite (seqZ_cons (loop_iter st)) by lia.
    replace (Z.succ (loop_iter st)) with (loop_iter st + 1) by lia.
    replace (Z.pred (Z.of_nat (S n))) with (Z.of_nat n) by lia.
    now rewrite <- app_assoc.
Qed.

Lemma seqZ_to_nat (m len : Z) : seqZ m (Z.of_nat (Z.to_nat len)) = seqZ m len.
Proof. unfold seqZ. now rewrite Nat2Z.id. Qed.

(** X9. With a test interval [t > 0], Solve calls TestAll at the head of
    every pass whose iteration is a multiple of [t] and is either positive
    or, with test_initialization, zero (the iteration a resumed run starts
    at included), and once more after the loop when the final iteration is
    a multiple of [t], there whatever test_initialization says. *)
Theorem test_cadence (param_ : SolverParameter) (accumulate : bool)
    (loss_of : nat -> Dtype) (resume : option Z) :
  let start_iter := match resume with Some i => i | None => 0 end in
  0 < test_interval param_ -> 1 <= average_loss param_ ->
  exists st : LoopState,
    Solve param_ accumulate loss_of resume = Ok st /\
    loop_iter st = Z.max start_iter (max_iter param_) /\
    tests (trace st)
    = test_iterations param_ start_iter
      ++ (if decide (loop_iter st mod test_interval param_ = 0)
          then [loop_iter st] else []).
Proof.
  intros start_iter Hti HW.
  destruct (Solve_loop_runs param_ accumulate loss_of start_iter
              (Z.to_nat (max_iter param_ - start_iter)) HW) as (st1 & E1 & _).
  unfold Solve. fold start_iter.
  destruct (Z.ltb_spec (average_loss param_) 1) as [H|_]; [lia|].
  rewrite E1. simpl. eexists. split; [reflexivity|]. simpl.
  destruct (Solve_loop_schedule param_ accumulate loss_of start_iter Hti _ _ _ E1)
    as (Hit & Hte).
  simpl in Hit, Hte. split; [lia|].
  unfold tests in *. rewrite omap_app, Hte. f_equal.
  - unfold test_iterations. now rewrite seqZ_to_nat.
  - unfold Solve_exit. rewrite !omap_app.
    destruct (Z.eqb_spec (test_interval param_) 0) as [E|_]; [lia|]. simpl.
    assert (Hd : Z.rem (loop_iter st1) (test_interval param_) = 0
                 <-> loop_iter st1 mod test_interval param_ = 0)
      by (rewrite Z.rem_divide, Z.mod_divide by lia; reflexivity).
    destruct (snapshot_after_train param_), (display_due _ _); simpl;
      (destruct (Z.eqb_spec (Z.rem (loop_iter st1) (test_interval param_)) 0)
         as [E|E];
       [rewrite decide_True by (now apply Hd)
       |rewrite decide_False by (intros Hc; apply Hd in Hc; contradiction)]);
      reflexivity.
Qed.

(** X10. Solve runs [max_iter - start_iter] passes (none when the run
    starts at or beyond [max_iter]); every pass calls ComputeUpdateValue
    exactly once, at consecutive iterations from [start_iter], and makes one
    ForwardBackward call, or [update_interval] of them under accumulation
    (one when the interval is below 2). *)
Theorem Solve_updates (param_ : SolverParameter) (accumulate : bool)
    (loss_of : nat -> Dtype) (resume : option Z) :
  let start_iter := match resume with Some i => i | None => 0 end in
  1 <= average_loss param_ ->
  exists st : LoopState,
    Solve param_ accumulate loss_of resume = Ok st /\
    updates (trace st) = seqZ start_iter (max_iter param_ - start_iter) /\
    fb_calls st
    = (Z.to_nat (max_iter param_ - start_iter)
       * calls_per_pass param_ accumulate)%nat /\
    (accumulate = true -> 2 <= update_interval param_ ->
     calls_per_pass param_ accumulate = Z.to_nat (update_interval param_)) /\
    (accumulate = false \/ update_interval param_ < 2 ->
     calls_per_pass param_ accumulate = 1%nat).
Proof.
  intros start_iter HW.
  destruct (Solve_loop_runs param_ accumulate loss_of start_iter
              (Z.to_nat (max_iter param_ - start_iter)) HW) as (st1 & E1 & _).
  unfold Solve. fold start_iter.
  destruct (Z.ltb_spec (average_loss param_) 1) as [H|_]; [lia|].
  rewrite E1. simpl. eexists. split; [reflexivity|]. simpl.
  destruct (Solve_loop_updates param_ accumulate loss_of start_iter _ _ _ E1)
    as (Hc & Hu).
  simpl in Hc, Hu. split; [|split; [exact Hc|]].
  - unfold updates in *. rewrite omap_app, Hu, seqZ_to_nat.
    unfold Solve_exit. rewrite !omap_app.
    destruct (snapshot_after_train param_), (display_due _ _); simpl;
      match goal with |- context [if ?c then _ else _] => destruct c end;
      simpl; now rewrite app_nil_r.
  - unfold calls_per_pass. split.
    + intros -> Hk. lia.
    + intros [-> | Hk]; [reflexivity|]. destruct accumulate; lia.
Qed.

Lemma test_cadence_witness :
  exists st : LoopState,
    Solve eval_param false (fun _ => 0%R) None = Ok st /\
    tests (trace st) = [0; 2; 4].
Proof.
  destruct (test_cadence eval_param false (fun _ => 0%R) None)
    as (st & E & Hit & Ht); [simpl; lia | simpl; lia |].
  exists st. split; [exact E|]. rewrite Ht, Hit. reflexivity.
Defined.

Lemma Solve_updates_witness :
  exists st : LoopState,
    Solve step_param false (fun _ => 0%R) None = Ok st /\
    updates (trace st) = [0; 1; 2; 3; 4; 5] /\ fb_calls st = 6%nat.
Proof.
  destruct (Solve_updates step_param false (fun _ => 0%R) None)
    as (st & E & Hu & Hc & _); [simpl; lia |].
  exists st. split; [exact E|]. split; [rewrite Hu | rewrite Hc]; reflexivity.
Defined.

(** ** The report of an evaluation pass *)

Lemma Rsum_cons (x : Dtype) (l : list Dtype) : Rsum (x :: l) = (x + Rsum l)%R.
Proof. reflexivity. Qed.

Lemma nth_zip_with_Rplus (a b : list Dtype) (k : nat) :
  length a = length b ->
  nth k (zip_with Rplus a b) 0%R = (nth k a 0 + nth k b 0)%R.
Proof.
  revert b k. induction a as [|x a IH]; intros [|y b] [|k] H; simpl in *;
    try discriminate; try lra.
  apply IH. lia.
Qed.

Lemma add_scores_same_length (test_score flat : list Dtype) :
  length test_score = length flat ->
  add_scores test_score flat = zip_with Rplus test_score flat.
Proof.
  intros H. unfold add_scores. rewrite <- H, drop_all. apply app_nil_r.
Qed.

(** The accumulators after [m] iterations from iteration [i], when every
    forward pass returns [L] scores. *)
Lemma Test_loop_scores (compute_loss : bool)
    (forward : nat -> list (list Dtype) * Dtype) (L : nat) :
  forall (m i : nat) (acc : Scores),
    (i = 0%nat -> test_score acc = []) ->
    (i <> 0%nat -> length (test_score acc) = L) ->
    (forall k : nat, (i <= k < i + m)%nat ->
                     length (concat (fst (forward k))) = L) ->
    let r := Test_loop (Test_iteration compute_loss) forward m i acc in
    loss_sum r
    = (loss_sum acc
       + if compute_loss then Rsum (map (fun k => snd (forward k)) (seq i m))
         else 0)%R /\
    ((i + m)%nat <> 0%nat -> length (test_score r) = L) /\
    forall k : nat,
      nth k (test_score r) 0%R
      = (nth k (test_score acc) 0
         + Rsum (map (fun it => nth k (concat (fst (forward it))) 0%R)
                   (seq i m)))%R.
Proof.
  induction m as [|m IH]; intros i acc H0 HL Hlen r.
  - subst r. simpl. unfold Rsum. simpl.
    split; [destruct compute_loss; lra|]. split.
    + intros Hi. apply HL. lia.
    + intros k. lra.
  - subst r. cbn [Test_loop].
    pose proof (Hlen i ltac:(lia)) as Hi.
    destruct (forward i) as [result iter_loss] eqn:Ef. simpl in Hi.
    set (acc1 := Test_iteration compute_loss (result, iter_loss) acc i).
    assert (Hl1 : loss_sum acc1
                  = (loss_sum acc + if compute_loss then iter_loss else 0)%R).
    { unfold acc1, Test_iteration. destruct i; simpl;
        destruct compute_loss; lra. }
    assert (Hlen1 : length (test_score acc1) = L).
    { unfold acc1, Test_iteration. destruct i; simpl.
      - now rewrite H0.
      - rewrite add_scores_same_length by (rewrite HL by lia; lia).
        rewrite length_zip_with. rewrite HL by lia. lia. }
    assert (Hn1 : forall k : nat,
               nth k (test_score acc1) 0%R
               = (nth k (test_score acc) 0 + nth k (concat result) 0)%R).
    { intros k. unfold acc1, Test_iteration. destruct i; simpl.
      - rewrite H0 by reflexivity. simpl. destruct k; lra.
      - rewrite add_scores_same_length by (rewrite HL by lia; lia).
        apply nth_zip_with_Rplus. rewrite HL by lia. lia. }
    destruct (IH (S i) acc1) as (Hloss & Hlen' & Hnth).
    + discriminate.
    + intros _. exact Hlen1.
    + intros k Hk. apply Hlen. lia.
    + split; [|split].
      * rewrite Hloss, Hl1. cbn [seq map]. rewrite Ef. cbn [snd].
        destruct compute_loss; [rewrite Rsum_cons|]; lra.
      * intros _. apply Hlen'. lia.
      * intros k. rewrite Hnth, Hn1. cbn [seq map]. rewrite Rsum_cons, Ef.
        cbn [fst]. lra.
Qed.

Lemma map_imap_const {A B C : Type} (g : B -> C) (h : A -> C) (l : list A) :
  forall f : nat -> A -> B,
    (forall (i : nat) (x : A), g (f i x) = h x) ->
    map g (imap f l) = map h l.
Proof.
  induction l as [|x l IH]; intros f H; simpl; [reflexivity|].
  f_equal; [apply H|]. apply IH. intros i y. apply H.
Qed.

Lemma line_value_Test_lines (test_net : EvalNet) (n : Z) (sc : Scores) :
  map line_value (Test_lines test_net n sc)
  = map (fun score => (score / Dtype_of_int n)%R) (test_score sc).
Proof. unfold Test_lines. apply map_imap_const. reflexivity. Qed.

(** X11. Solver::Test over [n > 0] iterations whose forward passes all
    return [L] scores: the report has [L] lines, line [k] holds the mean
    over the iterations of score [k], and the loss, reported only with
    test_compute_loss, is the mean of the iterations' losses. *)
Theorem Test_mean_scores (param_ : SolverParameter) (Forward : ForwardFn)
    (test_net_id : nat) (w : World) (tn : EvalNet) (n : Z) (L : nat) :
  test_nets_ w !! test_net_id = Some tn ->
  test_iter param_ !! test_net_id = Some n ->
  0 < n ->
  let out := Forward TEST (read_weights w (train_net w)) in
  (forall i : nat, (i < Z.to_nat n)%nat ->
                   length (concat (fst (out i))) = L) ->
  exists (w' : World) (report : TestReport),
    Test param_ Forward test_net_id w = Ok (w', report) /\
    map line_value (test_lines report)
    = map (fun k =>
             (Rsum (map (fun i => nth k (concat (fst (out i))) 0%R)
                      (seq 0 (Z.to_nat n))) / IZR n)%R)
          (seq 0 L) /\
    test_loss report
    = if test_compute_loss param_
      then Some (Rsum (map (fun i => snd (out i)) (seq 0 (Z.to_nat n)))
                 / IZR n)%R
      else None.
Proof.
  intros Htn Hn Hpos out Hlen.
  unfold Test, at_. simpl. rewrite Htn, Hn. simpl.
  eexists _, _. split; [reflexivity|]. simpl.
  change (Forward TEST (read_weights _ _)) with out.
  destruct (Test_loop_scores (test_compute_loss param_) out L (Z.to_nat n) 0
              {| loss_sum := 0; test_score := []; test_score_output_id := [] |})
    as (Hloss & HL & Hnth).
  { reflexivity. }
  { intros H. contradiction. }
  { intros k Hk. apply Hlen. lia. }
  cbn [loss_sum test_score] in Hloss, HL, Hnth. split.
  - rewrite line_value_Test_lines.
    set (F := fun k : nat =>
                (Rsum (map (fun i => nth k (concat (fst (out i))) 0%R)
                         (seq 0 (Z.to_nat n))) / IZR n)%R).
    apply (nth_ext _ _ (0 / Dtype_of_int n)%R (F L)).
    + rewrite !length_map, length_seq. apply HL. lia.
    + intros k Hk. rewrite length_map, HL in Hk by lia.
      rewrite (map_nth (fun score => (score / Dtype_of_int n)%R)).
      rewrite (map_nth F), seq_nth by lia.
      rewrite Hnth. unfold F, Dtype_of_int. simpl (0 + k)%nat.
      replace (nth k [] 0%R) with 0%R by (destruct k; reflexivity).
      f_equal. lra.
  - rewrite Hloss. destruct (test_compute_loss param_); [|reflexivity].
    unfold Dtype_of_int. f_equal. f_equal. lra.
Qed.

Lemma Test_mean_scores_witness :
  exists (w' : World) (report : TestReport),
    Test eval_param echo_forward 0 eval_world = Ok (w', report) /\
    map line_value (test_lines report)
    = [((1 / 2 + (1 / 2 + 0)) / 2)%R; ((2 + (2 + 0)) / 2)%R].
Proof.
  destruct (Test_mean_scores eval_param echo_forward 0 eval_world
              {| weights := [1%nat]; blob_names := ["prob"];
                 blob_loss_weights := [1%R];
                 output_blob_indices := [0%nat] |} 2 2 eq_refl eq_refl)
    as (w' & report & E & Hl & _).
  - lia.
  - intros i Hi. reflexivity.
  - exists w', report. split; [exact E|]. rewrite Hl. reflexivity.
Defined.

(** ** TestAll *)

Lemma TestAll_from_returns (param_ : SolverParameter) (Forward : ForwardFn) :
  forall (n id : nat) (w : World),
    (id + n <= length (test_nets_ w))%nat ->
    (id + n <= length (test_iter param_))%nat ->
    exists (w' : World) (reports : list TestReport),
      TestAll_from param_ Forward n id w = Ok (w', reports) /\
      length reports = n /\
      memory w' = memory w /\ train_net w' = train_net w /\
      length (test_nets_ w') = length (test_nets_ w) /\
      (n <> 0%nat -> phase w' = TRAIN) /\
      (forall (k : nat) (tn : EvalNet),
         (id <= k < id + n)%nat -> test_nets_ w' !! k = Some tn ->
         weights tn = weights (train_net w)) /\
      (forall k : nat, (k < id)%nat -> test_nets_ w' !! k = test_nets_ w !! k).
Proof.
  induction n as [|n IH]; intros id w H1 H2; simpl.
  - exists w, []. repeat split; try reflexivity; try congruence. lia.
  - destruct (Test_returns param_ Forward id w) as (w1 & report & E);
      [lia | lia |].
    rewrite E. simpl.
    assert (Hw1 : memory w1 = memory w /\ train_net w1 = train_net w /\
                  phase w1 = TRAIN /\
                  length (test_nets_ w1) = length (test_nets_ w) /\
                  (forall tn, test_nets_ w1 !! id = Some tn ->
                              weights tn = weights (train_net w)) /\
                  (forall k, k <> id -> test_nets_ w1 !! k = test_nets_ w !! k)).
    { revert E. unfold Test, at_. simpl.
      destruct (test_nets_ w !! id) as [tn0|] eqn:Etn; simpl; [|discriminate].
      destruct (test_iter param_ !! id) as [m|]; simpl; [|discriminate].
      intros H. inversion H; subst w1 report; clear H. simpl.
      repeat split.
      - apply length_insert.
      - intros tn Htn.
        rewrite list_lookup_insert_eq in Htn by (eapply lookup_lt_Some; eauto).
        inversion Htn. reflexivity.
      - intros k Hk. now rewrite list_lookup_insert_ne by congruence. }
    destruct Hw1 as (Hm & Ht & Hp & Hl & Hs & Ho).
    destruct (IH (S id) w1) as (w' & reports & E' & Hlen & Hm' & Ht' & Hl'
                                & Hp' & Hs' & Ho'); [lia | lia |].
    rewrite E'. simpl. exists w', (report :: reports).
    split; [reflexivity|]. split; [simpl; lia|].
    split; [congruence|]. split; [congruence|]. split; [congruence|].
    split; [|split].
    + intros _. destruct n as [|n'].
      * simpl in E'. inversion E'; subst. exact Hp.
      * apply Hp'. discriminate.
    + intros k tn Hk Htn. destruct (Nat.eq_dec k id) as [->|Hne].
      * rewrite Ho' in Htn by lia. now apply Hs.
      * rewrite <- Ht. apply (Hs' k tn); [lia | exact Htn].
    + intros k Hk. rewrite Ho' by lia. apply Ho. lia.
Qed.

(** X12. Solver::TestAll, when test_iter has an entry for every test net:
    it returns one report per test net, leaves the memory of the parameter
    arrays and the train net as they were, leaves every test net sharing
    the train net's parameter arrays, and leaves the phase TRAIN (with no
    test net it does nothing). *)
Theorem TestAll_reports (param_ : SolverParameter) (Forward : ForwardFn)
    (w : World) :
  (length (test_nets_ w) <= length (test_iter param_))%nat ->
  exists (w' : World) (reports : list TestReport),
    TestAll param_ Forward w = Ok (w', reports) /\
    length reports = length (test_nets_ w) /\
    memory w' = memory w /\ train_net w' = train_net w /\
    length (test_nets_ w') = length (test_nets_ w) /\
    Forall (fun tn => weights tn = weights (train_net w)) (test_nets_ w') /\
    (test_nets_ w <> [] -> phase w' = TRAIN) /\
    (test_nets_ w = [] -> w' = w).
Proof.
  intros Hlen. unfold TestAll.
  destruct (TestAll_from_returns param_ Forward (length (test_nets_ w)) 0 w)
    as (w' & reports & E & Hr & Hm & Ht & Hl & Hp & Hs & _); [lia | lia |].
  exists w', reports. split; [exact E|].
  split; [exact Hr|]. split; [exact Hm|]. split; [exact Ht|].
  split; [exact Hl|]. split; [|split].
  - apply Forall_lookup. intros k tn Hk. apply (Hs k tn); [|exact Hk].
    apply lookup_lt_Some in Hk. lia.
  - intros Hne. apply Hp. destruct (test_nets_ w); [contradiction | discriminate].
  - intros Hnil. rewrite Hnil in E. simpl in E. now inversion E.
Qed.

Lemma TestAll_reports_witness :
  exists (w' : World) (reports : list TestReport),
    TestAll eval_param echo_forward eval_world = Ok (w', reports) /\
    length reports = 1%nat /\ memory w' = memory eval_world.
Proof.
  destruct (TestAll_reports eval_param echo_forward eval_world)
    as (w' & reports & E & Hr & Hm & _); [simpl; lia|].
  exists w', reports. split; [exact E|]. split; [exact Hr | exact Hm].
Defined.

(** * Solver::Init: the train net and the test nets *)

Section ScaffoldingFacts.
Import Scaffolding.

Lemma merged_state_spec (default : Phase) (own : NetState)
    (override : option NetState) :
  NetState_MergeFrom
    (NetState_MergeFrom (NetState_set_phase default default_NetState) own)
    (match override with Some o => o | None => default_NetState end)
  = merged_state default own override.
Proof.
  unfold NetState_MergeFrom, merged_state, NetState_set_phase. simpl.
  destruct override as [o|]; simpl.
  - destruct (state_phase o), (state_phase own), (state_level own);
      reflexivity.
  - rewrite app_nil_r.
    destruct (state_phase own), (state_level own); reflexivity.
Qed.

(** X13. Solver::InitTrainNet returns exactly when one, and only one, of
    the fields net, net_param, train_net and train_net_param is set (and,
    for the two file fields, the file can be read); the train net then has
    the name and the layers of that definition, and its state takes the
    phase from train_state, else from the definition, else TRAIN. *)
Theorem InitTrainNet_one_source (files : gmap string NetParameter)
    (param_ : SolverNets) (net_ : NetParameter) :
  InitTrainNet files param_ = Ok net_
  <-> exists p : NetParameter,
        train_source files param_ p /\
        net_ = {| name := name p; layer := layer p;
                  state := merged_state TRAIN (state p)
                             (Some (train_state param_)) |}.
Proof.
  unfold InitTrainNet, ReadNetParamsFromTextFileOrDie. split.
  - destruct (net param_) as [f|] eqn:E1,
             (net_param param_) as [p2|] eqn:E2,
             (train_net param_) as [f3|] eqn:E3,
             (train_net_param param_) as [p4|] eqn:E4;
      simpl; try discriminate.
    + destruct (files !! f) as [p|] eqn:Ef; simpl; [|discriminate].
      intros H. inversion H. exists p. split.
      * eapply source_net; eassumption.
      * unfold mutable_state_CopyFrom. f_equal.
        apply (merged_state_spec TRAIN (state p) (Some (train_state param_))).
    + intros H. inversion H. exists p2. split.
      * eapply source_net_param; eassumption.
      * unfold mutable_state_CopyFrom. f_equal.
        apply (merged_state_spec TRAIN (state p2) (Some (train_state param_))).
    + destruct (files !! f3) as [p|] eqn:Ef; simpl; [|discriminate].
      intros H. inversion H. exists p. split.
      * eapply source_train_net; eassumption.
      * unfold mutable_state_CopyFrom. f_equal.
        apply (merged_state_spec TRAIN (state p) (Some (train_state param_))).
    + intros H. inversion H. exists p4. split.
      * eapply source_train_net_param; eassumption.
      * unfold mutable_state_CopyFrom. f_equal.
        apply (merged_state_spec TRAIN (state p4) (Some (train_state param_))).
  - intros (p & Hsrc & ->).
    destruct Hsrc as [f p E1 E2 E3 E4 Ef | p E1 E2 E3 E4
                     | f p E1 E2 E3 E4 Ef | p E1 E2 E3 E4];
      rewrite E1, E2, E3, E4; simpl; rewrite ?Ef; simpl;
      unfold mutable_state_CopyFrom; do 2 f_equal;
      apply (merged_state_spec TRAIN (state p) (Some (train_state param_))).
Qed.

Lemma InitTrainNet_one_source_witness :
  InitTrainNet lenet_files lenet_nets
  = Ok {| name := "LeNet"; layer := ["data"; "ip"; "loss"];
          state := {| state_phase := Some TRAIN; state_level := Some 1;
                      stage := ["deploy"] |} |}.
Proof.
  apply (proj2 (InitTrainNet_one_source lenet_files lenet_nets _)).
  exists lenet. split; [|reflexivity].
  apply (source_net lenet_files lenet_nets "lenet.prototxt" lenet);
    reflexivity.
Defined.

Lemma NetState_MergeFrom_default (s : NetState) :
  NetState_MergeFrom s default_NetState = s.
Proof.
  unfold NetState_MergeFrom. simpl. rewrite app_nil_r. now destruct s.
Qed.

Lemma store_holds (t : TestNetTable) (done : list (string * NetParameter))
    (room : nat) (e : string * NetParameter) :
  holds t done (S room) ->
  exists t' : TestNetTable, store t e = Ok t' /\ holds t' (done ++ [e]) room.
Proof.
  intros (Hid & Hs & Hp). unfold store.
  assert (H1 : (test_net_id t <? length (sources t))%nat = true).
  { apply Nat.ltb_lt. rewrite Hs, length_app, length_map, length_replicate. lia. }
  assert (H2 : (test_net_id t <? length (net_params t))%nat = true).
  { apply Nat.ltb_lt. rewrite Hp, length_app, length_map, length_replicate. lia. }
  rewrite H1, H2. simpl. eexists. split; [reflexivity|].
  unfold holds. simpl. rewrite length_app. simpl. split; [lia|].
  rewrite Hs, Hp, Hid, !map_app, <- !app_assoc. simpl.
  split.
  - rewrite insert_app_r_alt by (rewrite length_map; lia).
    rewrite length_map, Nat.sub_diag. reflexivity.
  - rewrite insert_app_r_alt by (rewrite length_map; lia).
    rewrite length_map, Nat.sub_diag. reflexivity.
Qed.

Lemma fill_holds (entry : nat -> Result (string * NetParameter)) :
  forall (es : list (string * NetParameter)) (n i : nat) (t : TestNetTable)
         (done : list (string * NetParameter)) (room : nat),
    n = length es ->
    holds t done (n + room) ->
    (forall (k : nat) (e : string * NetParameter),
       es !! k = Some e -> entry (i + k)%nat = Ok e) ->
    exists t' : TestNetTable,
      fill entry n i t = Ok t' /\ holds t' (done ++ es) room.
Proof.
  induction es as [|e es IH]; intros n i t done room -> Hh He; simpl.
  - exists t. split; [reflexivity|]. now rewrite app_nil_r.
  - pose proof (He 0%nat e eq_refl) as H0. rewrite Nat.add_0_r in H0.
    rewrite H0. simpl.
    destruct (store_holds t done (length es + room) e Hh) as (t1 & E1 & H1).
    rewrite E1. simpl.
    destruct (IH (length es) (S i) t1 (done ++ [e]) room eq_refl H1)
      as (t' & E' & H').
    { intros k e' Hk. replace (S i + k)%nat with (i + S k)%nat by lia.
      apply He. exact Hk. }
    exists t'. split; [exact E'|]. now rewrite <- app_assoc in H'.
Qed.

(** The test net that the last loop builds from entry [e] of the table
    at index [i]. *)
Lemma build_test_nets_spec (nets : SolverNets) (t : TestNetTable)
    (all : list (string * NetParameter)) :
  holds t all 0 ->
  test_state nets = [] \/ length (test_state nets) = length all ->
  forall n i : nat,
    (i + n)%nat = length all ->
    build_test_nets nets t n i
    = Ok (drop i
            (imap (fun k e =>
                     {| name := name (snd e); layer := layer (snd e);
                        state := merged_state TEST (state (snd e))
                                   (test_state nets !! k) |}) all)).
Proof.
  intros (_ & _ & Hp) Hst. simpl in Hp. rewrite app_nil_r in Hp.
  induction n as [|n IH]; intros i Hi; simpl.
  - rewrite drop_ge; [reflexivity|]. rewrite length_imap. lia.
  - destruct (lookup_lt_is_Some_2 all i) as [e He]; [lia|].
    assert (Hb : build_test_net nets t i
                 = Ok {| name := name (snd e); layer := layer (snd e);
                         state := merged_state TEST (state (snd e))
                                    (test_state nets !! i) |}).
    { unfold build_test_net, at_. rewrite Hp, list_lookup_fmap, He. simpl.
      destruct Hst as [Hnil | Hlen].
      - rewrite Hnil, lookup_nil. simpl. unfold mutable_state_CopyFrom.
        do 2 f_equal.
        rewrite <- (merged_state_spec TEST (state (snd e)) None).
        now rewrite NetState_MergeFrom_default.
      - destruct (lookup_lt_is_Some_2 (test_state nets) i) as [ts Hts]; [lia|].
        destruct (Nat.eqb_spec (length (test_state nets)) 0) as [E|_]; [lia|].
        simpl. rewrite Hts. simpl. unfold mutable_state_CopyFrom. do 2 f_equal.
        apply (merged_state_spec TEST (state (snd e)) (Some ts)). }
    rewrite Hb. simpl. rewrite IH by lia. simpl.
    f_equal. symmetry. apply drop_S.
    now rewrite list_lookup_imap, He.
Qed.

(** X14. Solver::InitTestNets, when net and net_param are not both set,
    the test net files can be read, test_iter has one entry per explicit
    test net (or, with a generic net, at least as many), test_state is
    empty or has one entry per test_iter entry, and test_interval is
    positive if there is any test_iter entry: it returns one test net per
    test_iter entry; first those of test_net_param, then those of the
    test_net files, then as many instances of the generic net as test_iter
    has entries left; each with phase from its test_state, else from its
    definition, else TEST. *)
Theorem InitTestNets_instances (files : gmap string NetParameter)
    (param_ : SolverParameter) (nets : SolverNets)
    (generic : option (string * NetParameter))
    (file_defs : list NetParameter) :
  generic_source files nets generic ->
  Forall2 (fun f p => files !! f = Some p) (test_net nets) file_defs ->
  let explicit :=
    map (fun p => ("test_net_param"%string, p)) (test_net_param nets)
    ++ zip_with (fun f p => (("test_net file: " ++ f)%string, p))
         (test_net nets) file_defs in
  match generic with
  | Some _ => (length explicit <= length (test_iter param_))%nat
  | None => length (test_iter param_) = length explicit
  end ->
  test_state nets = [] \/
  length (test_state nets) = length (test_iter param_) ->
  (test_iter param_ <> [] -> 0 < test_interval param_) ->
  let all :=
    explicit
    ++ match generic with
       | Some e => replicate (length (test_iter param_) - length explicit) e
       | None => []
       end in
  length all = length (test_iter param_) /\
  InitTestNets files param_ nets
  = Ok (map fst all,
        imap (fun i e =>
                {| name := name (snd e); layer := layer (snd e);
                   state := merged_state TEST (state (snd e))
                              (test_state nets !! i) |}) all).
Proof.
  intros Hgen Hfiles explicit Hcount Hstate Hint all.
  set (es1 := map (fun p => ("test_net_param"%string, p)) (test_net_param nets)).
  set (es2 := zip_with (fun f p => (("test_net file: " ++ f)%string, p))
                (test_net nets) file_defs).
  assert (Hl1 : length es1 = length (test_net_param nets))
    by apply length_map.
  assert (Hl2 : length es2 = length (test_net nets)).
  { unfold es2. rewrite length_zip_with.
    apply Forall2_length in Hfiles. lia. }
  assert (Hle : length explicit = (length es1 + length es2)%nat)
    by (unfold explicit; fold es1 es2; apply length_app).
  set (N := length (test_iter param_)) in *.
  assert (HleN : (length explicit <= N)%nat) by (destruct generic; lia).
  assert (Hall : length all = N).
  { unfold all. rewrite length_app. destruct generic.
    - rewrite length_replicate. lia.
    - simpl. lia. }
  split; [exact Hall|].
  assert (Hint' : N <> 0%nat -> 0 < test_interval param_).
  { intros HN. apply Hint. intros Hnil. apply HN. unfold N. now rewrite Hnil. }
  assert (Hst' : test_state nets = [] \/ length (test_state nets) = length all)
    by (rewrite Hall; exact Hstate).
  (* the two loops over the explicit test nets *)
  assert (Hfill1 : forall t : TestNetTable,
             holds t [] N ->
             exists t1 : TestNetTable,
               fill (fun i => do p <- at_ (test_net_param nets) i;
                              Ok ("test_net_param"%string, p))
                 (length (test_net_param nets)) 0 t = Ok t1 /\
               holds t1 es1 (N - length es1)).
  { intros t Ht.
    apply (fill_holds _ es1 (length (test_net_param nets)) 0 t []
             (N - length es1)).
    - now rewrite Hl1.
    - replace (length (test_net_param nets) + (N - length es1))%nat with N
        by lia. exact Ht.
    - intros k e Hk. unfold es1 in Hk. rewrite list_lookup_fmap in Hk.
      simpl. unfold at_.
      destruct (test_net_param nets !! k); simpl in Hk; [|discriminate].
      inversion Hk. reflexivity. }
  assert (Hfill2 : forall t : TestNetTable,
             holds t es1 (N - length es1) ->
             exists t2 : TestNetTable,
               fill (fun i => do f <- at_ (test_net nets) i;
                              do p <- ReadNetParamsFromTextFileOrDie files f;
                              Ok (("test_net file: " ++ f)%string, p))
                 (length (test_net nets)) 0 t = Ok t2 /\
               holds t2 explicit (N - length explicit)).
  { intros t Ht.
    apply (fill_holds _ es2 (length (test_net nets)) 0 t es1
             (N - length explicit)).
    - now rewrite Hl2.
    - replace (length (test_net nets) + (N - length explicit))%nat
        with (N - length es1)%nat by lia.
      exact Ht.
    - intros k e Hk. unfold es2 in Hk.
      apply lookup_zip_with_Some in Hk. destruct Hk as (f & p & -> & Hf & Hp).
      simpl. unfold at_. rewrite Hf. simpl.
      unfold ReadNetParamsFromTextFileOrDie.
      rewrite (Forall2_lookup_lr _ _ _ _ _ _ Hfiles Hf Hp). reflexivity. }
  unfold InitTestNets.
  replace (Z.of_nat (length (test_iter param_))) with (Z.of_nat N)
    by reflexivity.
  set (G := Z.b2z (has (net_param nets)) + Z.b2z (has (net nets))).
  assert (HG : G = match generic with Some _ => 1 | None => 0 end).
  { unfold G. destruct Hgen as [E1 E2 | p E1 E2 | f p E1 E2 Ef];
      rewrite E1, E2; reflexivity. }
  destruct (Z.ltb_spec 1 G) as [Hc|_]; [destruct generic; lia|].
  match goal with
  | |- (if ?c then _ else _) = _ =>
      assert (Hc : c = false);
      [| rewrite Hc; clear Hc ]
  end.
  { destruct (Z.eqb_spec G 0) as [E0|E0]; simpl.
    - rewrite HG in E0. destruct generic; [lia|].
      apply negb_false_iff, Z.eqb_eq. lia.
    - apply Z.ltb_ge. lia. }
  replace (Z.of_nat (length (test_net_param nets))
           + Z.of_nat (length (test_net nets))
           + (Z.of_nat N
              - (Z.of_nat (length (test_net_param nets))
                 + Z.of_nat (length (test_net nets)))))
    with (Z.of_nat N) by lia.
  match goal with
  | |- (if ?c then _ else _) = _ =>
      assert (Hc : c = false);
      [| rewrite Hc; clear Hc ]
  end.
  { destruct Hstate as [Hnil | Hlen].
    - rewrite Hnil. reflexivity.
    - fold N in Hlen. rewrite Hlen, Z.eqb_refl. simpl.
      apply andb_false_r. }
  match goal with
  | |- (if ?c then _ else _) = _ =>
      assert (Hc : c = false);
      [| rewrite Hc; clear Hc ]
  end.
  { destruct (Z.eqb_spec (Z.of_nat N) 0) as [E0|E0]; simpl; [reflexivity|].
    apply negb_false_iff, Z.ltb_lt, Hint'. lia. }
  rewrite Nat2Z.id.
  destruct (Hfill1 {| test_net_id := 0; sources := replicate N ""%string;
                      net_params := replicate N default_NetParameter |})
    as (t1 & E1 & H1).
  { repeat split. }
  rewrite E1. cbn [bind].
  destruct (Hfill2 t1 H1) as (t2 & E2 & H2).
  rewrite E2. cbn [bind].
  assert (Hrem : Z.to_nat (Z.of_nat N - Z.of_nat (test_net_id t2))
                 = (N - length explicit)%nat).
  { destruct H2 as (Hid & _). rewrite Hid. lia. }
  rewrite Hrem.
  assert (Hfinal : forall t : TestNetTable,
             holds t all 0 ->
             (do test_nets_ <- build_test_nets nets t N 0;
              Ok (sources t, test_nets_))
             = Ok (map fst all,
                   imap (fun i e =>
                           {| name := name (snd e); layer := layer (snd e);
                              state := merged_state TEST (state (snd e))
                                         (test_state nets !! i) |}) all)).
  { intros t Ht.
    rewrite (build_test_nets_spec nets t all Ht Hst' N 0) by lia.
    cbn [bind]. rewrite drop_0. destruct Ht as (_ & Hs & _).
    rewrite Hs. simpl. now rewrite app_nil_r. }
  destruct Hgen as [Hn Hp | p Hn Hp | f p Hn Hp Hf]; rewrite Hn, Hp.
  - cbn [bind]. apply Hfinal. unfold all. rewrite app_nil_r.
    replace 0%nat with (N - length explicit)%nat by lia. exact H2.
  - destruct (fill_holds (fun _ => Ok ("net_param"%string, p))
                (replicate (N - length explicit) ("net_param"%string, p))
                (N - length explicit) 0 t2 explicit 0) as (t3 & E3 & H3).
    + now rewrite length_replicate.
    + now rewrite Nat.add_0_r.
    + intros k e Hk. apply lookup_replicate in Hk. now destruct Hk as [-> _].
    + rewrite E3. cbn [bind]. apply Hfinal. exact H3.
  - cbn [bind].
    destruct (fill_holds
                (fun _ => do p <- ReadNetParamsFromTextFileOrDie files f;
                          Ok (("net file: " ++ f)%string, p))
                (replicate (N - length explicit) (("net file: " ++ f)%string, p))
                (N - length explicit) 0 t2 explicit 0) as (t3 & E3 & H3).
    + now rewrite length_replicate.
    + now rewrite Nat.add_0_r.
    + intros k e Hk. apply lookup_replicate in Hk. destruct Hk as [-> _].
      unfold ReadNetParamsFromTextFileOrDie. now rewrite Hf.
    + rewrite E3. cbn [bind]. apply Hfinal. exact H3.
Qed.

Lemma InitTestNets_instances_witness :
  InitTestNets lenet_files two_tests_param lenet_nets
  = Ok (["net file: lenet.prototxt"; "net file: lenet.prototxt"]%string,
        [ {| name := "LeNet"; layer := ["data"; "ip"; "loss"];
             state := {| state_phase := Some TEST; state_level := Some 1;
                         stage := ["deploy"] |} |};
          {| name := "LeNet"; layer := ["data"; "ip"; "loss"];
             state := {| state_phase := Some TEST; state_level := Some 1;
                         stage := ["deploy"] |} |} ]).
Proof.
  destruct (InitTestNets_instances lenet_files two_tests_param lenet_nets
              (Some ("net file: lenet.prototxt"%string, lenet)) [])
    as [_ H].
  - apply (generic_net lenet_files lenet_nets "lenet.prototxt" lenet);
      reflexivity.
  - constructor.
  - simpl. lia.
  - left. reflexivity.
  - intros _. simpl. lia.
  - exact H.
Defined.

(** The fatal errors of the loops of InitTestNets are those of their
    bodies. *)
Lemma fill_fatal (P : string -> Prop)
    (entry : nat -> Result (string * NetParameter)) :
  (forall (i : nat) (msg : string), entry i = Fatal msg -> P msg) ->
  P "vector index out of range"%string ->
  forall (n i : nat) (t : TestNetTable) (msg : string),
    fill entry n i t = Fatal msg -> P msg.
Proof.
  intros He Hs. induction n as [|n IH]; intros i t msg H; simpl in H;
    [discriminate|].
  destruct (entry i) as [e|m] eqn:E; simpl in H.
  - unfold store in H.
    destruct (_ && _); simpl in H.
    + eapply IH. exact H.
    + inversion H. exact Hs.
  - inversion H. subst. eapply He. exact E.
Qed.

Lemma at_fatal {A : Type} (l : list A) (i : nat) (msg : string) :
  at_ l i = Fatal msg -> msg = "vector index out of range"%string.
Proof. unfold at_. destruct (l !! i); [discriminate|]. now inversion 1. Qed.

Lemma build_test_nets_fatal (nets : SolverNets) (t : TestNetTable) :
  forall (n i : nat) (msg : string),
    build_test_nets nets t n i = Fatal msg ->
    msg = "vector index out of range"%string.
Proof.
  induction n as [|n IH]; intros i msg H; simpl in H; [discriminate|].
  destruct (build_test_net nets t i) as [x|m] eqn:E; simpl in H.
  - destruct (build_test_nets nets t n (S i)) as [r|m] eqn:E'; simpl in H;
      [discriminate|].
    inversion H. subst. eapply IH. exact E'.
  - inversion H. subst. unfold build_test_net in E.
    destruct (at_ (net_params t) i) as [p|m] eqn:E1; simpl in E.
    + destruct (negb _); simpl in E; [|discriminate].
      destruct (at_ (test_state nets) i) as [ts|m] eqn:E2; simpl in E;
        [discriminate|].
      inversion E. subst. eapply at_fatal. exact E2.
    + inversion E. subst. eapply at_fatal. exact E1.
Qed.

(** X15. Solver::Init never fails at the first check of InitTestNets
    (not both of net and net_param): InitTrainNet, which Init calls first,
    has already failed when more than one of the train net fields is
    set. *)
Theorem Init_generic_check_unreachable (files : gmap string NetParameter)
    (param_ : SolverParameter) (nets : SolverNets) :
  Init files param_ nets
  <> Fatal "Check failed: num_generic_nets <= 1 Both net_param and net_file may not be specified.".
Proof.
  set (target := "Check failed: num_generic_nets <= 1 Both net_param and net_file may not be specified."%string).
  assert (Hfill : forall entry n t msg,
             (forall (i : nat) (m : string), entry i = Fatal m -> m <> target) ->
             fill entry n 0 t = Fatal msg -> msg <> target).
  { intros entry n t msg He H.
    apply (fill_fatal (fun m => m <> target) entry He) in H;
      [exact H | discriminate]. }
  assert (Hread : forall f m,
             ReadNetParamsFromTextFileOrDie files f = Fatal m -> m <> target).
  { intros f m. unfold ReadNetParamsFromTextFileOrDie.
    destruct (files !! f); [discriminate|]. intros H. inversion H. discriminate. }
  assert (Hat : forall (A : Type) (l : list A) i m,
             at_ l i = Fatal m -> m <> target).
  { intros A l i m H. apply at_fatal in H. subst. discriminate. }
  unfold Init.
  destruct (InitTrainNet files nets) as [net_|msg] eqn:Etrain; simpl.
  - assert (Hone : Z.b2z (has (net_param nets)) + Z.b2z (has (net nets)) <= 1).
    { revert Etrain. unfold InitTrainNet.
      destruct (net nets), (net_param nets), (train_net nets),
        (train_net_param nets); simpl; try discriminate; lia. }
    destruct (InitTestNets files param_ nets) as [r|msg] eqn:Etest; simpl;
      [discriminate|].
    intros H. inversion H as [Hmsg]. clear H. revert Etest.
    unfold InitTestNets.
    destruct (Z.ltb_spec 1 (Z.b2z (has (net_param nets))
                            + Z.b2z (has (net nets)))) as [Hc|_]; [lia|].
    match goal with
    | |- (if ?c then _ else _) = _ -> _ => destruct c
    end; [subst msg; discriminate|].
    match goal with
    | |- (if ?c then _ else _) = _ -> _ => destruct c
    end; [subst msg; discriminate|].
    match goal with
    | |- (if ?c then _ else _) = _ -> _ => destruct c
    end; [subst msg; discriminate|].
    match goal with
    | |- bind (fill ?entry ?n 0 ?t) _ = _ -> _ =>
        destruct (fill entry n 0 t) as [t1|m1] eqn:E1; cbn [bind]
    end.
    2:{ intros H. inversion H. subst m1.
        apply Hfill in E1; [contradiction|].
        intros i m Hm.
        destruct (at_ (test_net_param nets) i) eqn:Ea; simpl in Hm;
          [discriminate|].
        inversion Hm. subst. eapply Hat. exact Ea. }
    match goal with
    | |- bind (fill ?entry ?n 0 ?t) _ = _ -> _ =>
        destruct (fill entry n 0 t) as [t2|m2] eqn:E2; cbn [bind]
    end.
    2:{ intros H. inversion H. subst m2.
        apply Hfill in E2; [contradiction|].
        intros i m Hm.
        destruct (at_ (test_net nets) i) as [f|] eqn:Ea; simpl in Hm.
        - destruct (ReadNetParamsFromTextFileOrDie files f) eqn:Er;
            simpl in Hm; [discriminate|].
          inversion Hm. subst. eapply Hread. exact Er.
        - inversion Hm. subst. eapply Hat. exact Ea. }
    match goal with
    | |- bind ?c _ = _ -> _ => destruct c as [t3|m3] eqn:E3; cbn [bind]
    end.
    2:{ intros H. inversion H. subst m3.
        destruct (net_param nets); [|discriminate].
        apply Hfill in E3; [contradiction|]. discriminate. }
    match goal with
    | |- bind ?c _ = _ -> _ => destruct c as [t4|m4] eqn:E4; cbn [bind]
    end.
    2:{ intros H. inversion H. subst m4.
        destruct (net nets) as [f|]; [|discriminate].
        apply Hfill in E4; [contradiction|].
        intros i m Hm.
        destruct (ReadNetParamsFromTextFileOrDie files f) eqn:Er;
          simpl in Hm; [discriminate|].
        inversion Hm. subst. eapply Hread. exact Er. }
    match goal with
    | |- bind ?c _ = _ -> _ => destruct c as [r|m5] eqn:E5; cbn [bind]
    end; [discriminate|].
    intros H. inversion H. subst m5.
    apply build_test_nets_fatal in E5. subst msg. discriminate.
  - revert Etrain. unfold InitTrainNet.
    destruct (net nets) as [f1|], (net_param nets), (train_net nets) as [f3|],
      (train_net_param nets); simpl;
      intros H; try (inversion H; discriminate).
    + unfold ReadNetParamsFromTextFileOrDie in H.
      destruct (files !! f1); simpl in H; inversion H; discriminate.
    + unfold ReadNetParamsFromTextFileOrDie in H.
      destruct (files !! f3); simpl in H; inversion H; discriminate.
Qed.

End ScaffoldingFacts.

(** * Snapshots of different iterations *)

Lemma no_dot_string_of_uint (d : Decimal.uint) :
  no_dot (NilEmpty.string_of_uint d).
Proof. induction d; simpl; try split; try discriminate; assumption. Qed.

Lemma no_dot_format_int (n : Z) : no_dot (format_int n).
Proof.
  unfold format_int, NilZero.string_of_int, NilZero.string_of_uint.
  destruct (Z.to_int n) as [d|d]; [|split; [discriminate|]];
    (destruct d; [simpl; split; [discriminate | exact I]
                 | apply no_dot_string_of_uint ..]).
Qed.

Lemma string_app_nil_l (a : string) : ("" ++ a)%string = a.
Proof. reflexivity. Qed.

Lemma string_app_cons (c : Ascii.ascii) (s a : string) :
  (String c s ++ a)%string = String c (s ++ a)%string.
Proof. reflexivity. Qed.

Lemma app_dot_inj (d1 d2 a b : string) :
  no_dot d1 -> no_dot d2 ->
  (d1 ++ "." ++ a)%string = (d2 ++ "." ++ b)%string ->
  d1 = d2 /\ a = b.
Proof.
  revert d2. induction d1 as [|c d1 IH]; intros [|c' d2] H1 H2 E;
    rewrite ?string_app_cons, ?string_app_nil_l in E; simpl in H1, H2.
  - inversion E. split; reflexivity.
  - inversion E. subst c'. destruct H2 as [H2 _]. now contradiction H2.
  - inversion E. subst c. destruct H1 as [H1 _]. now contradiction H1.
  - inversion E. subst c'. destruct H1 as [_ H1], H2 as [_ H2].
    destruct (IH d2 H1 H2) as [-> ->].
    + now rewrite ?string_app_cons, ?string_app_nil_l.
    + split; reflexivity.
Qed.

Lemma string_app_inv_head (p a b : string) :
  (p ++ a)%string = (p ++ b)%string -> a = b.
Proof.
  induction p as [|c p IH]; rewrite ?string_app_cons, ?string_app_nil_l;
    intros E; [exact E|].
  inversion E. now apply IH.
Qed.

Lemma format_int_inj (a b : Z) : format_int a = format_int b -> a = b.
Proof.
  unfold format_int. intros E. apply DecimalZ.to_int_inj.
  assert (Hnn : forall z : Z,
             Z.to_int z <> Decimal.Pos Decimal.Nil /\
             Z.to_int z <> Decimal.Neg Decimal.Nil).
  { intros [|p|p]; simpl; split; try discriminate;
      intros H; inversion H as [Hp];
      exact (DecimalPos.Unsigned.to_uint_nonnil p Hp). }
  destruct (Hnn a) as [Ha1 Ha2], (Hnn b) as [Hb1 Hb2].
  pose proof (NilZero.isi (Z.to_int a) Ha1 Ha2) as Ia.
  pose proof (NilZero.isi (Z.to_int b) Hb1 Hb2) as Ib.
  rewrite E in Ia. congruence.
Qed.

(** The names of the model and state files of two iterations under one
    prefix are four different names. *)
Lemma snapshot_names_differ (s1 s2 : SGDSolver) :
  snapshot_prefix (param_ s1) = snapshot_prefix (param_ s2) ->
  iter_ s1 <> iter_ s2 ->
  model_filename s1 <> model_filename s2 /\
  model_filename s1 <> state_filename s2 /\
  state_filename s1 <> model_filename s2 /\
  state_filename s1 <> state_filename s2.
Proof.
  intros Hp Hi. unfold state_filename, model_filename. rewrite Hp.
  pose proof (no_dot_format_int (iter_ s1)) as N1.
  pose proof (no_dot_format_int (iter_ s2)) as N2.
  assert (Hcancel : forall x y : string,
             (snapshot_prefix (param_ s2) ++ "_iter_" ++ format_int (iter_ s1)
              ++ "." ++ x)%string
             = (snapshot_prefix (param_ s2) ++ "_iter_" ++ format_int (iter_ s2)
                ++ "." ++ y)%string ->
             format_int (iter_ s1) = format_int (iter_ s2) /\ x = y).
  { intros x y E. apply string_app_inv_head in E.
    apply (string_app_inv_head "_iter_") in E.
    now apply app_dot_inj. }
  assert (Hassoc : forall a b c d e : string,
             ((a ++ b ++ c ++ d) ++ e)%string = (a ++ b ++ c ++ d ++ e)%string).
  { intros a b c d e.
    assert (A : forall x y z : string,
               ((x ++ y) ++ z)%string = (x ++ y ++ z)%string).
    { induction x as [|ch x IH]; intros y z;
        rewrite ?string_app_nil_l, ?string_app_cons; [reflexivity|].
      now rewrite IH. }
    now rewrite !A. }
  rewrite !Hassoc.
  repeat split; intros E; apply Hcancel in E; destruct E as [E1 E2];
    try discriminate E2; apply format_int_inj in E1; contradiction.
Qed.

(** X16. Solver::Snapshot at one iteration leaves the two files of a
    snapshot taken, under the same prefix, at another iteration as they
    are: the four file names differ, so the checkpoints of a run never
    overwrite each other. *)
Theorem Snapshot_keeps_earlier (s1 s2 : SGDSolver) (fs : gmap string File) :
  snapshot_prefix (param_ s1) = snapshot_prefix (param_ s2) ->
  iter_ s1 <> iter_ s2 ->
  Snapshot s2 (Snapshot s1 fs) !! model_filename s1
  = Some (NetFile (Net_ToProto (net_ s1) (snapshot_diff (param_ s1)))) /\
  Snapshot s2 (Snapshot s1 fs) !! state_filename s1
  = Some (StateFile {| state_iter := iter_ s1; has_learned_net := true;
                       learned_net := model_filename s1;
                       history := SnapshotSolverState s1 |}).
Proof.
  intros Hp Hi.
  destruct (snapshot_names_differ s1 s2 Hp Hi) as (D1 & D2 & D3 & D4).
  destruct (Snapshot_files s1 fs) as [Hm Hs].
  unfold state_filename in *.
  split.
  - rewrite <- Hm. unfold Snapshot at 1, WriteProtoToBinaryFile.
    rewrite !lookup_insert_ne by congruence. reflexivity.
  - rewrite <- Hs. unfold Snapshot at 1, WriteProtoToBinaryFile.
    rewrite !lookup_insert_ne by congruence. reflexivity.
Qed.

Lemma Snapshot_keeps_earlier_witness :
  Snapshot (set_iter trained_solver 8) (Snapshot trained_solver ∅)
    !! model_filename trained_solver
  = Some (NetFile (Net_ToProto (net_ trained_solver)
                     (snapshot_diff (param_ trained_solver)))).
Proof.
  apply (Snapshot_keeps_earlier trained_solver (set_iter trained_solver 8) ∅).
  - reflexivity.
  - simpl. lia.
Defined.

(** * Resuming under another rule or another net *)

(** X17. Solve, resumed from a state file that Snapshot wrote for a
    solver whose rule [ty] had allocated its history, fails in Restore
    exactly when the rule [ty'] of the resuming solver allocates another
    number of history blobs for its net: a snapshot of AdaDelta never
    resumes under one of the other four rules, nor one of theirs under
    AdaDelta, for a net of at least one parameter. *)
Theorem Solve_resume_history_count (ty ty' : SolverType) (s fresh : SGDSolver)
    (fs : gmap string File) :
  length (history_ s) = history_count ty (length (params (net_ s))) ->
  let n := length (params (net_ s)) in
  let n' := length (params (net_ fresh)) in
  (is_Fatal (Solve_resume ty' fresh (Snapshot s fs) (Some (state_filename s)))
   <-> history_count ty n <> history_count ty' n') /\
  (n = n' -> (1 <= n)%nat ->
   (ty = AdaDelta /\ ty' <> AdaDelta) \/ (ty <> AdaDelta /\ ty' = AdaDelta) ->
   Solve_resume ty' fresh (Snapshot s fs) (Some (state_filename s))
   = Fatal "Check failed: state.history_size() == history_.size() Incorrect length of history blobs.").
Proof.
  intros Hh n n'.
  destruct (Snapshot_files s fs) as [Hm Hs].
  assert (Hres : Solve_resume ty' fresh (Snapshot s fs) (Some (state_filename s))
                 = if Nat.eqb (history_count ty n) (history_count ty' n')
                   then Ok {| param_ := param_ fresh; iter_ := iter_ s;
                              net_ := Net_CopyTrainedLayersFrom (net_ fresh)
                                        (Net_ToProto (net_ s)
                                           (snapshot_diff (param_ s)));
                              history_ :=
                                zip_with Blob_FromProto
                                  (history_ (PreSolve ty' fresh))
                                  (SnapshotSolverState s);
                              update_ := update_ (PreSolve ty' fresh);
                              temp_ := temp_ (PreSolve ty' fresh) |}
                   else Fatal "Check failed: state.history_size() == history_.size() Incorrect length of history blobs.").
  { unfold Solve_resume, state_filename.
    rewrite (Restore_spec _ _ _ _
               (Net_CopyTrainedLayersFrom (net_ fresh)
                  (Net_ToProto (net_ s) (snapshot_diff (param_ s)))) Hs).
    - cbn [history state_iter]. unfold SnapshotSolverState.
      rewrite length_map, Hh.
      change (history_ (set_iter (PreSolve ty' fresh) 0))
        with (history_ (PreSolve ty' fresh)).
      rewrite PreSolve_history_length. fold n n'.
      replace (match ty' with AdaDelta => (2 * n')%nat | _ => n' end)
        with (history_count ty' n') by (destruct ty'; reflexivity).
      destruct (Nat.eqb _ _); [|reflexivity].
      destruct ty'; reflexivity.
    - cbn [has_learned_net learned_net]. eexists. split; [exact Hm|].
      destruct ty'; reflexivity. }
  split; [|intros Hn Hpos Hty].
  - rewrite Hres.
    destruct (Nat.eqb_spec (history_count ty n) (history_count ty' n'));
      simpl; split; try tauto; intros H; contradiction.
  - rewrite Hres.
    destruct (Nat.eqb_spec (history_count ty n) (history_count ty' n'))
      as [E|_]; [|reflexivity].
    exfalso. rewrite <- Hn in E.
    destruct Hty as [[-> Hne] | [Hne ->]].
    + destruct ty'; simpl in E; try lia. contradiction.
    + destruct ty; simpl in E; try lia. contradiction.
Qed.

Lemma Solve_resume_history_count_witness :
  Solve_resume SGD fresh_solver (Snapshot trained_solver ∅)
    (Some (state_filename trained_solver))
  = Fatal "Check failed: state.history_size() == history_.size() Incorrect length of history blobs.".
Proof.
  apply (proj2 (Solve_resume_history_count AdaDelta SGD trained_solver
                  fresh_solver ∅ eq_refl)).
  - reflexivity.
  - simpl. lia.
  - left. split; [reflexivity | discriminate].
Defined.

(** * The schedule over the iterations *)

Lemma pow_antitone (x : Dtype) (n m : nat) :
  (0 <= x <= 1)%R -> (n <= m)%nat -> (x ^ m <= x ^ n)%R.
Proof.
  intros Hx Hnm. induction Hnm as [|m Hnm IH]; [lra|].
  simpl. assert (0 <= x ^ m)%R by (apply pow_le; lra). nra.
Qed.

(** X18. GetLearningRate at iteration 0 is [base_lr] under each of the
    four policies ("step" with a nonzero step size).  Under "step" with a
    positive step size the rate one step size later is [gamma] times the
    rate, and with [0 <= gamma <= 1] and [base_lr >= 0] the rate never
    increases over the iterations. *)
Theorem GetLearningRate_start_and_decay (p : SolverParameter) :
  (lr_policy p = "fixed" \/ (lr_policy p = "step" /\ stepsize p <> 0) \/
   lr_policy p = "exp" \/ lr_policy p = "inv" ->
   GetLearningRate p 0 = Ok (base_lr p)) /\
  (lr_policy p = "step" -> 0 < stepsize p ->
   forall t : Z, 0 <= t ->
     exists r : Dtype,
       GetLearningRate p t = Ok r /\
       GetLearningRate p (t + stepsize p) = Ok (gamma p * r)%R) /\
  (lr_policy p = "step" -> 0 < stepsize p ->
   (0 <= gamma p <= 1)%R -> (0 <= base_lr p)%R ->
   forall t1 t2 : Z, 0 <= t1 <= t2 ->
     exists r1 r2 : Dtype,
       GetLearningRate p t1 = Ok r1 /\ GetLearningRate p t2 = Ok r2 /\
       (r2 <= r1)%R).
Proof.
  split; [|split].
  - intros [H | [[H Hs] | [H | H]]]; unfold GetLearningRate; rewrite H; simpl.
    + reflexivity.
    + destruct (Z.eqb_spec (stepsize p) 0) as [E|_]; [contradiction|].
      rewrite ?Z.quot_0_l by assumption. unfold pow_int. simpl.
      f_equal. lra.
    + unfold pow_int. simpl. f_equal. lra.
    + unfold Dtype_of_int.
      replace (1 + gamma p * 0)%R with 1%R by lra.
      rewrite pow_real_pos by lra.
      unfold Rpower. rewrite ln_1, Rmult_0_r, exp_0. f_equal. lra.
  - intros Hp Hs t Ht. eexists. split.
    + apply GetLearningRate_step; assumption.
    + rewrite GetLearningRate_step by (try assumption; lia).
      replace (t + stepsize p) with (t + 1 * stepsize p) by lia.
      rewrite Z.div_add by lia.
      assert (0 <= t / stepsize p) by (apply Z.div_pos; lia).
      replace (Z.to_nat (t / stepsize p + 1))
        with (S (Z.to_nat (t / stepsize p))) by lia.
      simpl. f_equal. lra.
  - intros Hp Hs Hg Hb t1 t2 Ht. eexists _, _. split; [|split].
    + apply GetLearningRate_step; [assumption | lia | assumption].
    + apply GetLearningRate_step; [assumption | lia | assumption].
    + apply Rmult_le_compat_l; [assumption|].
      apply pow_antitone; [assumption|].
      assert (0 <= t1 / stepsize p) by (apply Z.div_pos; lia).
      assert (t1 / stepsize p <= t2 / stepsize p)
        by (apply Z.div_le_mono; lia).
      lia.
Qed.

Lemma GetLearningRate_start_and_decay_witness :
  GetLearningRate step_param 0 = Ok (1 / 10)%R /\
  exists r1 r2 : Dtype,
    GetLearningRate step_param 1 = Ok r1 /\
    GetLearningRate step_param 5 = Ok r2 /\ (r2 <= r1)%R.
Proof.
  destruct (GetLearningRate_start_and_decay step_param) as (H0 & _ & Hd).
  split.
  - apply H0. right. left. split; [reflexivity | simpl; lia].
  - apply Hd; [reflexivity | simpl; lia | simpl; lra | simpl; lra | lia].
Defined.

(** X19. SGDSolver::PreSolve (which AdaGradSolver inherits) followed by
    AdaGradSolver::ComputeUpdateValue, on a net whose parameters have their
    multipliers and gradients of the size of the weights, in CPU mode or a
    build with the GPU code, with regularization L2 or L1 and a positive
    [delta]: the call returns, the history of every element becomes [g^2]
    and its first update is [schedule * lr * g / (|g| + delta)], [g] the
    gradient after weight decay; the divisor [|g| + delta] is positive. *)
Theorem AdaGrad_first_update (CPU_ONLY : bool) (mode : SolverMode)
    (s : SGDSolver) (schedule : Dtype) :
  mode = CPU \/ CPU_ONLY = false ->
  length (params_lr (net_ s)) = length (params (net_ s)) ->
  length (params_weight_decay (net_ s)) = length (params (net_ s)) ->
  Forall (fun p => length (cpu_diff p) = length (cpu_data p)) (params (net_ s)) ->
  GetLearningRate (param_ s) (iter_ s) = Ok schedule ->
  regularization_type (param_ s) = "L2" \/ regularization_type (param_ s) = "L1" ->
  (0 < delta (param_ s))%R ->
  exists s' : SGDSolver,
    AdaGrad_ComputeUpdateValue CPU_ONLY mode (PreSolve AdaGrad s) = Ok s' /\
    forall (i j : nat) (lr wd : Dtype),
      (i < length (params (net_ s)))%nat -> (j < psize s i)%nat ->
      params_lr (net_ s) !! i = Some lr ->
      params_weight_decay (net_ s) !! i = Some wd ->
      let g := decayed_gradient (regularization_type (param_ s))
                 (weight_decay (param_ s) * wd)
                 (arr s (ParamData i) j) (arr s (ParamDiff i) j) in
      cell s' (HistoryData i) j = Some (g * g)%R /\
      cell s' (ParamDiff i) j
      = Some (schedule * lr * g / (Rabs g + delta (param_ s)))%R /\
      (0 < Rabs g + delta (param_ s))%R.
Proof.
  intros Hmode Hlr Hwd Hall Hrate Hreg Hdelta.
  change (PreSolve AdaGrad s) with (SGD_PreSolve s).
  pose proof (SGD_PreSolve_rule_shaped s Hlr Hwd Hall) as Hsh.
  destruct (AdaGrad_loop _ schedule (delta (param_ s))
              (AdaGrad_weight_decay (param_ s))
              (regularization_type (param_ s)) (SGD_PreSolve s) Hsh Hreg)
    as (s' & E & Hpost).
  exists s'. split.
  - unfold AdaGrad_ComputeUpdateValue, AdaGrad_rate.
    change (param_ (SGD_PreSolve s)) with (param_ s).
    change (iter_ (SGD_PreSolve s)) with (iter_ s).
    rewrite Hrate. cbn [bind].
    rewrite switch_mode_runs by assumption. exact E.
  - intros i j lr wd Hi Hj Hl Hw.
    destruct (rule_post_cells (SGD_PreSolve s) s' i j _ _ lr wd
                (Hpost i Hi) Hl Hw Hj) as (_ & Ch & Cd).
    rewrite arr_PreSolve_history in Ch, Cd.
    cbv zeta. rewrite Ch, Cd.
    change (arr (SGD_PreSolve s) (ParamData i) j) with (arr s (ParamData i) j).
    change (arr (SGD_PreSolve s) (ParamDiff i) j) with (arr s (ParamDiff i) j).
    unfold AdaGrad_weight_decay.
    set (g := decayed_gradient (regularization_type (param_ s))
                (weight_decay (param_ s) * wd)
                (arr s (ParamData i) j) (arr s (ParamDiff i) j)).
    split; [f_equal; ring|]. split.
    + replace (g * g + 0)%R with (Rsqr g) by (unfold Rsqr; ring).
      rewrite sqrt_Rsqr_abs. f_equal. unfold Rdiv. ring.
    + pose proof (Rabs_pos g). lra.
Qed.

Lemma AdaGrad_first_update_witness :
  exists s' : SGDSolver,
    AdaGrad_ComputeUpdateValue false CPU (PreSolve AdaGrad stable_solver)
    = Ok s' /\
    cell s' (HistoryData 0) 1 = Some (2 * 2)%R.
Proof.
  destruct (AdaGrad_first_update false CPU stable_solver
              (1 / 10 * (1 / 2) ^ 3)%R
              (or_introl eq_refl) eq_refl eq_refl) as (s' & E & H).
  - repeat constructor.
  - exact rate_stable_solver.
  - left. reflexivity.
  - simpl. lra.
  - exists s'. split; [exact E|].
    destruct (H 0%nat 1%nat 1%R 1%R) as (Hh & _);
      [simpl; lia | unfold psize; simpl; lia | reflexivity | reflexivity |].
    rewrite Hh. unfold decayed_gradient.
    rewrite Dtype_nonzero_0 by (simpl; lra). reflexivity.
Defined.

(** X20. With a zero momentum NesterovSolver::ComputeUpdateValue and
    SGDSolver::ComputeUpdateValue, run on the same solver, both return and
    leave the same value in every element of the gradient buffer and of
    the history. *)
Theorem Nesterov_zero_momentum_is_SGD (CPU_ONLY : bool) (mode : SolverMode)
    (s : SGDSolver) (n : nat) (schedule : Dtype) :
  mode = CPU \/ CPU_ONLY = false ->
  rule_shaped n s ->
  GetLearningRate (param_ s) (iter_ s) = Ok schedule ->
  regularization_type (param_ s) = "L2" \/ regularization_type (param_ s) = "L1" ->
  momentum (param_ s) = 0%R ->
  exists s1 s2 : SGDSolver,
    SGD_ComputeUpdateValue CPU_ONLY mode s = Ok s1 /\
    Nesterov_ComputeUpdateValue CPU_ONLY mode s = Ok s2 /\
    forall i j : nat,
      (i < n)%nat -> (j < psize s i)%nat ->
      cell s2 (ParamDiff i) j = cell s1 (ParamDiff i) j /\
      cell s2 (HistoryData i) j = cell s1 (HistoryData i) j /\
      cell s2 (ParamData i) j = cell s1 (ParamData i) j.
Proof.
  intros Hmode Hsh Hrate Hreg Hm.
  destruct (SGD_loop n (schedule / Dtype_of_int (update_interval (param_ s)))
              (momentum (param_ s)) (SGD_weight_decay (param_ s))
              (regularization_type (param_ s)) s Hsh Hreg) as (s1 & E1 & P1).
  destruct (Nesterov_loop n
              (schedule / Dtype_of_int (update_interval (param_ s)))
              (momentum (param_ s)) (SGD_weight_decay (param_ s))
              (regularization_type (param_ s)) s Hsh Hreg) as (s2 & E2 & P2).
  exists s1, s2. split; [|split].
  - unfold SGD_ComputeUpdateValue, SGD_rate. rewrite Hrate. cbn [bind].
    rewrite switch_mode_runs by assumption.
    destruct Hsh as [-> _]. exact E1.
  - unfold Nesterov_ComputeUpdateValue, SGD_rate. rewrite Hrate. cbn [bind].
    rewrite switch_mode_runs by assumption.
    destruct Hsh as [-> _]. exact E2.
  - intros i j Hi Hj.
    destruct Hsh as [Hn Hsh].
    destruct (Hsh i Hi) as (w & d & h & u & t & lr & wd & A).
    pose proof (ra_lr _ _ _ _ _ _ _ _ _ A) as Hl.
    pose proof (ra_wd _ _ _ _ _ _ _ _ _ A) as Hw.
    destruct (rule_post_cells s s1 i j _ _ lr wd (P1 i Hi) Hl Hw Hj)
      as (Cw1 & Ch1 & Cd1).
    destruct (rule_post_cells s s2 i j _ _ lr wd (P2 i Hi) Hl Hw Hj)
      as (Cw2 & Ch2 & Cd2).
    rewrite Cw1, Cw2, Ch1, Ch2, Cd1, Cd2, Hm.
    repeat split. f_equal. ring.
Qed.

Lemma Nesterov_zero_momentum_is_SGD_witness :
  exists s1 s2 : SGDSolver,
    SGD_ComputeUpdateValue false CPU adagrad_solver = Ok s1 /\
    Nesterov_ComputeUpdateValue false CPU adagrad_solver = Ok s2 /\
    cell s2 (ParamDiff 0) 0 = cell s1 (ParamDiff 0) 0.
Proof.
  destruct (Nesterov_zero_momentum_is_SGD false CPU adagrad_solver 1 1%R)
    as (s1 & s2 & E1 & E2 & H).
  - left. reflexivity.
  - split; [reflexivity|]. intros i Hi. assert (i = 0%nat) by lia. subst i.
    exists [1%R], [0%R], [0%R], [0%R], [0%R], 1%R, 1%R.
    split; reflexivity.
  - reflexivity.
  - left. reflexivity.
  - reflexivity.
  - exists s1, s2. split; [exact E1|]. split; [exact E2|].
    apply (H 0%nat 0%nat); [lia | unfold psize; simpl; lia].
Defined.

(** * The first AdaDelta update *)

Lemma arr_zero_like (bs : list Blob) (ps : list Blob) (x j : nat) :
  (forall b : Blob, b ∈ bs -> exists c : nat, b = new_Blob c) ->
  match bs !! x with
  | Some b => nth j (cpu_data b) 0%R
  | None => 0%R
  end = 0%R.
Proof.
  intros H. destruct (bs !! x) as [b|] eqn:E; [|reflexivity].
  destruct (H b) as [c ->]; [eapply list_elem_of_lookup_2; exact E|].
  apply nth_replicate_0.
Qed.

Lemma arr_AdaDelta_PreSolve_history (s : SGDSolver) (x j : nat) :
  arr (AdaDelta_PreSolve s) (HistoryData x) j = 0%R.
Proof.
  unfold arr. simpl. unfold at_.
  pose proof (arr_zero_like
                (zero_like (params (net_ s)) ++ zero_like (params (net_ s)))
                (params (net_ s)) x j) as H.
  destruct ((zero_like (params (net_ s)) ++ zero_like (params (net_ s))) !! x);
    simpl; [|reflexivity].
  apply H. intros h Hb.
  assert (Hz : h ∈ zero_like (params (net_ s)))
    by (apply elem_of_app in Hb; tauto).
  unfold zero_like in Hz.
  change (map (fun net_param => new_Blob (count net_param)) (params (net_ s)))
    with ((fun net_param => new_Blob (count net_param)) <$> params (net_ s))
    in Hz.
  apply list_elem_of_fmap in Hz. destruct Hz as (p & -> & _). eauto.
Qed.

(** X21. AdaDeltaSolver::PreSolve followed by
    AdaDeltaSolver::ComputeUpdateValue, on a net whose parameters have their
    multipliers and gradients of the size of the weights, in CPU mode or a
    build with the GPU code, with regularization L2 or L1, a positive
    [delta] and a momentum between 0 and 1: the call returns; for every
    element the gradient history becomes [(1 - momentum) * g^2], and the
    first update is
    [schedule * lr * sqrt (delta / ((1 - momentum) * g^2 + delta)) * g],
    because PreSolve left both histories of the parameter zero; the divisor
    is positive and the radicand is not negative. *)
Theorem AdaDelta_first_update (CPU_ONLY : bool) (mode : SolverMode)
    (s : SGDSolver) (schedule : Dtype) :
  mode = CPU \/ CPU_ONLY = false ->
  length (params_lr (net_ s)) = length (params (net_ s)) ->
  length (params_weight_decay (net_ s)) = length (params (net_ s)) ->
  Forall (fun p => length (cpu_diff p) = length (cpu_data p)) (params (net_ s)) ->
  GetLearningRate (param_ s) (iter_ s) = Ok schedule ->
  regularization_type (param_ s) = "L2" \/ regularization_type (param_ s) = "L1" ->
  (0 < delta (param_ s))%R ->
  (0 <= momentum (param_ s) <= 1)%R ->
  exists s' : SGDSolver,
    AdaDelta_ComputeUpdateValue CPU_ONLY mode (PreSolve AdaDelta s) = Ok s' /\
    forall (i j : nat) (lr wd : Dtype),
      (i < length (params (net_ s)))%nat -> (j < psize s i)%nat ->
      params_lr (net_ s) !! i = Some lr ->
      params_weight_decay (net_ s) !! i = Some wd ->
      let g := decayed_gradient (regularization_type (param_ s))
                 (weight_decay (param_ s) * wd)
                 (arr s (ParamData i) j) (arr s (ParamDiff i) j) in
      let grad_h' := ((1 - momentum (param_ s)) * (g * g))%R in
      cell s' (HistoryData i) j = Some grad_h' /\
      cell s' (ParamDiff i) j
      = Some (schedule * lr
              * (sqrt (delta (param_ s) / (grad_h' + delta (param_ s))) * g))%R /\
      (0 < grad_h' + delta (param_ s))%R /\
      (0 <= delta (param_ s) / (grad_h' + delta (param_ s)))%R.
Proof.
  intros Hmode Hlr Hwd Hall Hrate Hreg Hdelta Hmom.
  change (PreSolve AdaDelta s) with (AdaDelta_PreSolve s).
  set (n := length (params (net_ s))).
  pose proof (AdaDelta_PreSolve_shaped s Hlr Hwd Hall) as Hsh. fold n in Hsh.
  destruct (AdaDelta_loop n schedule (delta (param_ s)) (momentum (param_ s))
              (weight_decay (param_ s)) (regularization_type (param_ s))
              (AdaDelta_PreSolve s) Hsh Hreg n 0%nat (AdaDelta_PreSolve s))
    as (s' & E & Hpost); try reflexivity; try lia.
  exists s'. split.
  - unfold AdaDelta_ComputeUpdateValue, AdaGrad_rate, AdaGrad_weight_decay.
    change (param_ (AdaDelta_PreSolve s)) with (param_ s).
    change (iter_ (AdaDelta_PreSolve s)) with (iter_ s).
    rewrite Hrate. cbn [bind].
    rewrite switch_mode_runs by assumption. exact E.
  - intros i j lr wd Hi Hj Hl Hw.
    destruct (Hpost i Hi lr wd Hl Hw) as (_ & Mh & _ & Md).
    pose proof (models_cell _ _ _ _ j Mh Hj) as Ch.
    pose proof (models_cell _ _ _ _ j Md Hj) as Cd.
    cbv beta in Ch, Cd.
    unfold spec_delta_upd, spec_grad_h in Ch, Cd.
    rewrite (arr_AdaDelta_PreSolve_history s i j) in Ch, Cd.
    rewrite ?arr_AdaDelta_PreSolve_history in Cd.
    change (arr (AdaDelta_PreSolve s) (ParamData i) j)
      with (arr s (ParamData i) j) in Ch, Cd.
    change (arr (AdaDelta_PreSolve s) (ParamDiff i) j)
      with (arr s (ParamDiff i) j) in Ch, Cd.
    cbv zeta. rewrite Ch, Cd.
    set (g := decayed_gradient (regularization_type (param_ s))
                (weight_decay (param_ s) * wd)
                (arr s (ParamData i) j) (arr s (ParamDiff i) j)).
    replace ((1 - momentum (param_ s)) * (g * g) + momentum (param_ s) * 0)%R
      with ((1 - momentum (param_ s)) * (g * g))%R by ring.
    replace (0 + delta (param_ s))%R with (delta (param_ s)) by ring.
    assert (Hgh : (0 <= (1 - momentum (param_ s)) * (g * g))%R)
      by (pose proof (Rle_0_sqr g) as Hsq; unfold Rsqr in Hsq; nra).
    split; [reflexivity|]. split; [reflexivity|]. split; [lra|].
    apply Rmult_le_pos; [lra|]. apply Rlt_le, Rinv_0_lt_compat. lra.
Qed.

Lemma AdaDelta_first_update_witness :
  exists s' : SGDSolver,
    AdaDelta_ComputeUpdateValue false CPU (PreSolve AdaDelta stable_solver)
    = Ok s' /\
    cell s' (HistoryData 0) 1 = Some ((1 - 9 / 10) * (2 * 2))%R.
Proof.
  destruct (AdaDelta_first_update false CPU stable_solver
              (1 / 10 * (1 / 2) ^ 3)%R
              (or_introl eq_refl) eq_refl eq_refl) as (s' & E & H).
  - repeat constructor.
  - exact rate_stable_solver.
  - left. reflexivity.
  - simpl. lra.
  - simpl. lra.
  - exists s'. split; [exact E|].
    destruct (H 0%nat 1%nat 1%R 1%R) as (Hh & _);
      [simpl; lia | unfold psize; simpl; lia | reflexivity | reflexivity |].
    rewrite Hh. unfold decayed_gradient.
    rewrite Dtype_nonzero_0 by (simpl; lra). reflexivity.
Defined.

(** * The output lines of Solve and of Test *)

Lemma map_imap_index {A B : Type} (g : B -> nat) (l : list A) :
  forall (f : nat -> A -> B) (k : nat),
    (forall (i : nat) (x : A), g (f i x) = (k + i)%nat) ->
    map g (imap f l) = seq k (length l).
Proof.
  induction l as [|x l IH]; intros f k H; simpl; [reflexivity|].
  f_equal; [rewrite H; lia|].
  apply IH. intros i y. unfold compose. rewrite H. lia.
Qed.

Lemma map_const_replicate {A B : Type} (c : B) (l : list A) :
  map (fun _ => c) l = replicate (length l) c.
Proof. induction l as [|x l IH]; simpl; [reflexivity | now rewrite IH]. Qed.

Lemma map_replicate {A B : Type} (f : A -> B) (n : nat) (x : A) :
  map f (replicate n x) = replicate n (f x).
Proof. induction n as [|n IH]; simpl; [reflexivity | now rewrite IH]. Qed.

Lemma length_output_ids (result : list (list Dtype)) :
  forall j : nat, length (output_ids j result) = length (concat result).
Proof.
  induction result as [|r rest IH]; intros j; simpl; [reflexivity|].
  now rewrite !length_app, length_replicate, IH.
Qed.

Lemma Solve_lines_spec (net : EvalNet) (result : list (list Dtype)) :
  forall j score_index : nat,
    map output_name (Solve_lines net j score_index result)
    = map (Solve_output_name net) (output_ids j result) /\
    map line_index (Solve_lines net j score_index result)
    = seq score_index (length (concat result)) /\
    map line_value (Solve_lines net j score_index result) = concat result.
Proof.
  induction result as [|r rest IH]; intros j k; simpl;
    [repeat split; reflexivity|].
  destruct (IH (S j) (k + length r)%nat) as (Hn & Hi & Hv).
  rewrite !map_app, Hn, Hi, Hv. split; [|split].
  - f_equal.
    rewrite (map_imap_const output_name (fun _ => Solve_output_name net j))
      by reflexivity.
    now rewrite map_const_replicate, map_replicate.
  - rewrite (map_imap_index line_index r _ k) by reflexivity.
    rewrite length_app. symmetry. apply seq_app.
  - f_equal.
    rewrite (map_imap_const line_value (fun v => v)) by reflexivity.
    apply map_id.
Qed.

(** X22. The "Train net output" lines of Solve and the "Test net output"
    lines of Test after one iteration are numbered 0, 1, ... over the
    elements of the output blobs in their order, show those elements (Test
    divided by test_iter), and name every line after the output blob its
    element belongs to, Test as Solve does. *)
Theorem output_lines_agree (net : EvalNet) (result : list (list Dtype))
    (iter_loss : Dtype) (compute_loss : bool) (n : Z) :
  let sc := Test_iteration compute_loss (result, iter_loss) no_scores 0 in
  map line_index (Solve_lines net 0 0 result)
  = seq 0 (length (concat result)) /\
  map line_value (Solve_lines net 0 0 result) = concat result /\
  map line_index (Test_lines net n sc) = seq 0 (length (concat result)) /\
  map line_value (Test_lines net n sc)
  = map (fun v => (v / IZR n)%R) (concat result) /\
  map output_name (Test_lines net n sc)
  = map output_name (Solve_lines net 0 0 result).
Proof.
  intros sc.
  destruct (Solve_lines_spec net result 0 0) as (Hn & Hi & Hv).
  split; [exact Hi|]. split; [exact Hv|].
  assert (Hsc : test_score sc = concat result) by reflexivity.
  assert (Hids : test_score_output_id sc = output_ids 0 result) by reflexivity.
  split; [|split].
  - unfold Test_lines. rewrite Hsc.
    apply (map_imap_index line_index (concat result) _ 0). reflexivity.
  - rewrite line_value_Test_lines, Hsc. reflexivity.
  - rewrite Hn. unfold Test_lines. rewrite Hsc, Hids.
    set (ids := output_ids 0 result).
    assert (Hlen : length (concat result) = length ids)
      by (symmetry; apply length_output_ids).
    apply list_eq. intros i.
    change (map output_name ?x) with (output_name <$> x).
    change (map (Solve_output_name net) ids)
      with (Solve_output_name net <$> ids).
    rewrite !list_lookup_fmap, list_lookup_imap.
    destruct (concat result !! i) as [v|] eqn:Ev; simpl.
    + destruct (lookup_lt_is_Some_2 ids i) as [j Hj].
      { rewrite <- Hlen. eapply lookup_lt_Some. exact Ev. }
      rewrite Hj. simpl. unfold Test_output_name, Solve_output_name.
      rewrite Hj. reflexivity.
    + rewrite (lookup_ge_None_2 ids i); [reflexivity|].
      rewrite <- Hlen. now apply lookup_ge_None_1.
Qed.

(** * The buffer of the iteration number *)

Lemma length_string_of_uint (d : Decimal.uint) :
  String.length (NilEmpty.string_of_uint d) = Decimal.nb_digits d.
Proof. induction d; simpl; congruence. Qed.

(** A little-endian number without leading zeros has at least the value
    of its highest digit's place. *)
Lemma of_lu_lower_bound (d : Decimal.uint) :
  DecimalFacts.nztail d = d -> d <> Decimal.Nil ->
  (10 ^ N.of_nat (Nat.pred (Decimal.nb_digits d))
   <= DecimalPos.Unsigned.of_lu d)%N.
Proof.
  assert (Hstep : forall (d' : Decimal.uint) (k : N),
             (d' <> Decimal.Nil ->
              (10 ^ N.of_nat (Nat.pred (Decimal.nb_digits d'))
               <= DecimalPos.Unsigned.of_lu d')%N) ->
             (d' = Decimal.Nil -> 1 <= k)%N ->
             (10 ^ N.of_nat (Decimal.nb_digits d')
              <= k + 10 * DecimalPos.Unsigned.of_lu d')%N).
  { intros d' k IH Hk. destruct d' eqn:E;
      [simpl; specialize (Hk eq_refl); lia | ..];
      (rewrite <- E in *;
       assert (Hne : d' <> Decimal.Nil) by (rewrite E; discriminate);
       specialize (IH Hne);
       assert (Hn : Decimal.nb_digits d'
                    = S (Nat.pred (Decimal.nb_digits d')))
         by (rewrite E; reflexivity);
       rewrite Hn at 1; rewrite Nat2N.inj_succ, N.pow_succ_r'; lia). }
  induction d as [|d IH|d IH|d IH|d IH|d IH|d IH|d IH|d IH|d IH|d IH];
    intros Hnz Hne; [contradiction | ..]; simpl in Hnz;
    cbn [Decimal.nb_digits Nat.pred DecimalPos.Unsigned.of_lu].
  - replace (10 * DecimalPos.Unsigned.of_lu d)%N
      with (0 + 10 * DecimalPos.Unsigned.of_lu d)%N by lia.
    assert (Hd : DecimalFacts.nztail d = d /\ d <> Decimal.Nil).
    { destruct (DecimalFacts.nztail d) eqn:E; try discriminate;
        inversion Hnz as [Hd]; (split; [reflexivity | discriminate]). }
    destruct Hd as [Hd Hdn].
    apply Hstep; [intros _; apply IH; assumption | contradiction].
  - inversion Hnz as [Hd]. rewrite Hd. apply Hstep; [apply IH; exact Hd | lia].
  - inversion Hnz as [Hd]. rewrite Hd. apply Hstep; [apply IH; exact Hd | lia].
  - inversion Hnz as [Hd]. rewrite Hd. apply Hstep; [apply IH; exact Hd | lia].
  - inversion Hnz as [Hd]. rewrite Hd. apply Hstep; [apply IH; exact Hd | lia].
  - inversion Hnz as [Hd]. rewrite Hd. apply Hstep; [apply IH; exact Hd | lia].
  - inversion Hnz as [Hd]. rewrite Hd. apply Hstep; [apply IH; exact Hd | lia].
  - inversion Hnz as [Hd]. rewrite Hd. apply Hstep; [apply IH; exact Hd | lia].
  - inversion Hnz as [Hd]. rewrite Hd. apply Hstep; [apply IH; exact Hd | lia].
  - inversion Hnz as [Hd]. rewrite Hd. apply Hstep; [apply IH; exact Hd | lia].
Qed.

Lemma nb_digits_to_uint_bound (p : positive) (k : nat) :
  (N.pos p < 10 ^ N.of_nat k)%N ->
  (Decimal.nb_digits (Pos.to_uint p) <= k)%nat.
Proof.
  intros Hp. unfold Pos.to_uint. rewrite DecimalFacts.nb_digits_rev.
  set (lu := Pos.to_little_uint p).
  assert (Hval : DecimalPos.Unsigned.of_lu lu = N.pos p).
  { rewrite <- DecimalPos.Unsigned.of_lu_rev.
    apply (DecimalPos.Unsigned.of_to p). }
  assert (Hnorm : DecimalFacts.lnorm lu = lu).
  { rewrite <- DecimalPos.Unsigned.to_of_lu, Hval. reflexivity. }
  assert (Hnz : DecimalFacts.nztail lu = lu /\ lu <> Decimal.Nil).
  { unfold DecimalFacts.lnorm in Hnorm.
    destruct (DecimalFacts.nztail lu) eqn:E;
      try (split; [exact Hnorm | rewrite <- Hnorm; discriminate]).
    rewrite <- Hnorm in Hval. discriminate Hval. }
  destruct Hnz as [Hnz Hne].
  pose proof (of_lu_lower_bound lu Hnz Hne) as Hlow. rewrite Hval in Hlow.
  destruct (Nat.le_gt_cases (Decimal.nb_digits lu) k) as [H|H]; [exact H|].
  exfalso.
  assert (10 ^ N.of_nat k <= 10 ^ N.of_nat (Nat.pred (Decimal.nb_digits lu)))%N
    by (apply N.pow_le_mono_r; lia).
  lia.
Qed.

Lemma length_format_int (n : Z) :
  - 2 ^ 31 <= n < 2 ^ 31 -> (String.length (format_int n) <= 11)%nat.
Proof.
  intros Hn. unfold format_int.
  assert (Hu : forall p : positive,
             (N.pos p <= 2 ^ 31)%N ->
             (String.length (NilZero.string_of_uint (Pos.to_uint p)) <= 10)%nat).
  { intros p Hp.
    assert (Hd : (Decimal.nb_digits (Pos.to_uint p) <= 10)%nat).
    { apply nb_digits_to_uint_bound.
      change (10 ^ N.of_nat 10)%N with 10000000000%N.
      change (2 ^ 31)%N with 2147483648%N in Hp. lia. }
    unfold NilZero.string_of_uint.
    destruct (Pos.to_uint p) eqn:E; [simpl; lia | ..];
      (cbv beta iota; rewrite length_string_of_uint; exact Hd). }
  destruct n as [|p|p]; simpl.
  - lia.
  - apply Nat.le_trans with 10%nat; [|lia]. apply Hu.
    change (2 ^ 31)%N with 2147483648%N.
    change (2 ^ 31) with 2147483648 in Hn. lia.
  - apply le_n_S. apply Hu.
    change (2 ^ 31)%N with 2147483648%N.
    change (2 ^ 31) with 2147483648 in Hn. lia.
Qed.

(** X23. Solver::Snapshot formats ["_iter_%d"] into a buffer of
    [kBufferSize = 20] characters: for every iteration number that an [int]
    holds, the text and its terminating zero fit, so [sprintf_s] neither
    fails nor cuts the name, and the model file name is the prefix, this
    text and [".caffemodel"]. *)
Theorem iter_str_buffer_fits (s : SGDSolver) :
  - 2 ^ 31 <= iter_ s < 2 ^ 31 ->
  (String.length (iter_str_buffer (iter_ s)) + 1 <= kBufferSize)%nat /\
  model_filename s
  = (snapshot_prefix (param_ s) ++ iter_str_buffer (iter_ s)
     ++ ".caffemodel")%string.
Proof.
  intros Hi. split.
  - unfold iter_str_buffer, kBufferSize. rewrite string_length_app.
    pose proof (length_format_int (iter_ s) Hi). simpl. lia.
  - reflexivity.
Qed.

Lemma iter_str_buffer_fits_witness :
  (String.length (iter_str_buffer (iter_ trained_solver)) + 1 <= kBufferSize)%nat.
Proof.
  apply (iter_str_buffer_fits trained_solver). simpl. lia.
Defined.
